(** * Receipt field normalisation and assembly: a shallow embedding

    This development embeds the receipt assembler of
    [azure_receipt_analyzer.py] ([AzureReceiptAnalyzer]) and states its
    specification against it.  It also embeds the summary report, the rows
    of the exports and the helpers of [utils.py], with properties read off
    the code.  Its last part proves that [str] of a float reads back as the
    float, for the numerals without a sign and an exponent.

    Conventions of the embedding.

    - A Python [str] is a Rocq [string]; the character with code [n] stands
      for the Unicode code point [n], so the model covers the strings whose
      code points are below 256.
    - A Python [float] is a primitive binary64 [float]; [int] is [Z].
    - A call that may raise evaluates to an [outcome]: [Ret v] or
      [Raise e].  [try]/[except] blocks are written with [catch].
    - Objects of the document-analysis SDK are records; an attribute that
      is probed with [hasattr] is an [attr]: missing, [None], or a value. *)

From Stdlib Require Import QArith Qround Qpower Lqa.
From Stdlib Require Import ZArith NArith Bool List String Ascii Floats Lia.
From Stdlib Require Import Sorting.Permutation Sorting.Sorted.
Import ListNotations.

Set Warnings "-inexact-float,-register-all".

Local Open Scope string_scope.
Local Open Scope Z_scope.

(** ** Exceptions *)

Inductive exn : Type :=
| ValueError
| TypeError
| OverflowError
| AttributeError.

Inductive outcome (A : Type) : Type :=
| Ret (a : A)
| Raise (e : exn).

Arguments Ret {A} a.
Arguments Raise {A} e.

Definition bind {A B : Type} (m : outcome A) (k : A -> outcome B) : outcome B :=
  match m with
  | Ret a => k a
  | Raise e => Raise e
  end.

Notation "x <- m ;; k" := (bind m (fun x => k))
  (at level 61, m at next level, right associativity).

(** [try: m except (ValueError, TypeError): h] *)
Definition catch_value_type {A : Type} (m : outcome A) (h : A) : outcome A :=
  match m with
  | Ret a => Ret a
  | Raise ValueError => Ret h
  | Raise TypeError => Ret h
  | Raise e => Raise e
  end.

(** [try: m except: h] and [try: m except Exception: h] *)
Definition catch_all {A : Type} (m : outcome A) (h : A) : A :=
  match m with
  | Ret a => a
  | Raise _ => h
  end.

Definition raises {A : Type} (m : outcome A) : Prop :=
  exists e, m = Raise e.

(** ** Characters and strings *)

Definition code (c : ascii) : N := N_of_ascii c.

Definition in_range (lo hi : N) (c : ascii) : bool :=
  ((lo <=? code c) && (code c <=? hi))%N.

Definition is_ascii_digit (c : ascii) : bool := in_range 48 57 c.
Definition is_ascii_upper (c : ascii) : bool := in_range 65 90 c.
Definition is_ascii_lower (c : ascii) : bool := in_range 97 122 c.
Definition is_ascii_letter (c : ascii) : bool :=
  is_ascii_upper c || is_ascii_lower c.

(** [\s] of the [re] module, and [str.isspace]: the white space of the
    first 256 code points. *)
Definition is_space (c : ascii) : bool :=
  in_range 9 13 c || in_range 28 32 c
  || (code c =? 133)%N || (code c =? 160)%N.

(** [str.isdigit]: the decimal digits and the superscripts 2, 3 and 1. *)
Definition isdigit (c : ascii) : bool :=
  is_ascii_digit c
  || (code c =? 178)%N || (code c =? 179)%N || (code c =? 185)%N.

Definition shift_code (c : ascii) (d : Z) : ascii :=
  ascii_of_N (Z.to_N (Z.of_N (code c) + d)).

(** One character of [str.lower]. *)
Definition lower_char (c : ascii) : ascii :=
  if is_ascii_upper c then shift_code c 32
  else if in_range 192 222 c && negb (code c =? 215)%N then shift_code c 32
  else c.

Fixpoint lower (s : string) : string :=
  match s with
  | EmptyString => EmptyString
  | String c s' => String (lower_char c) (lower s')
  end.

(** [str.upper].  The sharp s becomes ["SS"]; the upper-case forms of the
    micro sign and of y with diaeresis lie above code point 255 and are kept
    as they are: they are not ASCII before or after the conversion, and the
    results of [upper] are only searched for ASCII patterns. *)
Definition upper_char (c : ascii) : ascii :=
  if is_ascii_lower c then shift_code c (-32)
  else if in_range 224 254 c && negb (code c =? 247)%N then shift_code c (-32)
  else c.

Fixpoint upper (s : string) : string :=
  match s with
  | EmptyString => EmptyString
  | String c s' =>
      if (code c =? 223)%N then String "S" (String "S" (upper s'))
      else String (upper_char c) (upper s')
  end.

(** [p in s] *)
Fixpoint contains (p s : string) : bool :=
  prefix p s ||
  match s with
  | EmptyString => false
  | String _ s' => contains p s'
  end.

Fixpoint filter_chars (keep : ascii -> bool) (s : string) : string :=
  match s with
  | EmptyString => EmptyString
  | String c s' =>
      if keep c then String c (filter_chars keep s') else filter_chars keep s'
  end.

Fixpoint count_char (c : ascii) (s : string) : nat :=
  match s with
  | EmptyString => O
  | String d s' => (if Ascii.eqb c d then 1 else 0) + count_char c s'
  end.

Fixpoint all_chars (p : ascii -> bool) (s : string) : bool :=
  match s with
  | EmptyString => true
  | String c s' => p c && all_chars p s'
  end.

Definition is_empty (s : string) : bool :=
  match s with EmptyString => true | _ => false end.

Fixpoint rev_string (acc s : string) : string :=
  match s with
  | EmptyString => acc
  | String c s' => rev_string (String c acc) s'
  end.

Fixpoint drop_while (p : ascii -> bool) (s : string) : string :=
  match s with
  | EmptyString => EmptyString
  | String c s' => if p c then drop_while p s' else s
  end.

Fixpoint repeat_char (c : ascii) (n : nat) : string :=
  match n with
  | O => EmptyString
  | S n' => String c (repeat_char c n')
  end.

(** ** Numbers *)

Definition digit_char (d : N) : ascii := ascii_of_N (48 + d).
Definition digit_value (c : ascii) : N := (code c - 48)%N.

(** The decimal digits of a positive number, most significant first.  The
    first argument bounds the number of digits. *)
Fixpoint digits_of_pos (fuel : nat) (p : positive) (acc : string) : string :=
  match fuel with
  | O => acc
  | S fuel' =>
      let acc' := String (digit_char (Npos p mod 10)) acc in
      match (Npos p / 10)%N with
      | N0 => acc'
      | Npos q => digits_of_pos fuel' q acc'
      end
  end.

Definition str_of_N (n : N) : string :=
  match n with
  | N0 => "0"
  | Npos p => digits_of_pos (Pos.to_nat (Pos.size p)) p ""
  end.

(** [str(z)] for an [int] *)
Definition str_of_int (z : Z) : string :=
  match z with
  | Z0 => "0"
  | Zpos p => str_of_N (Npos p)
  | Zneg p => "-" ++ str_of_N (Npos p)
  end.

(** The binary64 number nearest to [n / d], ties to even. *)
Definition float_of_ratio (neg : bool) (n d : positive) : float :=
  SF2Prim (SFdiv prec emax (S754_finite neg n 0) (S754_finite false d 0)).

(** The binary64 number nearest to [n * 10 ^ e10], ties to even: what
    reading a decimal numeral gives. *)
Definition float_of_decimal (neg : bool) (n : N) (e10 : Z) : float :=
  match n with
  | N0 => if neg then neg_zero else zero
  | Npos p =>
      match e10 with
      | Zneg k => float_of_ratio neg p (10 ^ k)%positive
      | _ => SF2Prim (binary_normalize prec emax
                        ((if neg then Zneg p else Zpos p) * 10 ^ e10) 0 false)
      end
  end.

(** [float(z)] for an [int]; too large a number raises. *)
Definition float_of_int (z : Z) : outcome float :=
  let f := SF2Prim (binary_normalize prec emax z 0 false) in
  if is_infinity f then Raise OverflowError else Ret f.

(** [int(f)]: truncation towards zero. *)
Definition int_of_float (f : float) : outcome Z :=
  match Prim2SF f with
  | S754_nan => Raise ValueError
  | S754_infinity _ => Raise OverflowError
  | S754_zero _ => Ret 0
  | S754_finite s m e =>
      let a := match e with
               | Zneg k => Zpos m / 2 ^ Zpos k
               | _ => Zpos m * 2 ^ e
               end in
      Ret (if s then - a else a)
  end.

(** [f == z] between a [float] and an [int]: the comparison is exact. *)
Definition float_eq_int (f : float) (z : Z) : bool :=
  match Prim2SF f with
  | S754_zero _ => z =? 0
  | S754_finite s m e =>
      let v := if s then Zneg m else Zpos m in
      match e with
      | Zneg k => v =? z * 2 ^ Zpos k
      | _ => v * 2 ^ e =? z
      end
  | _ => false
  end.

(** *** [float(s)] for a string

    The accepted numerals are those of CPython: white space around, an
    optional sign, digits with an optional point and an optional exponent,
    underscores between digits, or [inf], [infinity], [nan].  Anything else
    raises [ValueError]; a numeral that is too large reads as infinity. *)

(** The white space that [float] strips at both ends. *)
Definition is_float_space (c : ascii) : bool :=
  in_range 9 13 c || (code c =? 32)%N || (code c =? 133)%N || (code c =? 160)%N.

Definition strip_float_space (s : string) : string :=
  rev_string "" (drop_while is_float_space
                   (rev_string "" (drop_while is_float_space s))).

Definition is_underscore (c : ascii) : bool := Ascii.eqb c "_".

(** An underscore stands between two digits. *)
Fixpoint underscores_ok (prev_digit : bool) (s : string) : bool :=
  match s with
  | EmptyString => true
  | String c s' =>
      if is_underscore c then
        prev_digit &&
        match s' with
        | String d _ => is_ascii_digit d
        | EmptyString => false
        end && underscores_ok false s'
      else underscores_ok (is_ascii_digit c) s'
  end.

Fixpoint read_digits (s : string) (acc : N) (cnt : nat) : N * nat * string :=
  match s with
  | EmptyString => (acc, cnt, s)
  | String c s' =>
      if is_ascii_digit c
      then read_digits s' (acc * 10 + digit_value c)%N (S cnt)
      else (acc, cnt, s)
  end.

Definition read_sign (s : string) : bool * string :=
  match s with
  | String "-" s' => (true, s')
  | String "+" s' => (false, s')
  | _ => (false, s)
  end.

(** What follows the mantissa: nothing, or an exponent. *)
Definition read_exponent (s : string) : option Z :=
  match s with
  | EmptyString => Some 0
  | String c s' =>
      if Ascii.eqb c "e" || Ascii.eqb c "E" then
        let (neg, s2) := read_sign s' in
        match read_digits s2 0 0 with
        | (n, S _, EmptyString) => Some (if neg then - Z.of_N n else Z.of_N n)
        | _ => None
        end
      else None
  end.

Definition read_number (neg : bool) (s : string) : option float :=
  let '(a, ni, s1) := read_digits s 0 0 in
  let '(b, nf, s2) :=
    match s1 with
    | String "." s1' => read_digits s1' a 0
    | _ => (a, O, s1)
    end in
  match (ni + nf)%nat with
  | O => None
  | S _ =>
      match read_exponent s2 with
      | Some e => Some (float_of_decimal neg b (e - Z.of_nat nf))
      | None => None
      end
  end.

Definition float_of_str (s : string) : outcome float :=
  let t := strip_float_space s in
  if underscores_ok false t then
    let (neg, r) := read_sign (filter_chars (fun c => negb (is_underscore c)) t) in
    let w := lower r in
    if String.eqb w "inf" || String.eqb w "infinity"
    then Ret (if neg then neg_infinity else infinity)
    else if String.eqb w "nan" then Ret nan
    else match read_number neg r with
         | Some f => Ret f
         | None => Raise ValueError
         end
  else Raise ValueError.

(** *** [round(f, 2)]

    The decimal with two digits after the point nearest to the exact value
    of [f], ties to even, read back as a binary64 number; infinities, nan
    and zeros are returned as they are. *)

Definition round_half_even (num den : Z) : Z :=
  let q := num / den in
  match 2 * (num mod den) ?= den with
  | Lt => q
  | Gt => q + 1
  | Eq => if Z.even q then q else q + 1
  end.

Definition round2 (f : float) : float :=
  match Prim2SF f with
  | S754_finite s m e =>
      let n := match e with
               | Zneg k => round_half_even (Zpos m * 100) (2 ^ Zpos k)
               | _ => Zpos m * 100 * 2 ^ e
               end in
      float_of_decimal s (Z.to_N n) (-2)
  | _ => f
  end.

(** *** [str(f)] for a float: the shortest numeral that reads back as [f] *)

(** [10 ^ k <= num / den] *)
Definition pow10_le (k num den : Z) : bool :=
  match k with
  | Zneg j => den <=? num * 10 ^ Zpos j
  | _ => 10 ^ k * den <=? num
  end.

Fixpoint floor_log10 (fuel : nat) (k num den : Z) : Z :=
  match fuel with
  | O => k
  | S fuel' =>
      if pow10_le k num den then k else floor_log10 fuel' (k - 1) num den
  end.

(** [num / den * 10 ^ s] as a fraction *)
Definition scale10 (num den s : Z) : Z * Z :=
  match s with
  | Zneg j => (num, den * 10 ^ Zpos j)
  | _ => (num * 10 ^ s, den)
  end.

(** The numeral with [n] significant digits that reads back as [f] and is
    nearest to [num / den], when there is one: its digits as a number and
    the count of them after the point. *)
Definition digits_at (f : float) (num den k n : Z) : option (Z * Z) :=
  let s := n - (k + 1) in
  let (ynum, yden) := scale10 num den s in
  let lo := ynum / yden in
  let r := ynum mod yden in
  let back c := PrimFloat.eqb (float_of_decimal false (Z.to_N c) (- s)) f in
  if r =? 0 then Some (lo, s)
  else
    match back lo, back (lo + 1) with
    | true, true =>
        match 2 * r ?= yden with
        | Lt => Some (lo, s)
        | Gt => Some (lo + 1, s)
        | Eq => Some (if Z.even lo then lo else lo + 1, s)
        end
    | true, false => Some (lo, s)
    | false, true => Some (lo + 1, s)
    | false, false => None
    end.

Fixpoint shortest_digits (fuel : nat) (f : float) (num den k n : Z) : Z * Z :=
  match fuel with
  | O => let s := n - (k + 1) in
         let (ynum, yden) := scale10 num den s in
         (round_half_even ynum yden, s)
  | S fuel' =>
      match digits_at f num den k n with
      | Some r => r
      | None => shortest_digits fuel' f num den k (n + 1)
      end
  end.

Fixpoint strip_zeros (fuel : nat) (d s : Z) : Z * Z :=
  match fuel with
  | O => (d, s)
  | S fuel' =>
      if (d mod 10 =? 0) && negb (d =? 0)
      then strip_zeros fuel' (d / 10) (s - 1)
      else (d, s)
  end.

(** The digits of the shortest numeral of the positive number [m * 2 ^ e]
    and the position of its point: the value is [0.d1d2... * 10 ^ decpt]. *)
Definition repr_digits (m : positive) (e : Z) : string * Z :=
  let f := SF2Prim (S754_finite false m e) in
  let (num, den) := match e with
                    | Zneg j => (Zpos m, 2 ^ Zpos j)
                    | _ => (Zpos m * 2 ^ e, 1)
                    end in
  let est := (Z.log2 (Zpos m) + e) * 1233 / 4096 in
  let k := floor_log10 6 (est + 2) num den in
  let (d0, s0) := shortest_digits 16 f num den k 1 in
  let (d, s) := strip_zeros 20 d0 s0 in
  let ds := str_of_N (Z.to_N d) in
  (ds, Z.of_nat (String.length ds) - s).

Definition exponent_str (x : Z) : string :=
  let a := str_of_N (Z.to_N (Z.abs x)) in
  (if x <? 0 then "-" else "+") ++
  (if (String.length a <? 2)%nat then "0" ++ a else a).

Definition format_repr (ds : string) (decpt : Z) : string :=
  let nd := Z.of_nat (String.length ds) in
  if (decpt <=? -4) || (16 <? decpt) then
    match ds with
    | String c EmptyString => String c ("e" ++ exponent_str (decpt - 1))
    | String c rest => String c ("." ++ rest ++ "e" ++ exponent_str (decpt - 1))
    | EmptyString => EmptyString
    end
  else if decpt <=? 0 then
    "0." ++ repeat_char "0" (Z.to_nat (- decpt)) ++ ds
  else if nd <=? decpt then
    ds ++ repeat_char "0" (Z.to_nat (decpt - nd)) ++ ".0"
  else
    substring 0 (Z.to_nat decpt) ds ++ "." ++
    substring (Z.to_nat decpt) (Z.to_nat (nd - decpt)) ds.

Definition str_of_float (f : float) : string :=
  match Prim2SF f with
  | S754_nan => "nan"
  | S754_infinity s => if s then "-inf" else "inf"
  | S754_zero s => if s then "-0.0" else "0.0"
  | S754_finite s m e =>
      let (ds, decpt) := repr_digits m e in
      (if s then "-" else "") ++ format_repr ds decpt
  end.

(** ** The two regular expressions of the assembler *)

(** The ASCII case folding of [re.IGNORECASE] (no other character below
    256 folds onto an ASCII letter). *)
Definition fold_case (c : ascii) : ascii :=
  if is_ascii_upper c then shift_code c 32 else c.

(** Matches the literal [lit] at the start of [s], ignoring case; the
    result is what follows the match. *)
Fixpoint match_literal (lit s : string) : option string :=
  match lit, s with
  | EmptyString, _ => Some s
  | String a lit', String b s' =>
      if Ascii.eqb (fold_case a) (fold_case b) then match_literal lit' s'
      else None
  | String _ _, EmptyString => None
  end.

(** Exactly [n] characters of the class [p] *)
Fixpoint match_class (p : ascii -> bool) (n : nat) (s : string) : option string :=
  match n with
  | O => Some s
  | S n' =>
      match s with
      | String c s' => if p c then match_class p n' s' else None
      | EmptyString => None
      end
  end.

Definition match_optional_char (c : ascii) (s : string) : string :=
  match s with
  | String d s' => if Ascii.eqb c d then s' else s
  | EmptyString => s
  end.

Definition first_some {A : Type} (a b : option A) : option A :=
  match a with
  | Some _ => a
  | None => b
  end.

(** [(?:HST|GST)\s*#?\s*(\d{9})\s*(?:RT\d{4})?] matched at the start of
    [s]: what follows the match.  The character classes that meet are
    disjoint, so the greedy match is the only one. *)
Definition match_gst_hst (s : string) : option string :=
  match first_some (match_literal "HST" s) (match_literal "GST" s) with
  | None => None
  | Some r0 =>
      let r1 := drop_while is_space r0 in
      let r2 := match_optional_char "#" r1 in
      let r3 := drop_while is_space r2 in
      match match_class is_ascii_digit 9 r3 with
      | None => None
      | Some r4 =>
          let r5 := drop_while is_space r4 in
          match match_literal "RT" r5 with
          | Some r6 =>
              match match_class is_ascii_digit 4 r6 with
              | Some r7 => Some r7
              | None => Some r5
              end
          | None => Some r5
          end
      end
  end.

Definition matched_text (s rest : string) : string :=
  substring 0 (String.length s - String.length rest) s.

(** [re.search(r'(?:HST|GST)\s*#?\s*(\d{9})\s*(?:RT\d{4})?', s,
    re.IGNORECASE)]: [group(0)] of the leftmost match. *)
Fixpoint search_gst_hst (s : string) : option string :=
  match match_gst_hst s with
  | Some rest => Some (matched_text s rest)
  | None =>
      match s with
      | String _ s' => search_gst_hst s'
      | EmptyString => None
      end
  end.

Definition is_digit_or_dot (c : ascii) : bool :=
  is_ascii_digit c || Ascii.eqb c ".".

(** [YOU SAVED \$?([\d.]+)] matched at the start of [s]: [group(1)]. *)
Definition match_you_saved (s : string) : option string :=
  match match_literal "YOU SAVED " s with
  | None => None
  | Some r0 =>
      let r1 := match_optional_char "$" r0 in
      let r2 := drop_while is_digit_or_dot r1 in
      match matched_text r1 r2 with
      | EmptyString => None
      | g => Some g
      end
  end.

(** [re.search(r'YOU SAVED \$?([\d.]+)', s, re.IGNORECASE)]: [group(1)]
    of the leftmost match. *)
Fixpoint search_you_saved (s : string) : option string :=
  match match_you_saved s with
  | Some g => Some g
  | None =>
      match s with
      | String _ s' => search_you_saved s'
      | EmptyString => None
      end
  end.

(** ** Values and objects of the document-analysis service *)

(** The values a field can yield: [str], [int], [float]. *)
Inductive pyval : Type :=
| PStr (s : string)
| PInt (z : Z)
| PFloat (f : float).

(** Truth value of an optional value: [None], [""], [0] and [0.0] are
    false. *)
Definition truthy (v : option pyval) : bool :=
  match v with
  | None => false
  | Some (PStr s) => negb (is_empty s)
  | Some (PInt z) => negb (z =? 0)
  | Some (PFloat f) => negb (is_zero f)
  end.

Definition py_str (v : pyval) : string :=
  match v with
  | PStr s => s
  | PInt z => str_of_int z
  | PFloat f => str_of_float f
  end.

(** [str(value or '')] *)
Definition str_or_empty (v : option pyval) : string :=
  match v with
  | Some x => if truthy v then py_str x else ""
  | None => ""
  end.

(** An attribute of an object: missing ([hasattr] is false), present with
    the value [None], or present with a value. *)
Inductive attr (A : Type) : Type :=
| NoAttr
| AttrNone
| Attr (a : A).

Arguments NoAttr {A}.
Arguments AttrNone {A}.
Arguments Attr {A} a.

Definition hasattr {A : Type} (a : attr A) : bool :=
  match a with
  | NoAttr => false
  | _ => true
  end.

(** [getattr(obj, name, None)], and the value of an attribute that is
    present *)
Definition getattr {A : Type} (a : attr A) : option A :=
  match a with
  | Attr v => Some v
  | _ => None
  end.

Record CurrencyValue : Type := {
  amount : option float;
  currency_symbol : option string
}.

(** A field of a document.  [value_date] holds the rendering [str] gives of
    the date; [value_address] only records whether the attribute is there
    (its value is never read). *)
Inductive DocumentField : Type := mkField {
  kind : attr string;
  type_ : attr string;
  content : attr string;
  value_string : attr string;
  value_number : attr float;
  value_integer : attr Z;
  value_date : attr string;
  value_phone_number : attr string;
  value_country_region : attr string;
  value_currency : attr CurrencyValue;
  value_address : attr unit;
  value_array : attr (list DocumentField);
  value_object : attr (list (string * DocumentField))
}.

(** A mapping from field names to fields, in insertion order. *)
Definition field_map : Type := list (string * DocumentField).

Fixpoint lookup (k : string) (m : field_map) : option DocumentField :=
  match m with
  | [] => None
  | (k', v) :: m' => if String.eqb k k' then Some v else lookup k m'
  end.

Record AnalyzedDocument : Type := {
  doc_type : option string;
  fields : attr field_map
}.

Record AnalyzeResult : Type := {
  result_content : option string;
  documents : option (list AnalyzedDocument)
}.

(** ** The receipt record *)

Record Merchant : Type := {
  merchant_name : string;
  merchant_address : string;
  merchant_phone : string;
  tax_id : string;
  gst_hst_number : string
}.

Record TaxDetails : Type := {
  td_total_tax : string;
  td_tax_rates : list float;
  td_tax_amounts : list float;
  td_tax_types : list string;
  td_has_hst : bool
}.

Record Transaction : Type := {
  date : string;
  time : string;
  tr_total : string;
  tr_subtotal : string;
  tax : string;
  tax_details : TaxDetails
}.

Record Item : Type := {
  description : string;
  quantity : string;
  price : string;
  total : string;
  tax_status : string;
  tax_amount : string;
  final_price : string;
  discount : string;
  savings : string
}.

Record Payment : Type := {
  payment_type : string;
  payment_amount : string;
  card_number : string;
  change_due : string
}.

Record Receipt : Type := {
  image_id : option string;
  extracted_text : string;
  receipt_type : option string;
  merchant : Merchant;
  transaction : Transaction;
  items : list Item;
  totals : list string;
  payment : Payment
}.

(** ** [_get_empty_result] *)

Definition empty_merchant : Merchant :=
  {| merchant_name := ""; merchant_address := ""; merchant_phone := "";
     tax_id := ""; gst_hst_number := "" |}.

Definition empty_tax_details : TaxDetails :=
  {| td_total_tax := ""; td_tax_rates := []; td_tax_amounts := [];
     td_tax_types := []; td_has_hst := false |}.

Definition empty_transaction : Transaction :=
  {| date := ""; time := ""; tr_total := ""; tr_subtotal := ""; tax := "";
     tax_details := empty_tax_details |}.

Definition empty_payment : Payment :=
  {| payment_type := ""; payment_amount := ""; card_number := "";
     change_due := "" |}.

(** [image_id or "unknown"] *)
Definition id_or_unknown (image_id : option string) : string :=
  match image_id with
  | Some (String c s) => String c s
  | _ => "unknown"
  end.

Definition _get_empty_result (image_id : option string) : Receipt :=
  {| image_id := Some (id_or_unknown image_id);
     extracted_text := "";
     receipt_type := None;
     merchant := empty_merchant;
     transaction := empty_transaction;
     items := [];
     totals := [];
     payment := empty_payment |}.

(** ** [_extract_field_value] *)

(** [a or b] on optional strings *)
Definition or_else (a b : option string) : option string :=
  match a with
  | Some (String _ _) => a
  | _ => b
  end.

Definition is_type (ft : option string) (name : string) : bool :=
  match ft with
  | Some t => String.eqb t name
  | None => false
  end.

Definition _extract_field_value (field : option DocumentField) : option pyval :=
  match field with
  | None => None
  | Some f =>
      let field_type := or_else (getattr (kind f)) (getattr (type_ f)) in
      match content f with
      | Attr c => Some (PStr c)
      | _ =>
          if is_type field_type "string" && hasattr (value_string f)
          then option_map PStr (getattr (value_string f))
          else if is_type field_type "number" && hasattr (value_number f)
          then option_map PFloat (getattr (value_number f))
          else if is_type field_type "integer" && hasattr (value_integer f)
          then option_map PInt (getattr (value_integer f))
          else if is_type field_type "date" && hasattr (value_date f)
          then Some (PStr (match value_date f with
                           | Attr d => d
                           | _ => "None"
                           end))
          else if is_type field_type "phoneNumber"
                  && hasattr (value_phone_number f)
          then option_map PStr (getattr (value_phone_number f))
          else if is_type field_type "countryRegion"
                  && hasattr (value_country_region f)
          then option_map PStr (getattr (value_country_region f))
          else if is_type field_type "currency" && hasattr (value_currency f)
          then match getattr (value_currency f) with
               | Some cur => option_map PFloat (amount cur)
               | None => None
               end
          else if is_type field_type "address" && hasattr (value_address f)
          then option_map PStr (getattr (content f))
          else None
      end
  end.

(** ** [_clean_currency] *)

(** The class [[$,\sA-Za-z]] that [re.sub] deletes *)
Definition currency_noise (c : ascii) : bool :=
  Ascii.eqb c "$" || Ascii.eqb c "," || is_space c || is_ascii_letter c.

Definition _clean_currency (value : option pyval) : outcome (option float) :=
  match value with
  | None => Ret None
  | Some (PStr EmptyString) => Ret None
  | Some v =>
      catch_value_type
        match v with
        | PInt z => f <- float_of_int z ;; Ret (Some f)
        | PFloat f => Ret (Some f)
        | PStr s =>
            let clean_value :=
              filter_chars (fun c => negb (currency_noise c)) s in
            if is_empty clean_value then Ret None
            else if (1 <? count_char "-" clean_value)%nat then Ret None
            else if contains "-" clean_value && negb (prefix "-" clean_value)
            then Ret None
            else f <- float_of_str clean_value ;; Ret (Some f)
        end
        None
  end.

(** ** [_clean_quantity] *)

Definition _clean_quantity (value : option pyval) : outcome string :=
  match value with
  | None => Ret "1"
  | Some (PStr EmptyString) => Ret "1"
  | Some v =>
      catch_value_type
        (qty <- match v with
                | PInt z => float_of_int z
                | PFloat f => Ret f
                | PStr s =>
                    let clean_value :=
                      filter_chars (fun c => isdigit c || Ascii.eqb c ".") s in
                    if is_empty clean_value then Ret 1%float
                    else float_of_str clean_value
                end ;;
         i <- int_of_float qty ;;
         if float_eq_int qty i then Ret (str_of_int i)
         else Ret (str_of_float qty))
        "1"
  end.

(** ** [_categorize_item] *)

Definition category_mappings : list (string * list string) :=
  [ ("groceries",
     ["milk"; "bread"; "cheese"; "yogurt"; "fruit"; "vegetable"; "meat";
      "chicken"; "beef"; "pork"; "fish"; "egg"; "cereal"; "pasta"; "rice";
      "flour"; "sugar"; "coffee"; "tea"; "juice"; "water"; "snack"; "chip";
      "cookie"; "cracker"; "nut"; "bean"; "grain"; "produce"; "dairy";
      "bakery"; "deli"; "frozen"; "canned"; "pantry"; "spice"; "oil";
      "vinegar"; "sauce"; "condiment"; "paneer"; "naan"; "tandoori"]);
    ("household",
     ["paper"; "toilet"; "tissue"; "detergent"; "soap"; "cleaner";
      "cleaning"; "laundry"; "dish"; "towel"; "trash"; "garbage"; "bag";
      "battery"; "light bulb"; "candle"; "filter"; "storage"; "container";
      "foil"; "wrap"; "ziploc"; "vacuum"; "broom"; "mop"; "sponge"; "glove";
      "supply"]);
    ("personal_care",
     ["shampoo"; "conditioner"; "body wash"; "soap"; "lotion"; "cream";
      "deodorant"; "toothpaste"; "toothbrush"; "floss"; "mouthwash"; "razor";
      "shaving"; "makeup"; "cosmetic"; "cotton"; "sanitizer"; "medicine";
      "vitamin"; "supplement"; "bandage"; "sunscreen"; "insect repellent";
      "nail"; "hair"]);
    ("dining",
     ["restaurant"; "cafe"; "coffee shop"; "bar"; "pub"; "fast food";
      "takeout"; "delivery"; "pizza"; "burger"; "sandwich"; "salad";
      "breakfast"; "lunch"; "dinner"; "meal"; "drink"; "beverage"; "alcohol";
      "beer"; "wine"; "liquor"; "cocktail"; "appetizer"; "dessert"; "tip";
      "service charge"]);
    ("transportation",
     ["gas"; "fuel"; "parking"; "toll"; "fare"; "ticket"; "uber"; "lyft";
      "taxi"; "cab"; "bus"; "train"; "subway"; "rental"; "car wash";
      "oil change"; "maintenance"; "repair"; "tire"; "battery"; "insurance";
      "registration"; "license"; "dmv"]);
    ("entertainment",
     ["movie"; "theater"; "concert"; "show"; "event"; "ticket"; "game";
      "book"; "magazine"; "music"; "video"; "streaming"; "subscription";
      "toy"; "game"; "hobby"; "craft"; "sport"; "fitness"; "gym"; "class";
      "lesson"; "tour"; "park"; "museum"; "attraction"]) ].

(** [s.split("_")] *)
Fixpoint split_underscore (cur s : string) : list string :=
  match s with
  | EmptyString => [rev_string "" cur]
  | String c s' =>
      if is_underscore c then rev_string "" cur :: split_underscore "" s'
      else split_underscore (String c cur) s'
  end.

(** [word.capitalize()] *)
Definition capitalize (w : string) : string :=
  match w with
  | EmptyString => EmptyString
  | String c w' => String (upper_char c) (lower w')
  end.

(** [" ".join(ws)] *)
Fixpoint join_space (ws : list string) : string :=
  match ws with
  | [] => ""
  | [w] => w
  | w :: ws' => w ++ " " ++ join_space ws'
  end.

Definition display_name (category : string) : string :=
  join_space (map capitalize (split_underscore "" category)).

(** The two nested [for] loops: the first category, in table order, one of
    whose keywords occurs in the description. *)
Fixpoint first_category (table : list (string * list string))
    (description : string) : option string :=
  match table with
  | [] => None
  | (category, keywords) :: table' =>
      if existsb (fun keyword => contains keyword description) keywords
      then Some (display_name category)
      else first_category table' description
  end.

Definition _categorize_item (description : string) : string :=
  let description := lower description in
  match first_category category_mappings description with
  | Some c => c
  | None =>
      if contains "bag" description && contains "reusable" description
      then "Household"
      else "Groceries"
  end.

(** ** The item builder

    The body of the loop over the [Items] array, up to the test on the
    description.  It reads the variables [has_hst] and [tax_rates] of the
    assembler. *)

Definition default_item : Item :=
  {| description := ""; quantity := "1"; price := ""; total := "";
     tax_status := "UNKNOWN"; tax_amount := ""; final_price := "";
     discount := ""; savings := "" |}.

Definition set_price (v : string) (it : Item) : Item :=
  {| description := description it; quantity := quantity it; price := v;
     total := total it; tax_status := tax_status it;
     tax_amount := tax_amount it; final_price := final_price it;
     discount := discount it; savings := savings it |}.

Definition set_total (v : string) (it : Item) : Item :=
  {| description := description it; quantity := quantity it;
     price := price it; total := v; tax_status := tax_status it;
     tax_amount := tax_amount it; final_price := final_price it;
     discount := discount it; savings := savings it |}.

Definition set_tax (status amount final : string) (it : Item) : Item :=
  {| description := description it; quantity := quantity it;
     price := price it; total := total it; tax_status := status;
     tax_amount := amount; final_price := final;
     discount := discount it; savings := savings it |}.

Definition set_discount (v : string) (it : Item) : Item :=
  {| description := description it; quantity := quantity it;
     price := price it; total := total it; tax_status := tax_status it;
     tax_amount := tax_amount it; final_price := final_price it;
     discount := v; savings := savings it |}.

Definition set_savings (v : string) (it : Item) : Item :=
  {| description := description it; quantity := quantity it;
     price := price it; total := total it; tax_status := tax_status it;
     tax_amount := tax_amount it; final_price := final_price it;
     discount := discount it; savings := v |}.

Definition nonempty (s : string) : bool := negb (is_empty s).

(** [key in obj] followed by [obj[key]]; a [None] object raises. *)
Definition get_key (k : string) (obj : option field_map)
  : outcome (option DocumentField) :=
  match obj with
  | None => Raise TypeError
  | Some m => Ret (lookup k m)
  end.

(** [self._clean_currency(self._extract_field_value(obj[key]))] when the key
    is there *)
Definition currency_of_key (k : string) (obj : option field_map)
  : outcome (option float) :=
  f <- get_key k obj ;;
  match f with
  | Some fld => _clean_currency (_extract_field_value (Some fld))
  | None => Ret None
  end.

Definition str_of_opt_float (s : string) (v : option float) : string :=
  match v with
  | Some f => str_of_float f
  | None => s
  end.

(** Infer the unit price or the line total when one of them is missing. *)
Definition infer_price_total (it : Item) : Item :=
  if nonempty (total it) && negb (nonempty (price it)) && nonempty (quantity it)
  then
    catch_all
      (qty_f <- float_of_str (quantity it) ;;
       total_f <- float_of_str (total it) ;;
       Ret (if (0 <? qty_f)%float
            then set_price (str_of_float (round2 (total_f / qty_f))) it
            else it))
      it
  else if nonempty (price it) && negb (nonempty (total it))
          && nonempty (quantity it)
  then
    catch_all
      (qty_f <- float_of_str (quantity it) ;;
       price_f <- float_of_str (price it) ;;
       Ret (set_total (str_of_float (round2 (price_f * qty_f))) it))
      it
  else it.

Definition item_tax_status (has_hst : bool) (description : string) : string :=
  let item_desc_upper := upper description in
  if contains "ZERO" item_desc_upper || contains "0%" item_desc_upper
  then "ZERO-RATED"
  else if contains "EXEMPT" item_desc_upper then "EXEMPT"
  else if has_hst then "TAXABLE" else "UNKNOWN".

(** [tax_rates[0] if tax_rates else 0.13]; a recorded rate may be [None]. *)
Definition primary_rate (tax_rates : list (option float)) : option float :=
  match tax_rates with
  | r :: _ => r
  | [] => Some 0.13%float
  end.

(** [line_total_f * primary_rate]; a [None] rate raises. *)
Definition times_rate (x : float) (rate : option float) : outcome float :=
  match rate with
  | Some r => Ret (x * r)%float
  | None => Raise TypeError
  end.

Definition item_tax (has_hst : bool) (tax_rates : list (option float))
    (it : Item) : Item :=
  let item_tax_status := item_tax_status has_hst (description it) in
  if String.eqb item_tax_status "TAXABLE" && has_hst && nonempty (total it)
  then
    catch_all
      (line_total_f <- float_of_str (total it) ;;
       x <- times_rate line_total_f (primary_rate tax_rates) ;;
       let item_tax_amount := round2 x in
       Ret (set_tax item_tax_status (str_of_float item_tax_amount)
              (str_of_float (round2 (line_total_f + item_tax_amount))) it))
      (set_tax item_tax_status "" (total it) it)
  else if nonempty (total it)
  then set_tax item_tax_status (tax_amount it) (total it) it
  else set_tax item_tax_status (tax_amount it) (final_price it) it.

Definition item_savings (it : Item) : outcome Item :=
  match search_you_saved (description it) with
  | Some g =>
      savings <- _clean_currency (Some (PStr g)) ;;
      Ret (match savings with
           | Some f => set_savings (str_of_float f) it
           | None => it
           end)
  | None => Ret it
  end.

Definition build_item (has_hst : bool) (tax_rates : list (option float))
    (item : DocumentField) : outcome Item :=
  if hasattr (value_object item) then
    let item_obj := getattr (value_object item) in
    d <- get_key "Description" item_obj ;;
    let description :=
      match d with
      | Some f => str_or_empty (_extract_field_value (Some f))
      | None => ""
      end in
    q <- get_key "Quantity" item_obj ;;
    quantity <- match q with
                | Some f => _clean_quantity (_extract_field_value (Some f))
                | None => Ret "1"
                end ;;
    price <- currency_of_key "Price" item_obj ;;
    total_price <- currency_of_key "TotalPrice" item_obj ;;
    let it :=
      {| description := description; quantity := quantity;
         price := str_of_opt_float "" price;
         total := str_of_opt_float "" total_price;
         tax_status := "UNKNOWN"; tax_amount := ""; final_price := "";
         discount := ""; savings := "" |} in
    let it := item_tax has_hst tax_rates (infer_price_total it) in
    discount <- currency_of_key "Discount" item_obj ;;
    let it := match discount with
              | Some f => set_discount (str_of_float f) it
              | None => it
              end in
    item_savings it
  else Ret default_item.

(** ** The assembler's state

    The local variables of [_process_receipt_result] that the loop over the
    fields reads and writes, and the [result] dictionary. *)

Record State : Type := {
  result : Receipt;
  total_tax : option float;
  tax_rates : list (option float);
  tax_amounts : list float;
  tax_types : list string;
  subtotal : option float;
  total_var : option float;
  has_hst : bool
}.

Definition with_result (f : Receipt -> Receipt) (s : State) : State :=
  {| result := f (result s); total_tax := total_tax s;
     tax_rates := tax_rates s; tax_amounts := tax_amounts s;
     tax_types := tax_types s; subtotal := subtotal s;
     total_var := total_var s; has_hst := has_hst s |}.

Definition set_total_tax (v : option float) (s : State) : State :=
  {| result := result s; total_tax := v;
     tax_rates := tax_rates s; tax_amounts := tax_amounts s;
     tax_types := tax_types s; subtotal := subtotal s;
     total_var := total_var s; has_hst := has_hst s |}.

Definition set_tax_lists (rates : list (option float)) (amounts : list float)
    (types : list string) (s : State) : State :=
  {| result := result s; total_tax := total_tax s;
     tax_rates := rates; tax_amounts := amounts;
     tax_types := types; subtotal := subtotal s;
     total_var := total_var s; has_hst := has_hst s |}.

Definition set_subtotal (v : option float) (s : State) : State :=
  {| result := result s; total_tax := total_tax s;
     tax_rates := tax_rates s; tax_amounts := tax_amounts s;
     tax_types := tax_types s; subtotal := v;
     total_var := total_var s; has_hst := has_hst s |}.

Definition set_total_var (v : option float) (s : State) : State :=
  {| result := result s; total_tax := total_tax s;
     tax_rates := tax_rates s; tax_amounts := tax_amounts s;
     tax_types := tax_types s; subtotal := subtotal s;
     total_var := v; has_hst := has_hst s |}.

Definition set_has_hst (v : bool) (s : State) : State :=
  {| result := result s; total_tax := total_tax s;
     tax_rates := tax_rates s; tax_amounts := tax_amounts s;
     tax_types := tax_types s; subtotal := subtotal s;
     total_var := total_var s; has_hst := v |}.

Definition with_merchant (f : Merchant -> Merchant) (r : Receipt) : Receipt :=
  {| image_id := image_id r; extracted_text := extracted_text r;
     receipt_type := receipt_type r; merchant := f (merchant r);
     transaction := transaction r; items := items r; totals := totals r;
     payment := payment r |}.

Definition with_transaction (f : Transaction -> Transaction) (r : Receipt)
  : Receipt :=
  {| image_id := image_id r; extracted_text := extracted_text r;
     receipt_type := receipt_type r; merchant := merchant r;
     transaction := f (transaction r); items := items r; totals := totals r;
     payment := payment r |}.

Definition with_payment (f : Payment -> Payment) (r : Receipt) : Receipt :=
  {| image_id := image_id r; extracted_text := extracted_text r;
     receipt_type := receipt_type r; merchant := merchant r;
     transaction := transaction r; items := items r; totals := totals r;
     payment := f (payment r) |}.

Definition set_items (l : list Item) (r : Receipt) : Receipt :=
  {| image_id := image_id r; extracted_text := extracted_text r;
     receipt_type := receipt_type r; merchant := merchant r;
     transaction := transaction r; items := l; totals := totals r;
     payment := payment r |}.

Definition set_basic (id : option string) (text : string)
    (type : option string) (r : Receipt) : Receipt :=
  {| image_id := id; extracted_text := text; receipt_type := type;
     merchant := merchant r; transaction := transaction r; items := items r;
     totals := totals r; payment := payment r |}.

Definition set_merchant_name (v : string) (m : Merchant) : Merchant :=
  {| merchant_name := v; merchant_address := merchant_address m;
     merchant_phone := merchant_phone m; tax_id := tax_id m;
     gst_hst_number := gst_hst_number m |}.

Definition set_merchant_address (v : string) (m : Merchant) : Merchant :=
  {| merchant_name := merchant_name m; merchant_address := v;
     merchant_phone := merchant_phone m; tax_id := tax_id m;
     gst_hst_number := gst_hst_number m |}.

Definition set_merchant_phone (v : string) (m : Merchant) : Merchant :=
  {| merchant_name := merchant_name m;
     merchant_address := merchant_address m; merchant_phone := v;
     tax_id := tax_id m; gst_hst_number := gst_hst_number m |}.

Definition set_tax_id (v : string) (m : Merchant) : Merchant :=
  {| merchant_name := merchant_name m;
     merchant_address := merchant_address m;
     merchant_phone := merchant_phone m; tax_id := v;
     gst_hst_number := gst_hst_number m |}.

Definition set_gst_hst_number (v : string) (m : Merchant) : Merchant :=
  {| merchant_name := merchant_name m;
     merchant_address := merchant_address m;
     merchant_phone := merchant_phone m; tax_id := tax_id m;
     gst_hst_number := v |}.

Definition set_date (v : string) (t : Transaction) : Transaction :=
  {| date := v; time := time t; tr_total := tr_total t;
     tr_subtotal := tr_subtotal t; tax := tax t;
     tax_details := tax_details t |}.

Definition set_time (v : string) (t : Transaction) : Transaction :=
  {| date := date t; time := v; tr_total := tr_total t;
     tr_subtotal := tr_subtotal t; tax := tax t;
     tax_details := tax_details t |}.

Definition set_tr_total (v : string) (t : Transaction) : Transaction :=
  {| date := date t; time := time t; tr_total := v;
     tr_subtotal := tr_subtotal t; tax := tax t;
     tax_details := tax_details t |}.

Definition set_tr_subtotal (v : string) (t : Transaction) : Transaction :=
  {| date := date t; time := time t; tr_total := tr_total t;
     tr_subtotal := v; tax := tax t; tax_details := tax_details t |}.

Definition set_tax_final (v : string) (d : TaxDetails) (t : Transaction)
  : Transaction :=
  {| date := date t; time := time t; tr_total := tr_total t;
     tr_subtotal := tr_subtotal t; tax := v; tax_details := d |}.

Definition set_payment_type (v : string) (p : Payment) : Payment :=
  {| payment_type := v; payment_amount := payment_amount p;
     card_number := card_number p; change_due := change_due p |}.

Definition set_payment_amount (v : string) (p : Payment) : Payment :=
  {| payment_type := payment_type p; payment_amount := v;
     card_number := card_number p; change_due := change_due p |}.

Definition set_card_number (v : string) (p : Payment) : Payment :=
  {| payment_type := payment_type p; payment_amount := payment_amount p;
     card_number := v; change_due := change_due p |}.

Definition set_change_due (v : string) (p : Payment) : Payment :=
  {| payment_type := payment_type p; payment_amount := payment_amount p;
     card_number := card_number p; change_due := v |}.

(** *** Statements: a state transformer that may raise

    A statement run from a state ends in a state, normally or by raising;
    what it wrote before raising stays written. *)

Definition M (A : Type) : Type := State -> outcome A * State.

Definition mret {A : Type} (a : A) : M A := fun s => (Ret a, s).

Definition mbind {A B : Type} (m : M A) (k : A -> M B) : M B :=
  fun s =>
    match m s with
    | (Ret a, s') => k a s'
    | (Raise e, s') => (Raise e, s')
    end.

Definition lift {A : Type} (o : outcome A) : M A := fun s => (o, s).

Definition modify (f : State -> State) : M unit := fun s => (Ret tt, f s).

Definition gets {A : Type} (f : State -> A) : M A := fun s => (Ret (f s), s).

Notation "x <~ m ;; k" := (mbind m (fun x => k))
  (at level 61, m at next level, right associativity).
Notation "m ;;; k" := (mbind m (fun _ => k))
  (at level 61, right associativity).

Definition when (b : bool) (m : M unit) : M unit :=
  if b then m else mret tt.

Fixpoint for_each {X : Type} (body : X -> M unit) (xs : list X) : M unit :=
  match xs with
  | [] => mret tt
  | x :: xs' => body x ;;; for_each body xs'
  end.

(** A loop that carries a local accumulator *)
Fixpoint fold_each {X B : Type} (body : B -> X -> M B) (xs : list X) (b : B)
  : M B :=
  match xs with
  | [] => mret b
  | x :: xs' => b' <~ body b x ;; fold_each body xs' b'
  end.

(** [for x in a]: iterating over [None] raises. *)
Definition iterable {X : Type} (a : attr (list X)) : outcome (list X) :=
  match a with
  | Attr l => Ret l
  | _ => Raise TypeError
  end.

(** ** The branches of the loop over the fields *)

(** The rate of one entry of the tax breakdown: a text with a percent sign
    is divided by 100, a number above 1 too; anything that fails gives no
    rate. *)
Definition rate_of (rate_val : option pyval) : option float :=
  if truthy rate_val then
    match rate_val with
    | Some (PStr s) =>
        if contains "%" s then
          catch_all
            (f <- float_of_str
                    (filter_chars (fun c => negb (Ascii.eqb c "%")) s) ;;
             Ret (Some (f / 100)%float))
            None
        else None
    | Some (PInt z) =>
        catch_all
          (f <- float_of_int z ;;
           Ret (Some (if 1 <? z then (f / 100)%float else f)))
          None
    | Some (PFloat f) => Some (if (1 <? f)%float then (f / 100)%float else f)
    | None => None
    end
  else None.

Definition regional_labels : list string := ["HST"; "GST"; "PST"].

(** One entry of the [TaxDetails] array; [current_total_tax] is the local
    accumulator of the loop. *)
Definition tax_detail_step (current_total_tax : float)
    (tax_item : DocumentField) : M float :=
  if hasattr (value_object tax_item) then
    let tax_obj := getattr (value_object tax_item) in
    d <~ lift (get_key "Description" tax_obj) ;;
    let tax_type :=
      match d with
      | Some f => str_or_empty (_extract_field_value (Some f))
      | None => ""
      end in
    r <~ lift (get_key "Rate" tax_obj) ;;
    let rate :=
      match r with
      | Some f => rate_of (_extract_field_value (Some f))
      | None => None
      end in
    amount <~ lift (currency_of_key "Amount" tax_obj) ;;
    match amount with
    | Some a =>
        modify (fun s => set_tax_lists (tax_rates s ++ [rate])
                           (tax_amounts s ++ [a])
                           (tax_types s ++ [tax_type]) s) ;;;
        when (existsb (fun t => contains t (upper tax_type)) regional_labels)
             (modify (set_has_hst true)) ;;;
        mret (current_total_tax + a)%float
    | None => mret current_total_tax
    end
  else mret current_total_tax.

Definition tax_details_branch (field : DocumentField) : M unit :=
  modify (set_tax_lists [] [] []) ;;;
  xs <~ lift (iterable (value_array field)) ;;
  current_total_tax <~ fold_each tax_detail_step xs 0%float ;;
  modify (set_total_tax (Some current_total_tax)).

Definition total_tax_branch (hst_number_found : bool) (value : option pyval)
  : M unit :=
  cleaned_tax <~ lift (_clean_currency value) ;;
  match cleaned_tax with
  | Some t =>
      modify (set_total_tax (Some t)) ;;;
      amounts <~ gets tax_amounts ;;
      when (hst_number_found && match amounts with [] => true | _ => false end)
           (modify (fun s => set_tax_lists (tax_rates s) (tax_amounts s ++ [t])
                               (tax_types s ++ ["HST/GST"]) s))
  | None => mret tt
  end.

(** One entry of the [PaymentDetails] array *)
Definition payment_step (payment_item : DocumentField) : M unit :=
  if hasattr (value_object payment_item) then
    let payment_obj := getattr (value_object payment_item) in
    ty <~ gets (fun s => payment_type (payment (result s))) ;;
    when (is_empty ty)
      (f <~ lift (get_key "PaymentType" payment_obj) ;;
       match f with
       | Some fld =>
           modify (with_result (with_payment (set_payment_type
                     (str_or_empty (_extract_field_value (Some fld))))))
       | None => mret tt
       end) ;;;
    am <~ gets (fun s => payment_amount (payment (result s))) ;;
    when (is_empty am)
      (pay_amount <~ lift (currency_of_key "Amount" payment_obj) ;;
       match pay_amount with
       | Some a =>
           modify (with_result (with_payment (set_payment_amount
                     (str_of_float a))))
       | None => mret tt
       end) ;;;
    cn <~ gets (fun s => card_number (payment (result s))) ;;
    when (is_empty cn)
      (f <~ lift (get_key "CreditCardLast4Digits" payment_obj) ;;
       match f with
       | Some fld =>
           modify (with_result (with_payment (set_card_number
                     ("****" ++ str_or_empty (_extract_field_value (Some fld))))))
       | None => mret tt
       end)
  else mret tt.

(** One entry of the [Items] array *)
Definition item_step (item : DocumentField) : M unit :=
  h <~ gets has_hst ;;
  rates <~ gets tax_rates ;;
  item_dict <~ lift (build_item h rates item) ;;
  when (nonempty (description item_dict))
       (modify (with_result (fun r => set_items (items r ++ [item_dict]) r))).

Definition items_branch (field : DocumentField) : M unit :=
  modify (with_result (set_items [])) ;;;
  xs <~ lift (iterable (value_array field)) ;;
  for_each item_step xs.

Definition nonempty_array (a : attr (list DocumentField)) : bool :=
  match a with
  | Attr (_ :: _) => true
  | _ => false
  end.

(** The body of the [try] inside the loop, for one field of the mapping. *)
Definition process_field (hst_number_found : bool) (field_name : string)
    (field : DocumentField) : M unit :=
  let value := _extract_field_value (Some field) in
  let name_is := String.eqb field_name in
  if name_is "MerchantName" then
    modify (with_result (with_merchant (set_merchant_name (str_or_empty value))))
  else if name_is "MerchantAddress" then
    modify (with_result (with_merchant
              (set_merchant_address (str_or_empty value))))
  else if name_is "MerchantPhoneNumber" then
    modify (with_result (with_merchant (set_merchant_phone (str_or_empty value))))
  else if name_is "TransactionDate" then
    modify (with_result (with_transaction (set_date (str_or_empty value))))
  else if name_is "TransactionTime" then
    modify (with_result (with_transaction (set_time (str_or_empty value))))
  else if name_is "Total" then
    cleaned_total <~ lift (_clean_currency value) ;;
    match cleaned_total with
    | Some t =>
        modify (fun s => with_result
                           (with_transaction (set_tr_total (str_of_float t)))
                           (set_total_var (Some t) s))
    | None => mret tt
    end
  else if name_is "Subtotal" then
    cleaned_subtotal <~ lift (_clean_currency value) ;;
    match cleaned_subtotal with
    | Some t =>
        modify (fun s => with_result
                           (with_transaction (set_tr_subtotal (str_of_float t)))
                           (set_subtotal (Some t) s))
    | None => mret tt
    end
  else if name_is "TotalTax" then total_tax_branch hst_number_found value
  else if name_is "TaxDetails" && hasattr (value_array field)
          && nonempty_array (value_array field)
  then tax_details_branch field
  else if name_is "PaymentDetails" && hasattr (value_array field) then
    xs <~ lift (iterable (value_array field)) ;;
    for_each payment_step xs
  else if name_is "AmountTendered" then
    am <~ gets (fun s => payment_amount (payment (result s))) ;;
    when (is_empty am)
      (pay_amount <~ lift (_clean_currency value) ;;
       match pay_amount with
       | Some a =>
           modify (with_result (with_payment (set_payment_amount
                     (str_of_float a))))
       | None => mret tt
       end)
  else if name_is "ChangeDue" then
    change <~ lift (_clean_currency value) ;;
    match change with
    | Some c =>
        modify (with_result (with_payment (set_change_due (str_of_float c))))
    | None => mret tt
    end
  else if name_is "PaymentType" then
    ty <~ gets (fun s => payment_type (payment (result s))) ;;
    when (is_empty ty)
         (modify (with_result (with_payment
                    (set_payment_type (str_or_empty value)))))
  else if name_is "Items" && hasattr (value_array field) then items_branch field
  else mret tt.

(** ** [_process_receipt_result] *)

Definition init_state (r : Receipt) : State :=
  {| result := r; total_tax := None; tax_rates := []; tax_amounts := [];
     tax_types := []; subtotal := None; total_var := None;
     has_hst := false |}.

(** The search for a GST/HST number in [MerchantTaxId], before the loop;
    the boolean is [hst_number_found]. *)
Definition preprocess_tax_id (fs : field_map) (s : State) : State * bool :=
  match lookup "MerchantTaxId" fs with
  | Some tax_id_field =>
      match _extract_field_value (Some tax_id_field) with
      | Some v =>
          if truthy (Some v) then
            let tax_id_str := py_str v in
            match search_gst_hst tax_id_str with
            | Some m =>
                (set_has_hst true
                   (with_result (with_merchant (set_gst_hst_number m)) s),
                 true)
            | None =>
                (with_result (with_merchant (set_tax_id tax_id_str)) s, false)
            end
          else (s, false)
      | None => (s, false)
      end
  | None => (s, false)
  end.

(** One turn of the loop: the [try] body, and [except Exception: continue]. *)
Definition field_turn (hst_number_found : bool) (s : State)
    (entry : string * DocumentField) : State :=
  snd (process_field hst_number_found (fst entry) (snd entry) s).

Definition run_fields (hst_number_found : bool) (fs : field_map) (s : State)
  : State :=
  fold_left (field_turn hst_number_found) fs s.

Fixpoint valid_rates (l : list (option float)) : list float :=
  match l with
  | [] => []
  | Some r :: l' => r :: valid_rates l'
  | None :: l' => valid_rates l'
  end.

(** The final population of the tax details *)
Definition finalize (s : State) : Receipt :=
  let t := str_of_opt_float "" (total_tax s) in
  with_transaction
    (set_tax_final t
       {| td_total_tax := t;
          td_tax_rates := valid_rates (tax_rates s);
          td_tax_amounts := tax_amounts s;
          td_tax_types := filter nonempty (tax_types s);
          td_has_hst := has_hst s |})
    (result s).

Definition nonempty_or {A : Type} (o : option string) (d : A)
    (f : string -> A) : A :=
  match o with
  | Some (String c t) => f (String c t)
  | _ => d
  end.

(** The body of the outer [try] *)
Definition process_body (receipts : option AnalyzeResult)
    (image_id : option string) : outcome Receipt :=
  let result := _get_empty_result image_id in
  match receipts with
  | None => Ret result
  | Some receipts =>
      match documents receipts with
      | None => Ret result
      | Some [] => Ret result
      | Some (doc :: _) =>
          let result :=
            set_basic image_id
              (nonempty_or (result_content receipts) "" (fun c => c))
              (nonempty_or (doc_type doc) None Some) result in
          match fields doc with
          | AttrNone => Raise AttributeError
          | NoAttr => Ret result
          | Attr [] => Ret result
          | Attr fs =>
              let (s, hst_number_found) :=
                preprocess_tax_id fs (init_state result) in
              Ret (finalize (run_fields hst_number_found fs s))
          end
      end
  end.

Definition _process_receipt_result (receipts : option AnalyzeResult)
    (image_id : option string) : outcome Receipt :=
  Ret (catch_all (process_body receipts image_id) (_get_empty_result image_id)).

(** ** [generate_summary_report] *)

(** A sum that starts as the [int] 0 and is a [float] from the first amount
    added to it *)
Inductive running_sum : Type :=
| IntZero
| FloatSum (f : float).

(** [acc += x], for a [float] [x] *)
Definition add_amount (acc : running_sum) (x : float) : running_sum :=
  match acc with
  | IntZero => FloatSum (0 + x)
  | FloatSum a => FloatSum (a + x)
  end.

(** [round(acc, 2)] *)
Definition rounded (acc : running_sum) : pyval :=
  match acc with
  | IntZero => PInt 0
  | FloatSum a => PFloat (round2 a)
  end.

(** [merchants.add(name)], the set being a list without repetition; only
    its length and its sorted list are read. *)
Definition set_add (name : string) (l : list string) : list string :=
  if existsb (String.eqb name) l then l else (l ++ [name])%list.

(** [categories[category] = categories.get(category, 0) + item_total], the
    dictionary in insertion order *)
Fixpoint add_to_category (category : string) (item_total : float)
    (categories : list (string * float)) : list (string * float) :=
  match categories with
  | [] => [(category, (0 + item_total)%float)]
  | (k, v) :: rest =>
      if String.eqb k category then (k, (v + item_total)%float) :: rest
      else (k, v) :: add_to_category category item_total rest
  end.

(** [a < b] on [str]: the order of the code points *)
Fixpoint str_ltb (a b : string) : bool :=
  match a, b with
  | _, EmptyString => false
  | EmptyString, String _ _ => true
  | String x a', String y b' =>
      (code x <? code y)%N || ((code x =? code y)%N && str_ltb a' b')
  end.

Fixpoint insert_str (x : string) (l : list string) : list string :=
  match l with
  | [] => [x]
  | y :: l' => if str_ltb y x then y :: insert_str x l' else x :: l
  end.

(** [sorted(l)] for a list of [str] *)
Definition sorted_strs (l : list string) : list string :=
  fold_right insert_str [] l.

Fixpoint insert_by_value (x : string * float) (l : list (string * float))
  : list (string * float) :=
  match l with
  | [] => [x]
  | y :: l' =>
      if (snd x <? snd y)%float then y :: insert_by_value x l' else x :: l
  end.

(** [sorted(l, key=lambda item: item[1], reverse=True)] for values that
    are numbers: the largest value first, entries of equal value in the
    order they have in [l].  (With a nan among the values the order that
    the sort of Python leaves is not modelled; the entries are the same.) *)
Definition sorted_by_value_desc (l : list (string * float))
  : list (string * float) :=
  fold_right insert_by_value [] l.

Record SummaryReport : Type := {
  total_spending : pyval;
  receipt_count : Z;
  merchant_count : Z;
  item_count : Z;
  merchants : list string;
  categories : list (string * float);
  date_range : option string * option string
}.

Section Dates.

(** The dates of [pandas], which is outside this development: [to_date s]
    is [pd.to_datetime(s).date()], or nothing when that call raises;
    [date_ltb] is [<] on dates and [isoformat] the method of that name.
    The comparison is taken as total: two dates that do not compare (a
    date next to the [NaT] of [pandas]) make [min] and [max] raise, after
    the loop, and are outside this model. *)
Context {D : Type}.
Variable to_date : string -> option D.
Variable date_ltb : D -> D -> bool.
Variable isoformat : D -> string.

(** The local variables of the loop over the receipts *)
Record Tally : Type := {
  tally_total : running_sum;
  tally_merchants : list string;
  tally_items : Z;
  tally_dates : list D;
  tally_categories : list (string * float)
}.

Definition tally_start : Tally :=
  {| tally_total := IntZero; tally_merchants := []; tally_items := 0;
     tally_dates := []; tally_categories := [] |}.

(** One turn of the loop over the items of a receipt *)
Definition tally_item (t : Tally) (item : Item) : outcome Tally :=
  let category := _categorize_item (description item) in
  item_total <- _clean_currency (Some (PStr (total item))) ;;
  Ret {| tally_total := tally_total t;
         tally_merchants := tally_merchants t;
         tally_items := tally_items t + 1;
         tally_dates := tally_dates t;
         tally_categories :=
           match item_total with
           | Some x => add_to_category category x (tally_categories t)
           | None => tally_categories t
           end |}.

Fixpoint tally_items_of (t : Tally) (l : list Item) : outcome Tally :=
  match l with
  | [] => Ret t
  | item :: l' => t' <- tally_item t item ;; tally_items_of t' l'
  end.

(** One turn of the loop over the receipts *)
Definition tally_receipt (t : Tally) (receipt : Receipt) : outcome Tally :=
  total <- _clean_currency (Some (PStr (tr_total (transaction receipt)))) ;;
  let merchant_name := merchant_name (merchant receipt) in
  let date_str := date (transaction receipt) in
  tally_items_of
    {| tally_total := match total with
                      | Some x => add_amount (tally_total t) x
                      | None => tally_total t
                      end;
       tally_merchants := if nonempty merchant_name
                          then set_add merchant_name (tally_merchants t)
                          else tally_merchants t;
       tally_items := tally_items t;
       tally_dates := if nonempty date_str then
                        match to_date date_str with
                        | Some dt => (tally_dates t ++ [dt])%list
                        | None => tally_dates t
                        end
                      else tally_dates t;
       tally_categories := tally_categories t |}
    (items receipt).

Fixpoint tally_receipts (t : Tally) (l : list Receipt) : outcome Tally :=
  match l with
  | [] => Ret t
  | receipt :: l' => t' <- tally_receipt t receipt ;; tally_receipts t' l'
  end.

(** [min(l)] and [max(l)] of a list that is not empty: the first of the
    least, and of the greatest, elements *)
Definition min_date (d : D) (l : list D) : D :=
  fold_left (fun m x => if date_ltb x m then x else m) l d.

Definition max_date (d : D) (l : list D) : D :=
  fold_left (fun m x => if date_ltb m x then x else m) l d.

Definition generate_summary_report (results : list Receipt)
  : outcome SummaryReport :=
  match results with
  | [] =>
      Ret {| total_spending := PInt 0; receipt_count := 0;
             merchant_count := 0; item_count := 0; merchants := [];
             categories := []; date_range := (None, None) |}
  | _ :: _ =>
      t <- tally_receipts tally_start results ;;
      Ret {| total_spending := rounded (tally_total t);
             receipt_count := Z.of_nat (List.length results);
             merchant_count := Z.of_nat (List.length (tally_merchants t));
             item_count := tally_items t;
             merchants := sorted_strs (tally_merchants t);
             categories :=
               map (fun kv => (fst kv, round2 (snd kv)))
                   (sorted_by_value_desc (tally_categories t));
             date_range :=
               match tally_dates t with
               | d :: l => (Some (isoformat (min_date d l)),
                            Some (isoformat (max_date d l)))
               | [] => (None, None)
               end |}
  end.

End Dates.

(** ** [_prepare_excel_data] *)

(** A row of the sheet of receipts.  The key [image_id] is in every
    receipt, so the default name [Receipt_<n>] of [get] is never used. *)
Record ReceiptRecord : Type := {
  rr_receipt_id : option string;
  rr_date : string;
  rr_time : string;
  rr_merchant : string;
  rr_merchant_address : string;
  rr_subtotal : option float;
  rr_total_tax : option float;
  rr_total_amount : option float;
  rr_payment_amount : option float;
  rr_change_due : option float;
  rr_notes : string
}.

(** A row of the sheet of items *)
Record ItemRecord : Type := {
  ir_receipt_id : option string;
  ir_date : string;
  ir_merchant : string;
  ir_description : string;
  ir_quantity : string;
  ir_unit_price : option float;
  ir_total : option float;
  ir_tax_status : string;
  ir_tax_amount : option float;
  ir_final_price : option float;
  ir_category : string;
  ir_savings : option float;
  ir_notes : string
}.

(** [self._clean_currency(d.get(key))] for a key that holds a text *)
Definition currency_of_text (s : string) : outcome (option float) :=
  _clean_currency (Some (PStr s)).

Definition receipt_record (result : Receipt) : outcome ReceiptRecord :=
  let merchant_data := merchant result in
  let transaction_data := transaction result in
  let payment_data := payment result in
  let tax_details := tax_details transaction_data in
  rec_subtotal <- currency_of_text (tr_subtotal transaction_data) ;;
  rec_total_tax <- currency_of_text (td_total_tax tax_details) ;;
  rec_total_amount <- currency_of_text (tr_total transaction_data) ;;
  rec_payment_amount <- currency_of_text (payment_amount payment_data) ;;
  rec_change_due <- currency_of_text (change_due payment_data) ;;
  Ret {| rr_receipt_id := image_id result;
         rr_date := date transaction_data;
         rr_time := time transaction_data;
         rr_merchant := merchant_name merchant_data;
         rr_merchant_address := merchant_address merchant_data;
         rr_subtotal := rec_subtotal;
         rr_total_tax := rec_total_tax;
         rr_total_amount := rec_total_amount;
         rr_payment_amount := rec_payment_amount;
         rr_change_due := rec_change_due;
         rr_notes := "" |}.

Definition item_record (result : Receipt) (item : Item) : outcome ItemRecord :=
  let category := _categorize_item (description item) in
  item_unit_price <- currency_of_text (price item) ;;
  item_total <- currency_of_text (total item) ;;
  item_tax_amount <- currency_of_text (tax_amount item) ;;
  item_final_price <- currency_of_text (final_price item) ;;
  item_savings <- currency_of_text (savings item) ;;
  quantity <- _clean_quantity (Some (PStr (quantity item))) ;;
  Ret {| ir_receipt_id := image_id result;
         ir_date := date (transaction result);
         ir_merchant := merchant_name (merchant result);
         ir_description := description item;
         ir_quantity := quantity;
         ir_unit_price := item_unit_price;
         ir_total := item_total;
         ir_tax_status := tax_status item;
         ir_tax_amount := item_tax_amount;
         ir_final_price := item_final_price;
         ir_category := if String.eqb category "Other" then "Uncategorized"
                        else category;
         ir_savings := item_savings;
         ir_notes := "" |}.

Fixpoint item_records (result : Receipt) (l : list Item)
  : outcome (list ItemRecord) :=
  match l with
  | [] => Ret []
  | item :: l' =>
      row <- item_record result item ;;
      rows <- item_records result l' ;;
      Ret (row :: rows)
  end.

(** The three lists the function returns: the rows of the receipts, the
    rows of the items, and the tax rows, which are never filled. *)
Fixpoint _prepare_excel_data (results : list Receipt)
  : outcome (list ReceiptRecord * list ItemRecord * list unit) :=
  match results with
  | [] => Ret ([], [], [])
  | result :: results' =>
      record <- receipt_record result ;;
      rows <- item_records result (items result) ;;
      rest <- _prepare_excel_data results' ;;
      let '(receipt_data, items_data, tax_data) := rest in
      Ret (record :: receipt_data, (rows ++ items_data)%list, tax_data)
  end.

(** ** The rows of [_save_results_excel]

    The loop that builds [all_items], before the workbook is written. *)

Record ExcelRow : Type := {
  xr_receipt_id : option string;
  xr_date : string;
  xr_merchant : string;
  xr_description : string;
  xr_quantity : pyval;
  xr_unit_price : float;
  xr_total : float;
  xr_tax_status : string;
  xr_tax_amount : float;
  xr_final_price : float;
  xr_category : string;
  xr_savings : option float;
  xr_notes : string
}.

Definition HST_RATE : float := 0.13%float.

(** [s.find(p)]: the index of the first occurrence, or -1 *)
Fixpoint find (p s : string) : Z :=
  if prefix p s then 0
  else match s with
       | EmptyString => -1
       | String _ s' => let i := find p s' in if i <? 0 then -1 else i + 1
       end.

(** The test on the address of the merchant *)
Definition is_ontario (address : string) : bool :=
  let address := upper address in
  contains "ON" address || contains "ONTARIO" address.

(** [float(text)], with a default for a text that is not a numeral *)
Definition float_or (text : string) (default : float) : outcome float :=
  catch_value_type (float_of_str text) default.

(** One turn of the loop over the items.  No receipt has the key
    [raw_data], so [raw_items] is the empty text. *)
Definition excel_row (result : Receipt) (is_ontario : bool) (item : Item)
  : outcome ExcelRow :=
  let description := description item in
  quantity <-
    catch_value_type
      (quantity <- float_of_str (quantity item) ;;
       i <- int_of_float quantity ;;
       Ret (if float_eq_int quantity i then PInt i else PFloat quantity))
      (PInt 1) ;;
  price <- float_or (price item) 0 ;;
  total <- float_or (total item) 0 ;;
  let raw_items := "" in
  let marked :=
    contains "HC" raw_items && nonempty description
    && contains description
         (substring 0 (Z.to_nat (find description raw_items + 100)) raw_items) in
  let bag :=
    contains "bag" (lower description)
    && contains "reusable" (lower description) in
  let tax_status := if marked || bag then "TAXABLE" else "EXEMPT" in
  let tax_amount :=
    if (marked || bag) && is_ontario then round2 (total * HST_RATE)
    else 0%float in
  let final_price :=
    if (0 <? tax_amount)%float then round2 (total + tax_amount) else total in
  let category := _categorize_item description in
  savings <-
    (if nonempty (savings item)
     then catch_value_type (f <- float_of_str (savings item) ;; Ret (Some f))
            None
     else Ret None) ;;
  Ret {| xr_receipt_id := image_id result;
         xr_date := date (transaction result);
         xr_merchant := merchant_name (merchant result);
         xr_description := description;
         xr_quantity := quantity;
         xr_unit_price := price;
         xr_total := total;
         xr_tax_status := tax_status;
         xr_tax_amount := tax_amount;
         xr_final_price := final_price;
         xr_category := category;
         xr_savings := savings;
         xr_notes := "" |}.

Fixpoint excel_rows_of (result : Receipt) (is_ontario : bool) (l : list Item)
  : outcome (list ExcelRow) :=
  match l with
  | [] => Ret []
  | item :: l' =>
      row <- excel_row result is_ontario item ;;
      rows <- excel_rows_of result is_ontario l' ;;
      Ret (row :: rows)
  end.

Fixpoint excel_rows (results : list Receipt) : outcome (list ExcelRow) :=
  match results with
  | [] => Ret []
  | result :: results' =>
      let is_ontario := is_ontario (merchant_address (merchant result)) in
      subtotal <- _clean_currency
                    (Some (PStr (tr_subtotal (transaction result)))) ;;
      total_tax <- _clean_currency (Some (PStr (tax (transaction result)))) ;;
      rows <- excel_rows_of result is_ontario (items result) ;;
      rest <- excel_rows results' ;;
      Ret (rows ++ rest)%list
  end.

(** ** The helpers of [utils.py] *)

(** [normalize_currency]: [re.sub(r'[^\d.]', '', amount)], then [float]. *)
Definition normalize_currency (amount : string) : outcome (option float) :=
  catch_value_type
    (let cleaned := filter_chars is_digit_or_dot amount in
     f <- float_of_str cleaned ;; Ret (Some f))
    None.

(** [\w] of the [re] module: letters, digits and the underscore, among the
    first 256 code points. *)
Definition is_word (c : ascii) : bool :=
  is_ascii_digit c || is_ascii_letter c || is_underscore c
  || (code c =? 170)%N || in_range 178 179 c || (code c =? 181)%N
  || in_range 185 186 c || in_range 188 190 c || in_range 192 214 c
  || in_range 216 246 c || in_range 248 255 c.

(** [re.sub(r'\s+', ' ', text)]: [in_run] tells that the character before
    was white space. *)
Fixpoint collapse_spaces (in_run : bool) (s : string) : string :=
  match s with
  | EmptyString => EmptyString
  | String c s' =>
      if is_space c then
        if in_run then collapse_spaces true s'
        else String " " (collapse_spaces true s')
      else String c (collapse_spaces false s')
  end.

(** [s.strip()] *)
Definition strip (s : string) : string :=
  rev_string "" (drop_while is_space (rev_string "" (drop_while is_space s))).

(** The class [[\w\s.,$]] whose complement [re.sub] deletes *)
Definition text_char (c : ascii) : bool :=
  is_word c || is_space c || Ascii.eqb c "." || Ascii.eqb c ","
  || Ascii.eqb c "$".

Definition clean_text (text : string) : string :=
  let text := collapse_spaces false text in
  let text := filter_chars text_char text in
  strip text.

(** [s.split()] *)
Fixpoint split_words (cur s : string) : list string :=
  match s with
  | EmptyString => if is_empty cur then [] else [rev_string "" cur]
  | String c s' =>
      if is_space c then
        if is_empty cur then split_words "" s'
        else rev_string "" cur :: split_words "" s'
      else split_words (String c cur) s'
  end.

Record ProcessedItem : Type := {
  item_name : string;
  item_quantity : string;
  item_price : option float
}.

(** The body of the loop of [process_items], for one line *)
Definition process_item (item : string) : outcome (list ProcessedItem) :=
  let parts := split_words "" item in
  let n := List.length parts in
  if (3 <=? n)%nat then
    p <- normalize_currency (nth (n - 1) parts "") ;;
    Ret [ {| item_name := join_space (firstn (n - 2) parts);
             item_quantity := nth (n - 2) parts "";
             item_price := p |} ]
  else Ret [].

(** [process_items], as it runs once: the decorator calls it again only
    when it raises. *)
Fixpoint process_items (items : list string) : outcome (list ProcessedItem) :=
  match items with
  | [] => Ret []
  | item :: items' =>
      row <- process_item item ;;
      rows <- process_items items' ;;
      Ret (row ++ rows)%list
  end.

(** [detect_receipt_type] *)
Definition detect_receipt_type (text : string) : string :=
  let text := lower text in
  if contains "restaurant" text || contains "cafe" text || contains "food" text
  then "restaurant"
  else if contains "retail" text || contains "store" text
          || contains "shop" text
  then "retail"
  else if contains "service" text || contains "bill" text then "service"
  else "unknown".

(** ** Sample objects

    Fields as the service returns them: every attribute is there, those that
    do not apply are [None]. *)

Definition blank_field : DocumentField :=
  {| kind := NoAttr; type_ := AttrNone; content := AttrNone;
     value_string := AttrNone; value_number := AttrNone;
     value_integer := AttrNone; value_date := AttrNone;
     value_phone_number := AttrNone; value_country_region := AttrNone;
     value_currency := AttrNone; value_address := AttrNone;
     value_array := AttrNone; value_object := AttrNone |}.

(** A field of the given type with the given display text *)
Definition text_field (ty : string) (c : string) : DocumentField :=
  {| kind := NoAttr; type_ := Attr ty; content := Attr c;
     value_string := AttrNone; value_number := AttrNone;
     value_integer := AttrNone; value_date := AttrNone;
     value_phone_number := AttrNone; value_country_region := AttrNone;
     value_currency := AttrNone; value_address := AttrNone;
     value_array := AttrNone; value_object := AttrNone |}.

(** A string field with a typed value and the given display text *)
Definition string_field (c : attr string) (v : string) : DocumentField :=
  {| kind := NoAttr; type_ := Attr "string"; content := c;
     value_string := Attr v; value_number := AttrNone;
     value_integer := AttrNone; value_date := AttrNone;
     value_phone_number := AttrNone; value_country_region := AttrNone;
     value_currency := AttrNone; value_address := AttrNone;
     value_array := AttrNone; value_object := AttrNone |}.

Definition number_field (v : float) : DocumentField :=
  {| kind := NoAttr; type_ := Attr "number"; content := AttrNone;
     value_string := AttrNone; value_number := Attr v;
     value_integer := AttrNone; value_date := AttrNone;
     value_phone_number := AttrNone; value_country_region := AttrNone;
     value_currency := AttrNone; value_address := AttrNone;
     value_array := AttrNone; value_object := AttrNone |}.

Definition array_field (l : list DocumentField) : DocumentField :=
  {| kind := NoAttr; type_ := Attr "array"; content := AttrNone;
     value_string := AttrNone; value_number := AttrNone;
     value_integer := AttrNone; value_date := AttrNone;
     value_phone_number := AttrNone; value_country_region := AttrNone;
     value_currency := AttrNone; value_address := AttrNone;
     value_array := Attr l; value_object := AttrNone |}.

Definition object_field (m : field_map) : DocumentField :=
  {| kind := NoAttr; type_ := Attr "object"; content := AttrNone;
     value_string := AttrNone; value_number := AttrNone;
     value_integer := AttrNone; value_date := AttrNone;
     value_phone_number := AttrNone; value_country_region := AttrNone;
     value_currency := AttrNone; value_address := AttrNone;
     value_array := AttrNone; value_object := Attr m |}.

Definition one_document (text : string) (fs : attr field_map)
  : option AnalyzeResult :=
  Some {| result_content := Some text;
          documents := Some [ {| doc_type := Some "receipt.retailMeal";
                                 fields := fs |} ] |}.

(** ** Notions used in the statements *)

(** The result returned for a document without fields: the empty result
    with the identifier as passed, the text of the whole result and the type
    of the document. *)
Definition basic_result (id : option string) (text type : option string)
  : Receipt :=
  {| image_id := id;
     extracted_text := nonempty_or text "" (fun c => c);
     receipt_type := nonempty_or type None Some;
     merchant := empty_merchant;
     transaction := empty_transaction;
     items := [];
     totals := [];
     payment := empty_payment |}.

Definition breakdown_13 : DocumentField :=
  array_field
    [object_field [("Description", text_field "string" "HST");
                   ("Amount", text_field "currency" "13.00")]].

Definition total_tax_5 : DocumentField := text_field "currency" "5.00".

(** A text with its ASCII letters in lower case *)
Fixpoint fold_string (s : string) : string :=
  match s with
  | EmptyString => EmptyString
  | String c s' => String (fold_case c) (fold_string s')
  end.

(** An occurrence of [p] in [s] up to the case of ASCII letters *)
Definition occurs_ci (p s : string) : Prop :=
  exists a m b, s = a ++ m ++ b /\ fold_string m = fold_string p.

Definition is_ascii (c : ascii) : bool := (code c <? 128)%N.

(** Upper-case ASCII patterns without the letter S: the patterns the item
    builder and the tax reconciler look for. *)
Definition plain_char (c : ascii) : bool :=
  is_ascii c && negb (is_ascii_lower c) && negb (Ascii.eqb c "S").

(** Two items that agree on everything but the discount and the savings *)
Definition same_core (a b : Item) : Prop :=
  description a = description b /\ quantity a = quantity b
  /\ price a = price b /\ total a = total b
  /\ tax_status a = tax_status b /\ tax_amount a = tax_amount b
  /\ final_price a = final_price b.

(** The item before the inference and the tax steps: no tax amount and no
    final price yet. *)
Definition fresh_item (it : Item) : Prop :=
  tax_status it = "UNKNOWN" /\ tax_amount it = "" /\ final_price it = "".

(** A zero-rate marker in a description: ["zero"] or ["0%"], in any case *)
Definition zero_rate_marker (d : string) : Prop :=
  occurs_ci "zero" d \/ occurs_ci "0%" d.

Definition exempt_zero_item : DocumentField :=
  object_field
    [("Description", text_field "string" "Tax Exempt 0% Milk");
     ("TotalPrice", text_field "currency" "$4.00")].

(** The rate the item builder applies: the first recorded one, or 0.13
    when none is recorded. *)
Definition applied_rate (rates : list (option float)) (r : float) : Prop :=
  (rates = [] /\ r = 0.13%float) \/ exists rest, rates = Some r :: rest.

Definition bread_3 : DocumentField :=
  object_field [("Description", text_field "string" "Bread");
                ("TotalPrice", text_field "currency" "3.00")].

Definition gas_1005 : DocumentField :=
  object_field [("Description", text_field "string" "Regular gas");
                ("TotalPrice", text_field "currency" "1.005")].

Definition item_of (m : field_map) : DocumentField := object_field m.

Definition two_for_ten : DocumentField :=
  item_of [("Description", text_field "string" "Tea");
           ("Quantity", text_field "number" "2");
           ("TotalPrice", text_field "currency" "10.00")].

Definition four_at_three : DocumentField :=
  item_of [("Description", text_field "string" "Tea");
           ("Quantity", text_field "number" "4");
           ("Price", text_field "currency" "3.00")].

Definition none_at_three : DocumentField :=
  item_of [("Description", text_field "string" "Tea");
           ("Quantity", text_field "number" "0");
           ("Price", text_field "currency" "3.00")].

Definition none_for_three : DocumentField :=
  item_of [("Description", text_field "string" "Tea");
           ("Quantity", text_field "number" "0");
           ("TotalPrice", text_field "currency" "3.00")].

(** The number a string of digits denotes, after the digits already read *)
Fixpoint digits_value (a : N) (s : string) : N :=
  match s with
  | EmptyString => a
  | String c s' => digits_value (a * 10 + digit_value c) s'
  end.

Definition starts_with_digit (s : string) : bool :=
  match s with
  | String c _ => is_ascii_digit c
  | EmptyString => false
  end.

(** The characters of a numeral in plain notation: digits, point, sign *)
Definition numeral_char (c : ascii) : bool :=
  is_ascii_digit c || Ascii.eqb c "." || Ascii.eqb c "-".

(** A decimal numeral: a sign, the digits before the point (at least one)
    and the digits after it. *)
Record Numeral : Type := {
  negative : bool;
  int_part : string;
  frac_part : string
}.

Definition well_formed (d : Numeral) : Prop :=
  all_chars is_ascii_digit (int_part d) = true
  /\ int_part d <> ""
  /\ all_chars is_ascii_digit (frac_part d) = true.

Definition sign_text (d : Numeral) : string :=
  if negative d then "-" else "".

(** The point and the digits after it; nothing when there are none. *)
Definition with_point (f : string) : string :=
  match f with
  | EmptyString => ""
  | String _ _ => "." ++ f
  end.

Definition fraction_text (d : Numeral) : string := with_point (frac_part d).

(** The numeral in plain notation, as in [-12345.67] *)
Definition plain (d : Numeral) : string :=
  sign_text d ++ int_part d ++ fraction_text d.

(** The binary64 number the numeral denotes: the nearest one. *)
Definition float_of_numeral (d : Numeral) : float :=
  float_of_decimal (negative d)
    (digits_value 0 (int_part d ++ frac_part d))
    (- Z.of_nat (String.length (frac_part d))).

(** Commas between groups of three digits, counted from the right *)
Fixpoint group3 (s : string) : string :=
  match s with
  | EmptyString => ""
  | String c s' =>
      String c (if (0 <? String.length s')%nat
                   && (String.length s' mod 3 =? 0)%nat
                then "," ++ group3 s'
                else group3 s')
  end.

(** An amount as printed on a receipt: white space, currency marks before
    and after the sign, the digits before the point in groups of three, the
    fraction, white space. *)
Definition format_currency (ws1 mark1 mark2 ws2 : string) (d : Numeral)
  : string :=
  ws1 ++ mark1 ++ sign_text d ++ mark2 ++ group3 (int_part d)
      ++ fraction_text d ++ ws2.

(** The currency marks the normalizer deletes: the dollar sign and ASCII
    letters (as in [CAD] or [US$]). *)
Definition dollar_or_letter (c : ascii) : bool :=
  Ascii.eqb c "$" || is_ascii_letter c.

(** The characters the currency normalizer keeps *)
Definition kept (c : ascii) : bool := negb (currency_noise c).

Definition amount_12345_67 : Numeral :=
  {| negative := false; int_part := "12345"; frac_part := "67" |}.

(** The pound sign, code point 163 *)
Definition pound : string := String (ascii_of_nat 163) "".

Definition amount_5_00 : Numeral :=
  {| negative := false; int_part := "5"; frac_part := "00" |}.

(** The mantissa [m] with nothing shifted out of it *)
Definition exact_record (m : positive) : shr_record :=
  {| shr_m := Zpos m; shr_r := false; shr_s := false |}.

(** The sum the [TaxDetails] branch computes: the amounts added to 0.0 from
    left to right. *)
Definition sum_amounts (l : list float) : float :=
  fold_left PrimFloat.add l 0%float.


(** A statement that keeps the property [I] of the state, whether it raises
    or not *)
Definition preserves {A : Type} (I : State -> Prop) (m : M A) : Prop :=
  forall s, I s -> I (snd (m s)).

(** What the assembler returns: the empty result, the basic result of a
    document without fields, or the record built by the loop over a
    non-empty field mapping. *)
Inductive assembled (id : option string) (r : Receipt) : Prop :=
| assembled_empty : r = _get_empty_result id -> assembled id r
| assembled_basic (text type : option string) :
    r = basic_result id text type -> assembled id r
| assembled_fields (text type : option string) (fs : field_map) :
    fs <> [] ->
    r = finalize (run_fields
                    (snd (preprocess_tax_id fs
                            (init_state (basic_result id text type))))
                    fs
                    (fst (preprocess_tax_id fs
                            (init_state (basic_result id text type))))) ->
    assembled id r.

(** An analysis result whose first document has the fields [fs] *)
Definition receipt_of (text type : option string)
    (rest : list AnalyzedDocument) (fs : field_map) : option AnalyzeResult :=
  Some {| result_content := text;
          documents := Some ({| doc_type := type; fields := Attr fs |}
                               :: rest) |}.

(** The names of the fields that the assembler reads *)
Definition known_fields : list string :=
  ["MerchantTaxId"; "MerchantName"; "MerchantAddress"; "MerchantPhoneNumber";
   "TransactionDate"; "TransactionTime"; "Total"; "Subtotal"; "TotalTax";
   "TaxDetails"; "PaymentDetails"; "AmountTendered"; "ChangeDue";
   "PaymentType"; "Items"].

Definition with_loyalty_points : field_map :=
  [("MerchantName", text_field "string" "Corner Store");
   ("LoyaltyPoints", text_field "string" "120");
   ("Total", text_field "currency" "$4.50")].

(** The two identifiers of the merchant *)
Definition merchant_ids (g t : string) (s : State) : Prop :=
  gst_hst_number (merchant (result s)) = g
  /\ tax_id (merchant (result s)) = t.

Definition tax_id_only : field_map :=
  [("MerchantTaxId", text_field "string" "HST# 123456789 RT0001");
   ("MerchantName", text_field "string" "Corner Store")].


(** The lists of the tax breakdown in step: a type for every amount, and no
    more rates than amounts. *)
Definition aligned (s : State) : Prop :=
  (List.length (tax_rates s) <= List.length (tax_amounts s))%nat
  /\ List.length (tax_types s) = List.length (tax_amounts s).

Definition described (it : Item) : Prop := description it <> "".

(** An item that is not marked taxable *)
Definition untaxed (it : Item) : Prop := tax_status it <> "TAXABLE".

(** No regional tax seen so far, and no item marked taxable *)
Definition unflagged (s : State) : Prop :=
  has_hst s = false /\ Forall untaxed (items (result s)).

Definition items_then_breakdown : field_map :=
  [("Items", array_field [bread_3]); ("TaxDetails", breakdown_13)].


(** The state without the part that the field named [name] writes entry by
    entry: the tax lists and the regional-tax flag for [TaxDetails], the
    items for [Items], the payment for [PaymentDetails]; for any other
    name, the whole state. *)
Definition outside_own_part (name : string) (s : State) : State :=
  if String.eqb name "TaxDetails"
  then set_has_hst false (set_tax_lists [] [] [] s)
  else if String.eqb name "Items" then with_result (set_items []) s
  else if String.eqb name "PaymentDetails"
  then with_result (with_payment (fun _ => empty_payment)) s
  else s.




(** An entry of the tax breakdown with the label [label] and an amount that
    the currency normalizer reads *)
Definition labelled_entry (entry : DocumentField) (label : string) : Prop :=
  exists obj d amount_field a,
    value_object entry = Attr obj
    /\ lookup "Description" obj = Some d
    /\ str_or_empty (_extract_field_value (Some d)) = label
    /\ lookup "Amount" obj = Some amount_field
    /\ _clean_currency (_extract_field_value (Some amount_field))
       = Ret (Some a).

(** An entry of the tax breakdown that is processed without a fault: it has
    no [value_object], or its [value_object] is a mapping whose amount, if
    any, the currency normalizer takes. *)
Definition faultless_entry (entry : DocumentField) : Prop :=
  match value_object entry with
  | NoAttr => True
  | AttrNone => False
  | Attr obj => exists r, currency_of_key "Amount" (Some obj) = Ret r
  end.

(** The label, in upper case, contains [HST], [GST] or [PST]. *)
Definition regional_label (label : string) : bool :=
  existsb (fun t => contains t (upper label)) regional_labels.

(** A breakdown whose last entry faults: its [value_object] is [None]. *)
Definition breakdown_with_fault : DocumentField :=
  array_field
    [object_field [("Description", text_field "string" "City levy");
                   ("Amount", text_field "currency" "0.40")];
     object_field [("Description", text_field "string" "Ontario hst");
                   ("Amount", text_field "currency" "1.30")];
     text_field "string" "n/a"].

(** A text that holds an amount: empty, or what [str] gives for a float *)
Definition money_text (s : string) : Prop :=
  s = "" \/ exists f, s = str_of_float f.

Definition money_item (it : Item) : Prop :=
  money_text (price it) /\ money_text (total it)
  /\ money_text (tax_amount it) /\ money_text (final_price it)
  /\ money_text (discount it) /\ money_text (savings it).

Definition money_state (s : State) : Prop :=
  money_text (tr_total (transaction (result s)))
  /\ money_text (tr_subtotal (transaction (result s)))
  /\ money_text (payment_amount (payment (result s)))
  /\ money_text (change_due (payment (result s)))
  /\ Forall money_item (items (result s)).

Definition thirteen : Numeral :=
  {| negative := false; int_part := "13"; frac_part := "" |}.

(** The display names of the six categories *)
Definition category_names : list string :=
  ["Groceries"; "Household"; "Personal Care"; "Dining"; "Transportation";
   "Entertainment"].

(** Keywords of the later categories that contain a keyword of the first
    one *)
Definition shadowed_keywords : list string :=
  ["toilet"; "foil"; "coffee shop"; "delivery"; "oil change"].

(** ASCII characters other than upper-case letters: the patterns searched
    for in a text put in lower case *)
Definition lower_plain (c : ascii) : bool :=
  is_ascii c && negb (is_ascii_upper c).

(** What the currency normalizer reads in a text, nothing when it reads no
    number *)
Definition amount_in (s : string) : list float :=
  match _clean_currency (Some (PStr s)) with
  | Ret (Some x) => [x]
  | _ => []
  end.

(** The receipt totals that can be read, in order *)
Definition receipt_totals (results : list Receipt) : list float :=
  flat_map (fun r => amount_in (tr_total (transaction r))) results.

(** The line totals that can be read of the items that the categorizer puts
    in the category [c], in order *)
Definition line_totals (c : string) (l : list Item) : list float :=
  flat_map (fun it => if String.eqb (_categorize_item (description it)) c
                      then amount_in (total it) else []) l.

Definition all_items (results : list Receipt) : list Item :=
  flat_map items results.

(** [dict.get] *)
Fixpoint value_of (k : string) (m : list (string * float)) : option float :=
  match m with
  | [] => None
  | (k', v) :: m' => if String.eqb k' k then Some v else value_of k m'
  end.

(** The value of a running sum of the amounts [l] *)
Definition sum_of (l : list float) : running_sum :=
  match l with
  | [] => IntZero
  | _ :: _ => FloatSum (sum_amounts l)
  end.

(** Strictly increasing, in the order of the code points *)
Definition str_lt (a b : string) : Prop := str_ltb a b = true.

(** What the tally holds after the items [seen] of the receipts [done] *)
Record tallied {D : Type} (done : list Receipt) (seen : list Item)
    (t : @Tally D) : Prop := {
  tallied_total : tally_total t = sum_of (receipt_totals done);
  tallied_items : tally_items t = Z.of_nat (List.length seen);
  tallied_merchants_in :
    forall m, In m (tally_merchants t)
              <-> m <> ""
                  /\ exists r, In r done /\ merchant_name (merchant r) = m;
  tallied_merchants_nodup : NoDup (tally_merchants t);
  tallied_keys_nodup : NoDup (map fst (tally_categories t));
  tallied_keys_named :
    Forall (fun k => In k category_names) (map fst (tally_categories t));
  tallied_values :
    forall c, value_of c (tally_categories t)
              = match line_totals c seen with
                | [] => None
                | _ :: _ => Some (sum_amounts (line_totals c seen))
                end
}.

(** What an item row takes from its receipt and its item without a
    conversion *)
Definition row_source (r : Receipt) (it : Item)
  : option string * string * string * string * string :=
  (image_id r, date (transaction r), merchant_name (merchant r),
   description it, tax_status it).

Definition row_copy (row : ItemRecord)
  : option string * string * string * string * string :=
  (ir_receipt_id row, ir_date row, ir_merchant row, ir_description row,
   ir_tax_status row).

Definition bag_item : Item :=
  {| description := "Reusable BAG"; quantity := "2"; price := "0.25";
     total := "0.5"; tax_status := "UNKNOWN"; tax_amount := "";
     final_price := "0.5"; discount := ""; savings := "" |}.

Definition two_receipts : list Receipt :=
  [ with_merchant (set_merchant_name "Corner Store")
      (set_items [bag_item] (_get_empty_result (Some "a.jpg")));
    _get_empty_result None ].

(** A description that mentions a reusable bag, in any letter case *)
Definition reusable_bag (d : string) : Prop :=
  occurs_ci "bag" d /\ occurs_ci "reusable" d.

(** The numeral without its sign *)
Definition magnitude (d : Numeral) : Numeral :=
  {| negative := false; int_part := int_part d; frac_part := frac_part d |}.

Definition not_digit_or_dot (c : ascii) : bool := negb (is_digit_or_dot c).

(** The number of decimal digits, and of points, in a text *)
Definition digits_in (s : string) : nat :=
  String.length (filter_chars is_ascii_digit s).

Definition points_in (s : string) : nat := count_char "." s.

Definition amount_minus_1234_50 : Numeral :=
  {| negative := true; int_part := "1234"; frac_part := "50" |}.

(** One of the words occurs in the text, in any letter case *)
Definition mentions (words : list string) (text : string) : Prop :=
  exists w, In w words /\ occurs_ci w text.

Definition restaurant_words : list string := ["restaurant"; "cafe"; "food"].
Definition retail_words : list string := ["retail"; "store"; "shop"].
Definition service_words : list string := ["service"; "bill"].

(** The characters [clean_text] lets through, white space being the space
    only *)
Definition clean_char (c : ascii) : bool :=
  is_word c || Ascii.eqb c " " || Ascii.eqb c "." || Ascii.eqb c ","
  || Ascii.eqb c "$".

Definition first_char (s : string) : option ascii :=
  match s with
  | String c _ => Some c
  | EmptyString => None
  end.

Definition last_char (s : string) : option ascii :=
  first_char (rev_string "" s).

Definition not_space (o : option ascii) : Prop :=
  match o with
  | Some c => is_space c = false
  | None => True
  end.

(** A word: not empty, without white space *)
Definition token (w : string) : Prop :=
  w <> "" /\ all_chars (fun c => negb (is_space c)) w = true.

(** ** Rounding to nearest, on fractions

    What it means for a binary64 number to be the one nearest to a
    fraction, as [float] reads a decimal numeral and as the division and
    the conversion of integers of [SpecFloat] compute it; and the digits
    that [str] prints for a float. *)

Section Nearest.

Local Open Scope Q_scope.

(** The powers of two, of any integer exponent *)
Definition bpow (e : Z) : Q := 2 ^ e.

(** The integer nearest to [y], ties to even *)
Definition rhe (y : Q) : Z :=
  let fl := Qfloor y in
  match Qcompare (y - inject_Z fl) (1 # 2) with
  | Lt => fl
  | Gt => (fl + 1)%Z
  | Eq => if Z.even fl then fl else (fl + 1)%Z
  end.

(** The exponent of the binary64 numbers of a given binade *)
Definition fexp64 : Z -> Z := fexp prec emax.

(** The end of [binary_round_aux]: the mantissa [M] at the exponent [e],
    renormalized when rounding carried into a further bit *)
Definition finish (M e : Z) : spec_float :=
  let '(mrs, e') := shr_fexp prec emax M e loc_Exact in
  match shr_m mrs with
  | Z0 => S754_zero false
  | Zpos m =>
      if (e' <=? emax - prec)%Z then S754_finite false m e'
      else S754_infinity false
  | Zneg _ => S754_nan
  end.

(** [x] lies in the binade of exponent [ex]: [2 ^ (ex - 1) <= x < 2 ^ ex]. *)
Definition binade (x : Q) (ex : Z) : Prop :=
  bpow (ex - 1) <= x /\ x < bpow ex.

(** [g] is the binary64 number nearest to [x], ties to even. *)
Definition is_rne (x : Q) (g : spec_float) : Prop :=
  exists ex, binade x ex
             /\ g = finish (rhe (x / bpow (fexp64 ex))) (fexp64 ex).

(** The round and sticky bits of a fraction [fr] of one unit *)
Definition frac_bits (fr : Q) (r s : bool) : Prop :=
  (r = true <-> 1 # 2 <= fr)
  /\ (s = true <-> (0 < fr /\ fr < 1 # 2) \/ 1 # 2 < fr).

(** The record holds the floor of [y], not negative, and the bits of what
    is left of it. *)
Definition represents (y : Q) (rec : shr_record) : Prop :=
  exists fr, y == inject_Z (shr_m rec) + fr
             /\ 0 <= fr /\ fr < 1 /\ (0 <= shr_m rec)%Z
             /\ frac_bits fr (shr_r rec) (shr_s rec).

(** The powers of ten, of any integer exponent *)
Definition ten_pow (e : Z) : Q := 10 ^ e.

(** The value of the positive float with mantissa [m] and exponent [e] *)
Definition float_value (m : positive) (e : Z) : Q :=
  inject_Z (Zpos m) * bpow e.

(** The relative distance within which a number still rounds to a float:
    half a unit of the seventeenth digit *)
Definition near17 : Q := 1 # 20000000000000000.

(** [v] is the fraction [num / den] of two positive integers. *)
Definition frac_of (v : Q) (num den : Z) : Prop :=
  (0 < num)%Z /\ (0 < den)%Z /\ v * inject_Z den == inject_Z num.

(** The estimate of the decimal exponent is never more than four above a
    power of ten that is below the power of two: checked for every binary
    exponent of a binary64 number. *)
Definition log10_check (L : Z) : bool :=
  let k := (L * 1233 / 4096 - 4)%Z in
  (10 ^ Z.max k 0 * 2 ^ Z.max (- L) 0 <=? 2 ^ Z.max L 0 * 10 ^ Z.max (- k) 0)%Z.

(** The decimal [d * 10 ^ (- s)] reads as the float [f]: the float nearest
    to it is [f]. *)
Definition reads_as (f : float) (d s : Z) : Prop :=
  (0 < d)%Z
  /\ exists g, is_rne (inject_Z d * ten_pow (- s)) g /\ SF2Prim g = f.

End Nearest.

(** * Properties *)

(** ** The field extractor *)

Section FieldExtractor.

Variable f : DocumentField.

Let field_type : option string :=
  or_else (getattr (kind f)) (getattr (type_ f)).

(** A display text that is not [None] is returned, whatever the kind and
    whatever the text. *)
Lemma extract_content (c : string) :
  content f = Attr c -> _extract_field_value (Some f) = Some (PStr c).
Proof. intros H. unfold _extract_field_value. now rewrite H. Qed.

Hypothesis no_content : getattr (content f) = None.

Lemma extract_dispatch :
  _extract_field_value (Some f) =
    if is_type field_type "string" && hasattr (value_string f)
    then option_map PStr (getattr (value_string f))
    else if is_type field_type "number" && hasattr (value_number f)
    then option_map PFloat (getattr (value_number f))
    else if is_type field_type "integer" && hasattr (value_integer f)
    then option_map PInt (getattr (value_integer f))
    else if is_type field_type "date" && hasattr (value_date f)
    then Some (PStr (match value_date f with Attr d => d | _ => "None" end))
    else if is_type field_type "phoneNumber" && hasattr (value_phone_number f)
    then option_map PStr (getattr (value_phone_number f))
    else if is_type field_type "countryRegion"
            && hasattr (value_country_region f)
    then option_map PStr (getattr (value_country_region f))
    else if is_type field_type "currency" && hasattr (value_currency f)
    then match getattr (value_currency f) with
         | Some cur => option_map PFloat (amount cur)
         | None => None
         end
    else None.
Proof.
  unfold _extract_field_value, field_type.
  destruct (content f) eqn:E; try discriminate; cbn in no_content |- *;
    repeat match goal with
           | |- (if ?b then _ else _) = (if ?b then _ else _) =>
               destruct b; [reflexivity|]
           end;
    now destruct (_ && _).
Qed.

(** Without a display text, a string field yields its typed value. *)
Lemma extract_string (v : string) :
  field_type = Some "string" -> value_string f = Attr v ->
  _extract_field_value (Some f) = Some (PStr v).
Proof.
  intros Ht Hv. rewrite extract_dispatch. rewrite Ht, Hv. reflexivity.
Qed.

(** Without a display text and without a declared kind, nothing is
    extracted. *)
Lemma extract_untyped :
  field_type = None -> _extract_field_value (Some f) = None.
Proof. intros Ht. rewrite extract_dispatch. now rewrite Ht. Qed.

End FieldExtractor.

(** C2, on the code: a field whose display text is the empty string and
    whose typed string value is ["Tim Hortons"] yields the empty display
    text; the extractor tests the display text against [None] only and does
    not fall back to the typed accessor. *)
Theorem extract_empty_content_not_skipped :
  _extract_field_value (Some (string_field (Attr "") "Tim Hortons"))
  = Some (PStr "")
  /\ _extract_field_value (Some (string_field AttrNone "Tim Hortons"))
     = Some (PStr "Tim Hortons").
Proof. split; reflexivity. Qed.

(** ** The categorizer *)

Lemma contains_keyword_found (kw d : string) (kws : list string) :
  In kw kws -> contains kw d = true ->
  existsb (fun keyword => contains keyword d) kws = true.
Proof.
  intros Hin Hc. apply existsb_exists. exists kw. now split.
Qed.

(** The test after the loops is never reached with a description that
    contains ["bag"]: that word is a keyword of the second category, so the
    loops have returned. *)
Lemma bag_found_by_loops (d : string) :
  contains "bag" d = true -> first_category category_mappings d <> None.
Proof.
  intros Hbag. unfold category_mappings.
  cbn [first_category].
  destruct (existsb _ _); [discriminate|].
  rewrite (contains_keyword_found "bag" d) by (cbn; tauto || assumption).
  discriminate.
Qed.

(** The categorizer is the table lookup, with [Groceries] when no keyword
    occurs. *)
Lemma categorize_is_lookup (description : string) :
  _categorize_item description =
    match first_category category_mappings (lower description) with
    | Some c => c
    | None => "Groceries"
    end.
Proof.
  unfold _categorize_item.
  destruct (first_category _ _) eqn:E; [reflexivity|].
  destruct (contains "bag" (lower description)) eqn:B; [|reflexivity].
  now apply bag_found_by_loops in B.
Qed.

(** C7, on the code: ["Reusable Tea Bag"] contains both ["bag"] and
    ["reusable"] and is put in [Groceries], because the keyword ["tea"] of
    the first category is found by the loops before the rule for reusable
    bags is looked at; descriptions without any keyword get [Groceries]. *)
Theorem categorize_reusable_tea_bag :
  contains "bag" (lower "Reusable Tea Bag") = true
  /\ contains "reusable" (lower "Reusable Tea Bag") = true
  /\ _categorize_item "Reusable Tea Bag" = "Groceries"
  /\ _categorize_item "Reusable Bag" = "Household"
  /\ (forall d, first_category category_mappings (lower d) = None ->
                _categorize_item d = "Groceries").
Proof.
  repeat split; try reflexivity.
  intros d H. rewrite categorize_is_lookup. now rewrite H.
Qed.

(** ** The assembler: results without a document or without fields *)

(** C3, as the code has it: the all-default record has every string field
    empty, no rates, amounts, types or items, and the identifier passed, or
    ["unknown"] for none.  Without a result, without a list of documents or
    with an empty one, the assembler returns the all-default record; the same
    when the fields of the first document are [None].  When the first document has no [fields]
    attribute or an empty mapping, the record returned has every field of the
    merchant, the transaction and the payment empty and no item, but carries
    the identifier as passed, the text of the result and the type of the
    document. *)
Theorem no_document_or_no_fields :
  (forall id,
     _get_empty_result id =
      {| image_id := Some (id_or_unknown id);
         extracted_text := "";
         receipt_type := None;
         merchant := {| merchant_name := ""; merchant_address := "";
                        merchant_phone := ""; tax_id := "";
                        gst_hst_number := "" |};
         transaction := {| date := ""; time := ""; tr_total := "";
                           tr_subtotal := ""; tax := "";
                           tax_details := {| td_total_tax := "";
                                             td_tax_rates := [];
                                             td_tax_amounts := [];
                                             td_tax_types := [];
                                             td_has_hst := false |} |};
         items := [];
         totals := [];
         payment := {| payment_type := ""; payment_amount := "";
                       card_number := ""; change_due := "" |} |})
  /\ (forall id, _process_receipt_result None id = Ret (_get_empty_result id))
  /\ (forall text id,
        _process_receipt_result
          (Some {| result_content := text; documents := None |}) id
        = Ret (_get_empty_result id))
  /\ (forall text id,
        _process_receipt_result
          (Some {| result_content := text; documents := Some [] |}) id
        = Ret (_get_empty_result id))
  /\ (forall text type rest id,
        _process_receipt_result
          (Some {| result_content := text;
                   documents := Some ({| doc_type := type;
                                         fields := AttrNone |} :: rest) |}) id
        = Ret (_get_empty_result id))
  /\ (forall text type rest id,
        _process_receipt_result
          (Some {| result_content := text;
                   documents := Some ({| doc_type := type;
                                         fields := NoAttr |} :: rest) |}) id
        = Ret (basic_result id text type))
  /\ (forall text type rest id,
        _process_receipt_result
          (Some {| result_content := text;
                   documents := Some ({| doc_type := type;
                                         fields := Attr [] |} :: rest) |}) id
        = Ret (basic_result id text type)).
Proof. repeat split. Qed.

(** C3, as stated, fails: a result with text ["MILK 2.99"] whose only
    document has an empty field mapping is not turned into the all-default
    record; the text and the document type are kept. *)
Lemma no_fields_keeps_text :
  exists r,
    _process_receipt_result (one_document "MILK 2.99" (Attr [])) (Some "r1.jpg")
    = Ret r
    /\ extracted_text r = "MILK 2.99"
    /\ receipt_type r = Some "receipt.retailMeal"
    /\ r <> _get_empty_result (Some "r1.jpg").
Proof.
  eexists. split; [reflexivity|]. repeat split. discriminate.
Qed.

(** ** The assembler: faults *)

Lemma run_fields_app (h : bool) (fs1 fs2 : field_map) (s : State) :
  run_fields h (fs1 ++ fs2)%list s = run_fields h fs2 (run_fields h fs1 s).
Proof. apply fold_left_app. Qed.

Lemma run_fields_cons (h : bool) (name : string) (field : DocumentField)
    (fs : field_map) (s : State) :
  run_fields h ((name, field) :: fs) s
  = run_fields h fs (snd (process_field h name field s)).
Proof. reflexivity. Qed.

(** With a non-empty field mapping the assembler returns the record built
    from the state in which the loop over the fields ends. *)
Lemma process_with_fields (text type : option string)
    (rest : list AnalyzedDocument) (id : option string) (fs : field_map) :
  fs <> [] ->
  _process_receipt_result
    (Some {| result_content := text;
             documents := Some ({| doc_type := type; fields := Attr fs |}
                                  :: rest) |}) id
  = let pre := preprocess_tax_id fs (init_state (basic_result id text type)) in
    Ret (finalize (run_fields (snd pre) fs (fst pre))).
Proof.
  intros Hfs. unfold _process_receipt_result, process_body; cbn.
  destruct fs as [|e fs']; [congruence|].
  change (set_basic id _ _ (_get_empty_result id))
    with (basic_result id text type).
  now destruct (preprocess_tax_id _ _).
Qed.

(** ** The tax reconciler: top-level total against the breakdown *)

(** C1, on the code: with the breakdown first in the mapping and the
    top-level total after it, the total tax recorded is the top-level value
    5.00, not 13.00, the sum of the breakdown; with the two fields in the
    other order it is the sum. *)
Theorem total_tax_depends_on_field_order :
  (exists r,
     _process_receipt_result
       (one_document "txt" (Attr [("TaxDetails", breakdown_13);
                                  ("TotalTax", total_tax_5)])) (Some "r1.jpg")
     = Ret r
     /\ tax (transaction r) = "5.0"
     /\ td_total_tax (tax_details (transaction r)) = "5.0"
     /\ td_tax_amounts (tax_details (transaction r)) = [13%float])
  /\ (exists r,
        _process_receipt_result
          (one_document "txt" (Attr [("TotalTax", total_tax_5);
                                     ("TaxDetails", breakdown_13)]))
          (Some "r1.jpg")
        = Ret r
        /\ tax (transaction r) = "13.0"
        /\ td_total_tax (tax_details (transaction r)) = "13.0"
        /\ td_tax_amounts (tax_details (transaction r)) = [13%float]).
Proof.
  split; (eexists; split; [vm_compute; reflexivity|]); repeat split.
Qed.

(** ** When the breakdown does win *)












Lemma sum_amounts_snoc (l : list float) (a : float) :
  sum_amounts (l ++ [a]) = (sum_amounts l + a)%float.
Proof. unfold sum_amounts. now rewrite fold_left_app. Qed.






(** ** Strings: occurrences *)

Lemma prefix_app (p s : string) : prefix p (p ++ s) = true.
Proof.
  induction p as [|c p IH]; cbn.
  - now destruct s.
  - destruct (ascii_dec c c); [exact IH|congruence].
Qed.

Lemma prefix_split (p s : string) :
  prefix p s = true -> exists b, s = p ++ b.
Proof.
  revert s. induction p as [|c p IH]; intros s H.
  - now exists s.
  - destruct s as [|d s]; cbn in H; [discriminate|].
    destruct (ascii_dec c d) as [->|]; [|discriminate].
    destruct (IH _ H) as [b ->]. now exists b.
Qed.

Lemma contains_app (p a b : string) : contains p (a ++ p ++ b) = true.
Proof.
  induction a as [|c a IH].
  - cbn [append]. destruct (p ++ b) eqn:E; cbn [contains];
      rewrite <- E, prefix_app; reflexivity.
  - cbn [append contains]. rewrite IH. apply orb_true_r.
Qed.

Lemma contains_split (p s : string) :
  contains p s = true -> exists a b, s = a ++ p ++ b.
Proof.
  induction s as [|c s IH]; intros H.
  - cbn [contains] in H. rewrite orb_false_r in H.
    destruct (prefix_split _ _ H) as [b ->]. now exists "", b.
  - cbn [contains] in H. apply orb_true_iff in H as [H|H].
    + destruct (prefix_split _ _ H) as [b ->]. now exists "", b.
    + destruct (IH H) as (a & b & ->). now exists (String c a), b.
Qed.

Lemma upper_app (a b : string) : upper (a ++ b) = upper a ++ upper b.
Proof.
  induction a as [|c a IH]; [reflexivity|].
  cbn [append upper]. rewrite IH. now destruct (code c =? 223)%N.
Qed.

(** A character that folds onto an ASCII character has the same upper-case
    form as that character, and is not the sharp s. *)
Lemma upper_char_fold (x : ascii) :
  is_ascii (fold_case x) = true ->
  (code x =? 223)%N = false /\ upper_char x = upper_char (fold_case x).
Proof.
  destruct x as [[] [] [] [] [] [] [] []]; vm_compute; intros H;
    first [discriminate H | split; reflexivity].
Qed.

(** A character whose upper-case form is ASCII folds like that form. *)
Lemma fold_upper_char (x : ascii) :
  is_ascii (upper_char x) = true -> fold_case x = fold_case (upper_char x).
Proof.
  destruct x as [[] [] [] [] [] [] [] []]; vm_compute; intros H;
    first [discriminate H | reflexivity].
Qed.

Lemma fold_case_ascii (x : ascii) :
  is_ascii x = true -> is_ascii (fold_case x) = true.
Proof.
  destruct x as [[] [] [] [] [] [] [] []]; vm_compute; intros H;
    first [discriminate H | reflexivity].
Qed.

Lemma plain_char_upper (c : ascii) :
  plain_char c = true -> upper_char (fold_case c) = c /\ is_ascii c = true.
Proof.
  destruct c as [[] [] [] [] [] [] [] []]; vm_compute; intros H;
    first [discriminate H | split; reflexivity].
Qed.

Lemma upper_of_folded (m p : string) :
  all_chars plain_char p = true ->
  fold_string m = fold_string p -> upper m = p.
Proof.
  revert p. induction m as [|x m IH]; intros [|c p] Hp H; cbn in H;
    try discriminate; [reflexivity|].
  cbn in Hp. apply andb_true_iff in Hp as [Hc Hp].
  injection H as Hx Hm.
  destruct (plain_char_upper c Hc) as [Hup Hasc].
  destruct (upper_char_fold x) as [H223 Hu].
  { rewrite Hx. now apply fold_case_ascii. }
  cbn [upper]. rewrite H223, Hu, Hx, Hup. f_equal. now apply IH.
Qed.

Lemma prefix_cons (c d : ascii) (p s : string) :
  prefix (String c p) (String d s) = true -> c = d /\ prefix p s = true.
Proof.
  cbn. destruct (ascii_dec c d); [tauto|discriminate].
Qed.

Lemma prefix_of_upper (p d : string) :
  all_chars plain_char p = true ->
  prefix p (upper d) = true ->
  exists m b, d = m ++ b /\ fold_string m = fold_string p.
Proof.
  revert d. induction p as [|c p IH]; intros d Hp H.
  - now exists "", d.
  - cbn in Hp. apply andb_true_iff in Hp as [Hc Hp].
    destruct d as [|x d]; [discriminate H|].
    cbn [upper] in H. destruct (code x =? 223)%N eqn:E.
    + apply prefix_cons in H as [-> _]. discriminate Hc.
    + apply prefix_cons in H as [-> H].
      destruct (IH d Hp H) as (m & b & -> & Hm).
      exists (String x m), b. split; [reflexivity|].
      cbn. rewrite Hm. f_equal. apply fold_upper_char.
      now destruct (plain_char_upper _ Hc).
Qed.

Lemma first_plain_not_S (c : ascii) (p s : string) :
  plain_char c = true -> prefix (String c p) (String "S" s) = false.
Proof.
  intros Hc. cbn. destruct (ascii_dec c "S") as [->|]; [discriminate Hc|].
  reflexivity.
Qed.

(** To occur in the upper-case form of a text is to occur in the text up
    to case. *)
Lemma contains_upper_iff (p d : string) :
  all_chars plain_char p = true -> p <> "" ->
  contains p (upper d) = true <-> occurs_ci p d.
Proof.
  intros Hp Hne. split.
  - induction d as [|x d IH]; intros H.
    + cbn in H. destruct p; [congruence|discriminate].
    + assert (Hd : prefix p (upper (String x d)) = true
                   \/ contains p (upper d) = true).
      { destruct p as [|c p]; [congruence|].
        cbn in Hp. apply andb_true_iff in Hp as [Hc _].
        cbn [upper] in H |- *. destruct (code x =? 223)%N.
        - cbn [contains] in H.
          rewrite (first_plain_not_S c p _ Hc) in H. cbn [orb] in H.
          apply orb_true_iff in H as [H|H]; [|now right].
          now rewrite (first_plain_not_S c p _ Hc) in H.
        - cbn [contains] in H. apply orb_true_iff in H as [H|H];
            [now left|now right]. }
      destruct Hd as [H1|H1].
      * destruct (prefix_of_upper _ _ Hp H1) as (m & b & Hd & Hm).
        exists "", m, b. now split.
      * destruct (IH H1) as (a & m & b & -> & Hm).
        exists (String x a), m, b. now split.
  - intros (a & m & b & -> & Hm).
    rewrite !upper_app, (upper_of_folded m p Hp Hm). apply contains_app.
Qed.

(** ** The item builder: what an item that is kept looks like *)

(** Case analysis on the tests and on the calls that may raise, outermost
    first. *)
Ltac split_cases :=
  repeat lazymatch goal with
         | |- context [catch_all (bind ?m _) _] =>
             destruct m; cbn [bind catch_all]
         | |- context [if ?b then _ else _] => destruct b
         end.

Ltac bind_inv H :=
  match type of H with
  | bind ?m _ = Ret _ =>
      let E := fresh "E" in
      destruct m eqn:E; cbn [bind] in H; [|discriminate H]
  end.

Lemma same_core_refl (a : Item) : same_core a a.
Proof. repeat split. Qed.

Lemma item_savings_core (a b : Item) :
  item_savings a = Ret b -> same_core b a.
Proof.
  unfold item_savings. destruct (search_you_saved _); intros H.
  - bind_inv H. injection H as <-. destruct a0; repeat split.
  - injection H as <-. apply same_core_refl.
Qed.

Lemma build_item_inv (h : bool) (rates : list (option float))
    (item : DocumentField) (it : Item) :
  build_item h rates item = Ret it ->
  description it <> "" ->
  exists it0,
    fresh_item it0
    /\ same_core it (item_tax h rates (infer_price_total it0)).
Proof.
  unfold build_item. intros H Hd.
  destruct (hasattr (value_object item)).
  2:{ injection H as <-. now cbn in Hd. }
  repeat bind_inv H.
  eexists. split.
  2:{ apply item_savings_core in H.
      match type of H with
      | same_core _ (match ?d with _ => _ end) => destruct d
      end; exact H. }
  repeat split.
Qed.

Lemma item_tax_status_eq (h : bool) (rates : list (option float)) (it : Item) :
  tax_status (item_tax h rates it) = item_tax_status h (description it)
  /\ description (item_tax h rates it) = description it
  /\ total (item_tax h rates it) = total it.
Proof.
  unfold item_tax.
  split_cases; repeat split.
Qed.

(** The tax status of an item that is kept is computed from its description
    and from the flag. *)
Lemma built_item_status (h : bool) (rates : list (option float))
    (item : DocumentField) (it : Item) :
  build_item h rates item = Ret it -> description it <> "" ->
  tax_status it = item_tax_status h (description it).
Proof.
  intros H Hd. destruct (build_item_inv _ _ _ _ H Hd) as (it0 & _ & Hc).
  destruct Hc as (Hdesc & _ & _ & _ & Hst & _).
  rewrite Hst, Hdesc.
  destruct (item_tax_status_eq h rates (infer_price_total it0)) as (-> & -> & _).
  reflexivity.
Qed.

(** ** The tax status of an item *)

Lemma zero_marker_test (d : string) :
  contains "ZERO" (upper d) || contains "0%" (upper d) = true
  <-> zero_rate_marker d.
Proof.
  unfold zero_rate_marker. rewrite orb_true_iff.
  rewrite (contains_upper_iff "ZERO") by (reflexivity || discriminate).
  rewrite (contains_upper_iff "0%") by (reflexivity || discriminate).
  reflexivity.
Qed.

Lemma exempt_test (d : string) :
  contains "EXEMPT" (upper d) = true <-> occurs_ci "exempt" d.
Proof.
  now rewrite (contains_upper_iff "EXEMPT") by (reflexivity || discriminate).
Qed.

(** C10: an item (kept in the list) whose description contains, in any
    letter case, a zero-rate marker (["zero"] or ["0%"]) is ZERO-RATED, also
    when it contains ["exempt"] as well; without a zero-rate marker and with
    ["exempt"] it is EXEMPT; both whatever the regional-tax flag.  Without
    either it is TAXABLE when the flag is set and UNKNOWN otherwise. *)
Theorem zero_rated_before_exempt (h : bool) (rates : list (option float))
    (item : DocumentField) (it : Item) :
  build_item h rates item = Ret it ->
  description it <> "" ->
  (zero_rate_marker (description it) /\ occurs_ci "exempt" (description it) ->
   tax_status it = "ZERO-RATED")
  /\ (zero_rate_marker (description it) -> tax_status it = "ZERO-RATED")
  /\ (~ zero_rate_marker (description it) ->
      occurs_ci "exempt" (description it) -> tax_status it = "EXEMPT")
  /\ (~ zero_rate_marker (description it) ->
      ~ occurs_ci "exempt" (description it) ->
      tax_status it = if h then "TAXABLE" else "UNKNOWN").
Proof.
  intros H Hd. rewrite (built_item_status _ _ _ _ H Hd).
  unfold item_tax_status.
  pose proof (zero_marker_test (description it)) as Hz.
  pose proof (exempt_test (description it)) as He.
  destruct (contains "ZERO" _ || contains "0%" _);
    destruct (contains "EXEMPT" _); repeat split; intros;
    try reflexivity;
    solve [ exfalso; intuition congruence | tauto ].
Qed.

Lemma zero_rated_before_exempt_witness :
  exists it,
    build_item true [Some 0.13%float] exempt_zero_item = Ret it
    /\ description it = "Tax Exempt 0% Milk"
    /\ tax_status it = "ZERO-RATED".
Proof.
  eexists. split; [vm_compute; reflexivity|]. split; [reflexivity|].
  refine (proj1 (zero_rated_before_exempt true [Some 0.13%float]
                   exempt_zero_item _ _ _) _).
  - vm_compute. reflexivity.
  - discriminate.
  - split.
    + right. exists "Tax Exempt ", "0%", " Milk". split; reflexivity.
    + exists "Tax ", "Exempt", " 0% Milk". split; reflexivity.
Defined.

(** ** The rendering of a float is never empty *)

Lemma is_empty_app (a b : string) :
  is_empty (a ++ b) = is_empty a && is_empty b.
Proof. now destruct a. Qed.

Lemma digits_of_pos_nonempty (fuel : nat) (p : positive) (acc : string) :
  is_empty acc = false -> is_empty (digits_of_pos fuel p acc) = false.
Proof.
  revert p acc. induction fuel as [|fuel IH]; intros p acc H; cbn; [exact H|].
  destruct (N.pos p / 10)%N; [reflexivity|]. now apply IH.
Qed.

Lemma str_of_N_nonempty (n : N) : is_empty (str_of_N n) = false.
Proof.
  destruct n as [|p]; [reflexivity|]. unfold str_of_N.
  destruct (Pos.to_nat (Pos.size p)) eqn:E.
  - pose proof (Pos2Nat.is_pos (Pos.size p)). lia.
  - cbn. destruct (N.pos p / 10)%N; [reflexivity|].
    now apply digits_of_pos_nonempty.
Qed.

Lemma repr_digits_nonempty (m : positive) (e : Z) :
  is_empty (fst (repr_digits m e)) = false.
Proof.
  unfold repr_digits.
  repeat match goal with
         | |- context [let (_, _) := ?x in _] => destruct x
         end.
  cbn [fst]. apply str_of_N_nonempty.
Qed.

Lemma format_repr_nonempty (ds : string) (decpt : Z) :
  is_empty ds = false -> is_empty (format_repr ds decpt) = false.
Proof.
  intros H. unfold format_repr.
  destruct (_ || _).
  - destruct ds as [|c [|d ds]]; [discriminate H|reflexivity|reflexivity].
  - destruct (decpt <=? 0); [reflexivity|].
    destruct (_ <=? _); rewrite !is_empty_app; cbn;
      now rewrite ?andb_false_r.
Qed.

Lemma str_of_float_nonempty (f : float) : nonempty (str_of_float f) = true.
Proof.
  unfold nonempty, str_of_float.
  destruct (Prim2SF f) as [[]|[]| |s m e]; try reflexivity.
  pose proof (repr_digits_nonempty m e) as H.
  destruct (repr_digits m e) as [ds decpt]. cbn [fst] in H.
  rewrite is_empty_app, (format_repr_nonempty _ _ H).
  now rewrite andb_false_r.
Qed.

Lemma nonempty_true (s : string) : nonempty s = true <-> s <> "".
Proof. destruct s; cbn; split; congruence. Qed.

Lemma nonempty_false (s : string) : nonempty s = false <-> s = "".
Proof. destruct s; cbn; split; congruence. Qed.

Lemma float_of_str_nonempty (s : string) (f : float) :
  float_of_str s = Ret f -> nonempty s = true.
Proof. destruct s; [discriminate|reflexivity]. Qed.

(** ** The tax amount and the final price of an item *)

Lemma infer_fresh (it : Item) :
  fresh_item it -> fresh_item (infer_price_total it).
Proof.
  unfold infer_price_total, fresh_item.
  split_cases; cbn; tauto.
Qed.

Lemma applied_rate_primary (rates : list (option float)) (r : float) :
  applied_rate rates r <-> primary_rate rates = Some r.
Proof.
  unfold applied_rate. split.
  - intros [[-> ->]|[rest ->]]; reflexivity.
  - destruct rates as [|[x|] rest]; cbn; intros H; try discriminate;
      injection H as <-; [now left|right; now exists rest].
Qed.

Lemma item_tax_spec (h : bool) (rates : list (option float)) (it : Item) :
  fresh_item it ->
  let it' := item_tax h rates it in
  (tax_amount it' <> "" ->
   tax_status it' = "TAXABLE" /\ h = true /\ total it <> "")
  /\ (forall tf r,
        tax_status it' = "TAXABLE" -> h = true ->
        float_of_str (total it) = Ret tf -> applied_rate rates r ->
        tax_amount it' = str_of_float (round2 (tf * r))
        /\ final_price it' =
             str_of_float (round2 (tf + round2 (tf * r))))
  /\ (tax_amount it' = "" -> final_price it' = total it).
Proof.
  intros (Hs & Ha & Hf) it'.
  destruct (item_tax_status_eq h rates it) as (Hst & _ & _).
  fold it' in Hst. rewrite Hst. subst it'. unfold item_tax.
  destruct (String.eqb (item_tax_status h (description it)) "TAXABLE") eqn:Et.
  2:{ cbn [andb]. destruct (nonempty (total it)) eqn:En; cbn;
      rewrite ?Ha, ?Hf; (split; [congruence|]); (split; [|intros _]);
      try (intros tf r Hx; apply String.eqb_neq in Et; congruence).
      - reflexivity.
      - now apply nonempty_false in En. }
  apply String.eqb_eq in Et. cbn [andb].
  destruct h.
  2:{ cbn [andb]. destruct (nonempty (total it)) eqn:En; cbn;
      rewrite ?Ha, ?Hf; (split; [congruence|]); (split; [|intros _]);
      try (intros tf r _ Hx; discriminate Hx).
      - reflexivity.
      - now apply nonempty_false in En. }
  cbn [andb]. destruct (nonempty (total it)) eqn:En.
  2:{ cbn. rewrite ?Ha, ?Hf. split; [congruence|]. split.
      - intros tf r _ _ Hx _. apply float_of_str_nonempty in Hx. congruence.
      - intros _. now apply nonempty_false in En. }
  apply nonempty_true in En.
  destruct (float_of_str (total it)) as [tf0|e] eqn:Ef; cbn [bind catch_all].
  2:{ cbn. split; [congruence|]. split; [intros tf r _ _ Hx; discriminate Hx|].
      reflexivity. }
  destruct (primary_rate rates) as [r0|] eqn:Er; cbn [times_rate bind catch_all].
  - cbn. split; [tauto|]. split.
    + intros tf r _ _ Hx Hr. injection Hx as <-.
      apply applied_rate_primary in Hr. rewrite Hr in Er. injection Er as <-.
      split; reflexivity.
    + intros Hx. pose proof (str_of_float_nonempty (round2 (tf0 * r0))) as Hn.
      rewrite Hx in Hn. discriminate Hn.
  - cbn. split; [congruence|]. split; [|reflexivity].
    intros tf r _ _ _ Hr. apply applied_rate_primary in Hr. congruence.
Qed.

(** C5, as the code has it.  For an item kept in the list, with the flag
    and the recorded rates as they stand when the item is built: a tax
    amount is only computed for a TAXABLE item under a set flag with a known
    line total; for such an item, with its line total read as the number
    [tf], when the first recorded rate is a rate, or no rate is recorded and
    0.13 applies, the amount is [tf] times that rate rounded to 2 decimals,
    and the final price is [tf] plus the amount, rounded to 2 decimals again;
    when no amount is computed the final price is the line total as it is
    (absent when absent). *)
Theorem item_tax_amount_and_final_price (h : bool)
    (rates : list (option float)) (item : DocumentField) (it : Item) :
  build_item h rates item = Ret it ->
  description it <> "" ->
  (tax_amount it <> "" ->
   tax_status it = "TAXABLE" /\ h = true /\ total it <> "")
  /\ (forall tf r,
        tax_status it = "TAXABLE" -> h = true ->
        float_of_str (total it) = Ret tf -> applied_rate rates r ->
        tax_amount it = str_of_float (round2 (tf * r))
        /\ final_price it = str_of_float (round2 (tf + round2 (tf * r))))
  /\ (tax_amount it = "" -> final_price it = total it).
Proof.
  intros H Hd.
  destruct (build_item_inv _ _ _ _ H Hd) as (it0 & Hfresh & Hc).
  apply infer_fresh in Hfresh.
  destruct Hc as (_ & _ & _ & Ht & Hs & Ha & Hf).
  destruct (item_tax_status_eq h rates (infer_price_total it0))
    as (_ & _ & Ht').
  rewrite Ht' in Ht.
  pose proof (item_tax_spec h rates _ Hfresh) as Hspec. cbv zeta in Hspec.
  rewrite <- Hs, <- Ha, <- Hf, <- Ht in Hspec. exact Hspec.
Qed.

Lemma item_tax_witness :
  exists it,
    build_item true [] bread_3 = Ret it
    /\ tax_amount it = str_of_float (round2 (3 * 0.13))
    /\ final_price it = str_of_float (round2 (3 + round2 (3 * 0.13)))
    /\ tax_amount it = "0.39" /\ final_price it = "3.39".
Proof.
  eexists. split; [vm_compute; reflexivity|].
  split; [|split]; [| |split; reflexivity].
  - refine (proj1 (proj1 (proj2 (item_tax_amount_and_final_price
              true [] bread_3 _ _ _)) 3%float 0.13%float _ _ _ _));
      try reflexivity; try discriminate.
    left. split; reflexivity.
  - refine (proj2 (proj1 (proj2 (item_tax_amount_and_final_price
              true [] bread_3 _ _ _)) 3%float 0.13%float _ _ _ _));
      try reflexivity; try discriminate.
    left. split; reflexivity.
Defined.

(** C5, as stated, fails: for a line total of 1.005 under the rate 0.13 the
    tax amount is 0.13 and the final price is 1.13, which is not the line
    total plus the tax amount. *)
Lemma final_price_is_rounded :
  exists it,
    build_item true [Some 0.13%float] gas_1005 = Ret it
    /\ tax_status it = "TAXABLE"
    /\ float_of_str (total it) = Ret 1.005%float
    /\ float_of_str (tax_amount it) = Ret 0.13%float
    /\ final_price it = "1.13"
    /\ str_of_float (1.005 + 0.13) = "1.1349999999999998".
Proof.
  eexists. split; [vm_compute; reflexivity|]. repeat split.
Qed.

(** ** The inference of a missing unit price or line total *)

Lemma infer_only_total (it : Item) (q t : float) :
  price it = "" -> float_of_str (quantity it) = Ret q ->
  float_of_str (total it) = Ret t ->
  infer_price_total it =
    if (0 <? q)%float then set_price (str_of_float (round2 (t / q))) it else it.
Proof.
  intros Hp Hq Ht. unfold infer_price_total.
  rewrite (float_of_str_nonempty _ _ Ht), (float_of_str_nonempty _ _ Hq).
  rewrite Hp, Hq, Ht. reflexivity.
Qed.

Lemma infer_only_price (it : Item) (q p : float) :
  total it = "" -> float_of_str (quantity it) = Ret q ->
  float_of_str (price it) = Ret p ->
  infer_price_total it = set_total (str_of_float (round2 (p * q))) it.
Proof.
  intros Ht Hq Hp. unfold infer_price_total.
  rewrite (float_of_str_nonempty _ _ Hp), (float_of_str_nonempty _ _ Hq).
  rewrite Ht, Hq, Hp. reflexivity.
Qed.

Lemma infer_nothing (it : Item) :
  (price it = "" /\ total it = "") \/ (price it <> "" /\ total it <> "") ->
  infer_price_total it = it.
Proof.
  unfold infer_price_total.
  intros [[-> ->]|[Hp Ht]]; [reflexivity|].
  apply nonempty_true in Hp, Ht. now rewrite Hp, Ht.
Qed.

(** C6, as the code has it.  In the inference step of the item builder,
    with the quantity read as the number [q]: when only the line total [t]
    is there, the unit price becomes [t / q] rounded to 2 decimals if [q] is
    positive and stays absent otherwise; when only the unit price [p] is
    there, the line total becomes [p * q] rounded to 2 decimals, whatever
    [q]; when both or neither are there nothing changes.  Quantity "2" with
    line total 10.00 gives the unit price 5.0, and unit price 3.00 with
    quantity "4" gives the line total 12.0; with quantity "0" a lone line
    total leaves the unit price absent, and no call raises. *)
Theorem price_total_inference :
  (forall it q,
     float_of_str (quantity it) = Ret q ->
     (forall t, price it = "" -> float_of_str (total it) = Ret t ->
                total (infer_price_total it) = total it
                /\ ((0 <? q)%float = true ->
                    price (infer_price_total it)
                    = str_of_float (round2 (t / q)))
                /\ ((0 <? q)%float = false ->
                    price (infer_price_total it) = ""))
     /\ (forall p, total it = "" -> float_of_str (price it) = Ret p ->
                   price (infer_price_total it) = price it
                   /\ total (infer_price_total it)
                      = str_of_float (round2 (p * q))))
  /\ (forall it,
        (price it = "" /\ total it = "") \/ (price it <> "" /\ total it <> "")
        -> infer_price_total it = it)
  /\ (exists it, build_item false [] two_for_ten = Ret it
                 /\ price it = "5.0" /\ total it = "10.0")
  /\ (exists it, build_item false [] four_at_three = Ret it
                 /\ price it = "3.0" /\ total it = "12.0")
  /\ (exists it, build_item false [] none_for_three = Ret it
                 /\ price it = "" /\ total it = "3.0").
Proof.
  split; [|split; [exact infer_nothing|]].
  - intros it q Hq. split.
    + intros t Hp Ht. rewrite (infer_only_total it q t Hp Hq Ht).
      destruct (0 <? q)%float; cbn; repeat split; congruence.
    + intros p Ht Hp. rewrite (infer_only_price it q p Ht Hq Hp).
      split; reflexivity.
  - repeat split; eexists; (split; [vm_compute; reflexivity|]); split;
      reflexivity.
Qed.

Lemma price_total_inference_witness :
  price (infer_price_total
           {| description := "Tea"; quantity := "2"; price := "";
              total := "10.0"; tax_status := "UNKNOWN"; tax_amount := "";
              final_price := ""; discount := ""; savings := "" |})
  = str_of_float (round2 (10 / 2))
  /\ str_of_float (round2 (10 / 2)) = "5.0".
Proof.
  split; [|reflexivity].
  refine (proj1 (proj2 (proj1 (proj1 price_total_inference _ 2%float _)
                          10%float _ _)) _); reflexivity.
Defined.

(** C6, as stated, fails: with quantity "0" and only the unit price 3.00
    there, the line total does not stay absent; it becomes 0.0. *)
Lemma zero_quantity_total_not_absent :
  exists it,
    build_item false [] none_at_three = Ret it
    /\ quantity it = "0" /\ price it = "3.0" /\ total it = "0.0".
Proof.
  eexists. split; [vm_compute; reflexivity|]. repeat split.
Qed.

(** ** Reading numerals *)

Lemma all_chars_app (p : ascii -> bool) (a b : string) :
  all_chars p (a ++ b) = all_chars p a && all_chars p b.
Proof.
  induction a as [|c a IH]; [reflexivity|].
  cbn. now rewrite IH, andb_assoc.
Qed.

Lemma all_chars_impl (p q : ascii -> bool) (s : string) :
  (forall c, p c = true -> q c = true) ->
  all_chars p s = true -> all_chars q s = true.
Proof.
  intros Hpq. induction s as [|c s IH]; [reflexivity|].
  cbn. intros H. apply andb_true_iff in H as [Hc Hs].
  now rewrite (Hpq _ Hc), IH.
Qed.

Lemma filter_chars_app (keep : ascii -> bool) (a b : string) :
  filter_chars keep (a ++ b) = filter_chars keep a ++ filter_chars keep b.
Proof.
  induction a as [|c a IH]; [reflexivity|].
  cbn. rewrite IH. now destruct (keep c).
Qed.

Lemma filter_chars_all (keep : ascii -> bool) (s : string) :
  all_chars keep s = true -> filter_chars keep s = s.
Proof.
  induction s as [|c s IH]; [reflexivity|].
  cbn. intros H. apply andb_true_iff in H as [-> Hs]. now rewrite IH.
Qed.

Lemma filter_chars_none (keep : ascii -> bool) (s : string) :
  all_chars (fun c => negb (keep c)) s = true -> filter_chars keep s = "".
Proof.
  induction s as [|c s IH]; [reflexivity|].
  cbn. intros H. apply andb_true_iff in H as [Hc Hs].
  apply negb_true_iff in Hc. now rewrite Hc, IH.
Qed.

Lemma append_empty_r (s : string) : s ++ "" = s.
Proof. induction s as [|c s IH]; [reflexivity|]. cbn. now rewrite IH. Qed.

Lemma append_assoc (a b c : string) : (a ++ b) ++ c = a ++ b ++ c.
Proof. induction a as [|x a IH]; [reflexivity|]. cbn. now rewrite IH. Qed.

Lemma rev_string_twice (s a b : string) :
  rev_string a (rev_string b s) = rev_string (s ++ a) b.
Proof.
  revert a b. induction s as [|c s IH]; intros a b; [reflexivity|].
  cbn. now rewrite IH.
Qed.

Lemma all_chars_rev (p : ascii -> bool) (s acc : string) :
  all_chars p (rev_string acc s) = all_chars p s && all_chars p acc.
Proof.
  revert acc. induction s as [|c s IH]; intros acc; [reflexivity|].
  cbn. rewrite IH. cbn. destruct (p c), (all_chars p s); reflexivity.
Qed.

Lemma drop_while_none (p : ascii -> bool) (s : string) :
  all_chars (fun c => negb (p c)) s = true -> drop_while p s = s.
Proof.
  destruct s as [|c s]; [reflexivity|]. cbn. intros H.
  apply andb_true_iff in H as [Hc _]. apply negb_true_iff in Hc.
  now rewrite Hc.
Qed.

(** Nothing is stripped from a text without white space. *)
Lemma strip_nothing (s : string) :
  all_chars (fun c => negb (is_float_space c)) s = true ->
  strip_float_space s = s.
Proof.
  intros H. unfold strip_float_space.
  rewrite (drop_while_none _ s H).
  rewrite drop_while_none by (now rewrite all_chars_rev, H).
  rewrite rev_string_twice. cbn. apply append_empty_r.
Qed.

Lemma underscores_ok_none (b : bool) (s : string) :
  all_chars (fun c => negb (is_underscore c)) s = true ->
  underscores_ok b s = true.
Proof.
  revert b. induction s as [|c s IH]; intros b; [reflexivity|].
  cbn. intros H. apply andb_true_iff in H as [Hc Hs].
  apply negb_true_iff in Hc. rewrite Hc. now apply IH.
Qed.

Lemma read_digits_stop (s : string) (a : N) (n : nat) :
  starts_with_digit s = false -> read_digits s a n = (a, n, s).
Proof. destruct s as [|c s]; cbn; [reflexivity|]. now intros ->. Qed.

Lemma read_digits_all (s r : string) (a : N) (n : nat) :
  all_chars is_ascii_digit s = true -> starts_with_digit r = false ->
  read_digits (s ++ r) a n = (digits_value a s, (n + String.length s)%nat, r).
Proof.
  revert a n. induction s as [|c s IH]; intros a n Hs Hr.
  - cbn. rewrite Nat.add_0_r. now apply read_digits_stop.
  - cbn in Hs |- *. apply andb_true_iff in Hs as [Hc Hs]. rewrite Hc.
    rewrite IH by assumption. now rewrite Nat.add_succ_r.
Qed.

Lemma numeral_char_facts (c : ascii) :
  numeral_char c = true ->
  is_float_space c = false /\ is_underscore c = false
  /\ currency_noise c = false /\ lower_char c = c.
Proof.
  destruct c as [[] [] [] [] [] [] [] []]; vm_compute; intros H;
    first [discriminate H | repeat split].
Qed.

Lemma digit_is_numeral (c : ascii) :
  is_ascii_digit c = true -> numeral_char c = true.
Proof. unfold numeral_char. now intros ->. Qed.

Lemma digit_facts (c : ascii) :
  is_ascii_digit c = true ->
  Ascii.eqb c "-" = false /\ Ascii.eqb c "+" = false
  /\ Ascii.eqb c "." = false /\ Ascii.eqb c "i" = false
  /\ Ascii.eqb c "n" = false /\ isdigit c = true
  /\ Ascii.eqb c "," = false.
Proof.
  destruct c as [[] [] [] [] [] [] [] []]; vm_compute; intros H;
    first [discriminate H | repeat split].
Qed.

Lemma lower_numeral (s : string) :
  all_chars numeral_char s = true -> lower s = s.
Proof.
  induction s as [|c s IH]; [reflexivity|].
  cbn. intros H. apply andb_true_iff in H as [Hc Hs].
  destruct (numeral_char_facts c Hc) as (_ & _ & _ & ->). now rewrite IH.
Qed.

Lemma digits_value_app (a : N) (s t : string) :
  digits_value a (s ++ t) = digits_value (digits_value a s) t.
Proof.
  revert a. induction s as [|c s IH]; intros a; [reflexivity|].
  cbn. apply IH.
Qed.

Lemma read_number_plain (neg : bool) (i f : string) :
  all_chars is_ascii_digit i = true -> i <> "" ->
  all_chars is_ascii_digit f = true ->
  read_number neg (i ++ with_point f)
  = Some (float_of_decimal neg (digits_value 0 (i ++ f))
            (- Z.of_nat (String.length f))).
Proof.
  intros Hi Hne Hf. unfold read_number, with_point.
  assert (Hlen : exists k, String.length i = S k).
  { destruct i; [congruence|]. now eexists. }
  destruct Hlen as [k Hk].
  destruct f as [|c f].
  - rewrite read_digits_all by (assumption || reflexivity).
    cbn [Nat.add]. rewrite Hk. cbn.
    now rewrite !append_empty_r.
  - rewrite read_digits_all by (assumption || reflexivity).
    cbn [append]. cbn iota.
    replace (String c f) with (String c f ++ "") by apply append_empty_r.
    rewrite read_digits_all by (assumption || reflexivity).
    rewrite append_empty_r.
    cbn [Nat.add]. rewrite Hk. cbn [Nat.add read_exponent].
    rewrite digits_value_app. reflexivity.
Qed.

Lemma plain_numeral_chars (d : Numeral) :
  well_formed d -> all_chars numeral_char (plain d) = true.
Proof.
  intros (Hi & _ & Hf). unfold plain, sign_text, fraction_text, with_point.
  rewrite !all_chars_app.
  rewrite (all_chars_impl _ _ _ digit_is_numeral Hi).
  assert (Hf' := all_chars_impl _ _ _ digit_is_numeral Hf).
  destruct (negative d); destruct (frac_part d); cbn in Hf' |- *;
    now rewrite ?Hf'.
Qed.

Lemma not_a_word (c : ascii) (s : string) :
  is_ascii_digit c = true ->
  String.eqb (String c s) "inf" || String.eqb (String c s) "infinity" = false
  /\ String.eqb (String c s) "nan" = false.
Proof.
  intros Hc. destruct (digit_facts c Hc) as (_ & _ & _ & Hi & Hn & _).
  cbn. now rewrite Hi, Hn.
Qed.

(** [float] reads a well-formed numeral in plain notation as the number it
    denotes. *)
Lemma float_of_str_plain (d : Numeral) :
  well_formed d -> float_of_str (plain d) = Ret (float_of_numeral d).
Proof.
  intros Hw. pose proof (plain_numeral_chars d Hw) as Hc.
  destruct Hw as (Hi & Hne & Hf).
  unfold float_of_str.
  rewrite strip_nothing
    by (eapply all_chars_impl; [|exact Hc]; intros c H;
        now destruct (numeral_char_facts c H) as (-> & _)).
  rewrite underscores_ok_none
    by (eapply all_chars_impl; [|exact Hc]; intros c H;
        now destruct (numeral_char_facts c H) as (_ & -> & _)).
  rewrite filter_chars_all
    by (eapply all_chars_impl; [|exact Hc]; intros c H;
        now destruct (numeral_char_facts c H) as (_ & -> & _)).
  assert (Hs : read_sign (plain d)
               = (negative d, int_part d ++ fraction_text d)).
  { unfold plain, sign_text. destruct (negative d); [reflexivity|].
    cbn [append]. destruct (int_part d) as [|c i]; [congruence|].
    cbn in Hi. apply andb_true_iff in Hi as [Hc0 _].
    destruct (digit_facts c Hc0) as (Hm & Hp & _).
    cbn [append]. unfold read_sign.
    destruct c as [[] [] [] [] [] [] [] []]; try reflexivity;
      discriminate. }
  rewrite Hs.
  assert (Hl : lower (int_part d ++ fraction_text d)
               = int_part d ++ fraction_text d).
  { apply lower_numeral. unfold plain in Hc.
    rewrite all_chars_app in Hc. now apply andb_true_iff in Hc as [_ Hc]. }
  rewrite Hl.
  destruct (int_part d) as [|c i] eqn:Ei; [congruence|].
  cbn [append].
  assert (Hc0 : is_ascii_digit c = true).
  { cbn in Hi. now apply andb_true_iff in Hi as [Hc0 _]. }
  destruct (not_a_word c (i ++ fraction_text d) Hc0) as [-> ->].
  change (String c (i ++ fraction_text d))
    with (String c i ++ fraction_text d).
  unfold fraction_text. rewrite read_number_plain by congruence.
  unfold float_of_numeral. now rewrite Ei.
Qed.

(** ** The currency normalizer on formatted amounts *)

Lemma clean_currency_text (s : string) :
  _clean_currency (Some (PStr s)) =
    catch_value_type
      (let clean_value := filter_chars kept s in
       if is_empty clean_value then Ret None
       else if (1 <? count_char "-" clean_value)%nat then Ret None
       else if contains "-" clean_value && negb (prefix "-" clean_value)
       then Ret None
       else f <- float_of_str clean_value ;; Ret (Some f))
      None.
Proof. destruct s; reflexivity. Qed.

Lemma kept_numeral (s : string) :
  all_chars numeral_char s = true -> filter_chars kept s = s.
Proof.
  intros H. apply filter_chars_all. eapply all_chars_impl; [|exact H].
  intros c Hc. unfold kept.
  now destruct (numeral_char_facts c Hc) as (_ & _ & -> & _).
Qed.

Lemma dropped_noise (s : string) :
  all_chars currency_noise s = true -> filter_chars kept s = "".
Proof.
  intros H. apply filter_chars_none. eapply all_chars_impl; [|exact H].
  intros c Hc. unfold kept. now rewrite Hc.
Qed.

Lemma kept_group3 (s : string) :
  all_chars is_ascii_digit s = true -> filter_chars kept (group3 s) = s.
Proof.
  induction s as [|c s IH]; [reflexivity|].
  cbn [all_chars group3 filter_chars]. intros H.
  apply andb_true_iff in H as [Hc Hs].
  assert (Hk : kept c = true).
  { unfold kept.
    now destruct (numeral_char_facts c (digit_is_numeral c Hc))
      as (_ & _ & -> & _). }
  rewrite Hk. f_equal.
  destruct (_ && _); [|now apply IH].
  cbn. now apply IH.
Qed.

Lemma prefix_char (a c : ascii) (s : string) :
  prefix (String a "") (String c s) = Ascii.eqb a c.
Proof.
  cbn [prefix]. destruct (ascii_dec a c) as [->|n].
  - rewrite Ascii.eqb_refl. now destruct s.
  - symmetry. now apply Ascii.eqb_neq.
Qed.

Lemma count_char_cons (c d : ascii) (s : string) :
  count_char c (String d s)
  = ((if Ascii.eqb c d then 1 else 0) + count_char c s)%nat.
Proof. reflexivity. Qed.

Lemma count_minus_digits (s : string) :
  all_chars (fun c => is_ascii_digit c || Ascii.eqb c ".") s = true ->
  count_char "-" s = 0%nat /\ contains "-" s = false.
Proof.
  induction s as [|c s IH]; [now split|].
  cbn [all_chars]. intros H. apply andb_true_iff in H as [Hc Hs].
  destruct (IH Hs) as [IH1 IH2].
  assert (Hm : Ascii.eqb "-" c = false).
  { destruct c as [[] [] [] [] [] [] [] []]; try reflexivity;
      discriminate Hc. }
  split.
  - now rewrite count_char_cons, Hm, IH1.
  - cbn [contains]. now rewrite IH2, orb_false_r, prefix_char.
Qed.

(** The plain numeral passes the normalizer's tests on the sign. *)
Lemma plain_sign_tests (d : Numeral) :
  well_formed d ->
  is_empty (plain d) = false
  /\ (1 <? count_char "-" (plain d))%nat = false
  /\ contains "-" (plain d) && negb (prefix "-" (plain d)) = false.
Proof.
  intros (Hi & Hne & Hf).
  assert (Hrest : all_chars (fun c => is_ascii_digit c || Ascii.eqb c ".")
                    (int_part d ++ fraction_text d) = true).
  { assert (Hd : forall c, is_ascii_digit c = true ->
                           is_ascii_digit c || Ascii.eqb c "." = true)
      by (now intros c ->).
    rewrite all_chars_app. unfold fraction_text, with_point.
    rewrite (all_chars_impl _ _ _ Hd Hi).
    pose proof (all_chars_impl _ _ _ Hd Hf) as Hf'.
    destruct (frac_part d); [reflexivity|]. cbn in Hf' |- *. exact Hf'. }
  destruct (count_minus_digits _ Hrest) as [Hcount Hcont].
  unfold plain, sign_text. destruct (negative d).
  - cbn [append]. rewrite count_char_cons, Hcount. repeat split.
    rewrite prefix_char. cbn. apply andb_false_r.
  - cbn [append]. rewrite Hcount, Hcont. repeat split.
    destruct (int_part d); [congruence|reflexivity].
Qed.

Lemma marks_are_noise (s : string) :
  all_chars dollar_or_letter s = true -> all_chars currency_noise s = true.
Proof.
  apply all_chars_impl. intros c H. unfold dollar_or_letter in H.
  unfold currency_noise. apply orb_true_iff in H as [->| ->];
    [reflexivity|apply orb_true_r].
Qed.

Lemma spaces_are_noise (s : string) :
  all_chars is_space s = true -> all_chars currency_noise s = true.
Proof.
  apply all_chars_impl. intros c H. unfold currency_noise. rewrite H.
  now rewrite orb_true_r.
Qed.

(** What the normalizer keeps of a formatted amount is the plain numeral. *)
Lemma kept_of_formatted (ws1 mark1 mark2 ws2 : string) (d : Numeral) :
  well_formed d ->
  all_chars currency_noise ws1 = true -> all_chars currency_noise mark1 = true ->
  all_chars currency_noise mark2 = true -> all_chars currency_noise ws2 = true ->
  filter_chars kept (format_currency ws1 mark1 mark2 ws2 d) = plain d.
Proof.
  intros (Hi & Hne & Hf) H1 H2 H3 H4. unfold format_currency, plain.
  rewrite !filter_chars_app.
  rewrite (dropped_noise ws1), (dropped_noise mark1), (dropped_noise mark2),
    (dropped_noise ws2) by assumption.
  rewrite (kept_group3 _ Hi). cbn [append].
  rewrite append_empty_r.
  rewrite (kept_numeral (sign_text d))
    by (unfold sign_text; now destruct (negative d)).
  rewrite (kept_numeral (fraction_text d)); [reflexivity|].
  unfold fraction_text, with_point.
  pose proof (all_chars_impl _ _ _ digit_is_numeral Hf) as Hf'.
  destruct (frac_part d); [reflexivity|exact Hf'].
Qed.

(** C9, for the dollar sign.  A decimal numeral written with commas between
    the groups of three digits, with white space around it and with currency
    marks made of dollar signs and ASCII letters before or after its sign, is
    normalized to the binary64 number that the plain numeral denotes
    ([float] of the plain numeral). *)
Theorem clean_currency_round_trip (ws1 mark1 mark2 ws2 : string)
    (d : Numeral) :
  well_formed d ->
  all_chars is_space ws1 = true -> all_chars is_space ws2 = true ->
  all_chars dollar_or_letter mark1 = true ->
  all_chars dollar_or_letter mark2 = true ->
  _clean_currency (Some (PStr (format_currency ws1 mark1 mark2 ws2 d)))
  = Ret (Some (float_of_numeral d))
  /\ float_of_str (plain d) = Ret (float_of_numeral d).
Proof.
  intros Hw H1 H2 H3 H4.
  pose proof (float_of_str_plain d Hw) as Hp. split; [|exact Hp].
  rewrite clean_currency_text. cbv zeta.
  rewrite kept_of_formatted
    by auto using marks_are_noise, spaces_are_noise.
  destruct (plain_sign_tests d Hw) as (-> & -> & ->).
  now rewrite Hp.
Qed.

Lemma clean_currency_round_trip_witness :
  format_currency "  " "$" "" " " amount_12345_67 = "  $12,345.67 "
  /\ _clean_currency (Some (PStr "  $12,345.67 ")) = Ret (Some 12345.67%float)
  /\ float_of_str "12345.67" = Ret 12345.67%float.
Proof.
  split; [reflexivity|].
  refine (clean_currency_round_trip "  " "$" "" " " amount_12345_67 _ _ _ _ _);
    try reflexivity.
  repeat split. discriminate.
Defined.

(** C9, as stated, fails for a currency symbol other than the dollar sign:
    the amount 5.00 written with a pound sign is normalized to no value. *)
Lemma pound_not_stripped :
  _clean_currency (Some (PStr (format_currency " " pound "" " " amount_5_00)))
  = Ret None
  /\ float_of_str (plain amount_5_00) = Ret 5%float
  /\ _clean_currency (Some (PStr (format_currency " " "$" "" " " amount_5_00)))
     = Ret (Some 5%float).
Proof. repeat split. Qed.

(** ** Whole numbers as floats

    The binary64 number nearest to a whole number that is a binary64 number
    is that number. *)

Lemma iter_pos_nat {A : Type} (f : A -> A) (p : positive) (x : A) :
  iter_pos f p x = Nat.iter (Pos.to_nat p) f x.
Proof.
  revert x. induction p as [p IH|p IH|]; intros x; cbn [iter_pos].
  - rewrite !IH, Pos2Nat.inj_xI.
    replace (S (2 * Pos.to_nat p)) with (Pos.to_nat p + (Pos.to_nat p + 1))%nat
      by lia.
    now rewrite !Nat.iter_add.
  - rewrite !IH, Pos2Nat.inj_xO.
    replace (2 * Pos.to_nat p)%nat with (Pos.to_nat p + Pos.to_nat p)%nat
      by lia.
    now rewrite Nat.iter_add.
  - reflexivity.
Qed.

Lemma pos_iter_nat {A : Type} (f : A -> A) (p : positive) (x : A) :
  Pos.iter f x p = Nat.iter (Pos.to_nat p) f x.
Proof. apply Pos2Nat.inj_iter. Qed.

Lemma shr_exact (n : nat) (m : positive) :
  Nat.iter n shr_1 (exact_record (Nat.iter n xO m)) = exact_record m.
Proof.
  induction n as [|n IH]; [reflexivity|].
  rewrite Nat.iter_succ_r.
  change (Nat.iter (S n) xO m) with (xO (Nat.iter n xO m)). exact IH.
Qed.

Lemma digits2_shift (n : nat) (m : positive) :
  Zpos (digits2_pos (Nat.iter n xO m)) = Zpos (digits2_pos m) + Z.of_nat n.
Proof.
  induction n as [|n IH]; [cbn; lia|].
  change (Nat.iter (S n) xO m) with (xO (Nat.iter n xO m)).
  cbn [digits2_pos]. rewrite Pos2Z.inj_succ, IH. lia.
Qed.

Lemma Zpos_shift (n : nat) (m : positive) :
  Zpos (Nat.iter n xO m) = Zpos m * 2 ^ Z.of_nat n.
Proof.
  induction n as [|n IH]; [cbn; lia|].
  change (Nat.iter (S n) xO m) with (xO (Nat.iter n xO m)).
  rewrite Pos2Z.inj_xO, IH, Nat2Z.inj_succ, Z.pow_succ_r by lia.
  ring.
Qed.

Lemma shr_fexp_canonical (m : positive) (e : Z) :
  canonical_mantissa prec emax m e = true ->
  shr_fexp prec emax (Zpos m) e loc_Exact = (exact_record m, e).
Proof.
  unfold canonical_mantissa. intros H. apply Z.eqb_eq in H.
  unfold shr_fexp. cbn [Zdigits2]. rewrite H, Z.sub_diag. reflexivity.
Qed.

Lemma round_aux_bounded (m : positive) (e : Z) :
  bounded prec emax m e = true ->
  binary_round_aux prec emax false (Zpos m) e loc_Exact = S754_finite false m e.
Proof.
  unfold bounded. intros H. apply andb_true_iff in H as [Hc He].
  unfold binary_round_aux. rewrite (shr_fexp_canonical m e Hc).
  cbn [shr_m exact_record loc_of_shr_record round_nearest_even].
  rewrite (shr_fexp_canonical m e Hc). cbn [shr_m exact_record]. now rewrite He.
Qed.

Lemma normalize_exact_integer (m p : positive) (e : Z) :
  bounded prec emax m e = true ->
  (e < 0 -> Zpos m = Zpos p * 2 ^ (- e)) ->
  (0 <= e -> Zpos p = Zpos m * 2 ^ e) ->
  binary_normalize prec emax (Zpos p) 0 false = S754_finite false m e.
Proof.
  intros Hb Hneg Hpos. pose proof Hb as Hb'.
  unfold bounded in Hb'. apply andb_true_iff in Hb' as [Hc _].
  unfold canonical_mantissa in Hc. apply Z.eqb_eq in Hc.
  unfold binary_normalize, binary_round.
  destruct e as [|k|k].
  - assert (p = m) by (specialize (Hpos ltac:(lia)); cbn in Hpos; lia).
    subst p. rewrite Hc. cbn [shl_align Z.sub Z.add Z.opp].
    now apply round_aux_bounded.
  - specialize (Hpos ltac:(lia)).
    assert (Hp : p = Nat.iter (Pos.to_nat k) xO m).
    { apply Pos2Z.inj. rewrite Zpos_shift, positive_nat_Z. exact Hpos. }
    assert (Hd : fexp prec emax (Zpos (digits2_pos p) + 0) = Zpos k).
    { rewrite Hp, digits2_shift, positive_nat_Z, Z.add_0_r. exact Hc. }
    rewrite Hd. cbn [shl_align Z.sub Z.add Z.opp].
    unfold binary_round_aux, shr_fexp at 1. cbn [Zdigits2].
    rewrite Hd. cbn [Z.sub Z.add Z.opp shr shr_record_of_loc].
    rewrite iter_pos_nat. fold (exact_record p). rewrite Hp, shr_exact.
    cbn [shr_m exact_record loc_of_shr_record round_nearest_even].
    rewrite shr_fexp_canonical by (unfold canonical_mantissa; now apply Z.eqb_eq).
    cbn [shr_m exact_record].
    unfold bounded in Hb. apply andb_true_iff in Hb as [_ ->]. reflexivity.
  - specialize (Hneg ltac:(lia)). cbn [Z.opp] in Hneg.
    assert (Hm : m = Nat.iter (Pos.to_nat k) xO p).
    { apply Pos2Z.inj. rewrite Zpos_shift, positive_nat_Z. exact Hneg. }
    assert (Hd : fexp prec emax (Zpos (digits2_pos p) + 0) = Zneg k).
    { transitivity (fexp prec emax (Zpos (digits2_pos m) + Zneg k));
        [|exact Hc].
      f_equal. rewrite Hm, digits2_shift, positive_nat_Z. lia. }
    rewrite Hd. cbn [shl_align Z.sub Z.add Z.opp].
    rewrite pos_iter_nat, <- Hm. now apply round_aux_bounded.
Qed.

(** ** Printing and reading whole numbers *)

Lemma digit_char_value (n : N) :
  (n < 10)%N ->
  is_ascii_digit (digit_char n) = true /\ digit_value (digit_char n) = n.
Proof.
  intros H. destruct n as [|p]; [split; reflexivity|].
  do 4 (try destruct p as [p|p|]); try (split; reflexivity); exfalso; lia.
Qed.

Lemma digits_of_pos_acc (fuel : nat) (p : positive) (acc : string) :
  digits_of_pos fuel p acc = digits_of_pos fuel p "" ++ acc.
Proof.
  revert p acc. induction fuel as [|fuel IH]; intros p acc; [reflexivity|].
  cbn [digits_of_pos]. destruct (N.pos p / 10)%N as [|q]; [reflexivity|].
  rewrite IH, (IH q (String _ "")), append_assoc. reflexivity.
Qed.

Lemma digits_of_pos_digits (fuel : nat) (p : positive) (acc : string) :
  all_chars is_ascii_digit acc = true ->
  all_chars is_ascii_digit (digits_of_pos fuel p acc) = true.
Proof.
  revert p acc. induction fuel as [|fuel IH]; intros p acc H; [exact H|].
  cbn [digits_of_pos].
  assert (Hd : all_chars is_ascii_digit
                 (String (digit_char (N.pos p mod 10)) acc) = true).
  { cbn [all_chars]. rewrite H, andb_true_r.
    apply digit_char_value. apply N.mod_lt. discriminate. }
  destruct (N.pos p / 10)%N; [exact Hd|]. now apply IH.
Qed.

Lemma digits_of_pos_value (fuel : nat) (p : positive) :
  (N.pos p < 2 ^ N.of_nat fuel)%N ->
  digits_value 0 (digits_of_pos fuel p "") = N.pos p.
Proof.
  revert p. induction fuel as [|fuel IH]; intros p H.
  - cbn in H. lia.
  - cbn [digits_of_pos].
    pose proof (N.div_mod (N.pos p) 10 ltac:(discriminate)) as Hdm.
    pose proof (N.mod_lt (N.pos p) 10 ltac:(discriminate)) as Hlt.
    destruct (digit_char_value _ Hlt) as [_ Hv].
    destruct (N.pos p / 10)%N as [|q] eqn:Eq.
    + cbn [digits_value]. rewrite Hv. lia.
    + rewrite digits_of_pos_acc, digits_value_app, IH.
      * cbn [digits_value]. rewrite Hv. lia.
      * rewrite Nat2N.inj_succ, N.pow_succ_r' in H. lia.
Qed.

Lemma pos_below_pow_size (p : positive) :
  (N.pos p < 2 ^ N.of_nat (Pos.to_nat (Pos.size p)))%N.
Proof.
  rewrite positive_nat_N.
  pose proof (Pos.size_gt p) as H.
  change (N.pos p < N.pos (2 ^ Pos.size p))%N. exact H.
Qed.

Lemma str_of_N_digits (n : N) : all_chars is_ascii_digit (str_of_N n) = true.
Proof.
  destruct n as [|p]; [reflexivity|]. now apply digits_of_pos_digits.
Qed.

Lemma str_of_N_value (n : N) : digits_value 0 (str_of_N n) = n.
Proof.
  destruct n as [|p]; [reflexivity|].
  apply digits_of_pos_value, pos_below_pow_size.
Qed.

(** [float] reads the decimal digits of [n] as the float nearest to [n]. *)
Lemma float_of_str_of_N (n : N) :
  float_of_str (str_of_N n) = Ret (float_of_decimal false n 0).
Proof.
  pose proof (float_of_str_plain
                {| negative := false; int_part := str_of_N n;
                   frac_part := "" |}) as H.
  unfold plain, sign_text, fraction_text, float_of_numeral in H.
  cbn [negative int_part frac_part with_point append String.length] in H.
  rewrite append_empty_r, str_of_N_value in H. apply H.
  repeat split.
  - apply str_of_N_digits.
  - intros E. cbn in E. pose proof (str_of_N_nonempty n) as Hn.
    now rewrite E in Hn.
Qed.

(** ** The quantity normalizer applied twice *)

Lemma clean_quantity_text (s : string) :
  _clean_quantity (Some (PStr s)) =
    catch_value_type
      (qty <- (let clean_value :=
                 filter_chars (fun c => isdigit c || Ascii.eqb c ".") s in
               if is_empty clean_value then Ret 1%float
               else float_of_str clean_value) ;;
       i <- int_of_float qty ;;
       if float_eq_int qty i then Ret (str_of_int i)
       else Ret (str_of_float qty))
      "1".
Proof. destruct s; [vm_compute|]; reflexivity. Qed.

(** What the normalizer returns: the default, or the rendering of the
    quantity it computed, as a whole number when it is one. *)
Lemma clean_quantity_cases (x : option pyval) (s : string) :
  _clean_quantity x = Ret s ->
  s = "1"
  \/ exists qty i,
       int_of_float qty = Ret i
       /\ ((float_eq_int qty i = true /\ s = str_of_int i)
           \/ s = str_of_float qty).
Proof.
  intros H.
  assert (Hgen : forall m : outcome float,
            catch_value_type
              (qty <- m ;;
               i <- int_of_float qty ;;
               if float_eq_int qty i then Ret (str_of_int i)
               else Ret (str_of_float qty)) "1" = Ret s ->
            s = "1"
            \/ exists qty i,
                 int_of_float qty = Ret i
                 /\ ((float_eq_int qty i = true /\ s = str_of_int i)
                     \/ s = str_of_float qty)).
  { intros [qty|e] Hm; cbn [bind] in Hm.
    - destruct (int_of_float qty) as [i|e] eqn:Ei; cbn [bind] in Hm.
      + right. exists qty, i. split; [exact Ei|].
        destruct (float_eq_int qty i); cbn in Hm; injection Hm as <-; auto.
      + destruct e; cbn in Hm; try discriminate; injection Hm as <-; auto.
    - destruct e; cbn in Hm; try discriminate; injection Hm as <-; auto. }
  destruct x as [[s0|z|f]|].
  - rewrite clean_quantity_text in H. exact (Hgen _ H).
  - exact (Hgen _ H).
  - exact (Hgen _ H).
  - injection H as <-. now left.
Qed.

Lemma float_of_whole (p : positive) :
  float_of_decimal false (N.pos p) 0
  = SF2Prim (binary_normalize prec emax (Zpos p) 0 false).
Proof.
  change (float_of_decimal false (N.pos p) 0)
    with (SF2Prim (binary_normalize prec emax (Zpos p * 1) 0 false)).
  now rewrite Z.mul_1_r.
Qed.

(** A float that equals the whole number [i >= 0] that [int] gives for it is
    what [float] reads from the digits of [i], up to the sign of zero. *)
Lemma whole_float_read_back (qty : float) (i : Z) :
  int_of_float qty = Ret i -> float_eq_int qty i = true -> 0 <= i ->
  let qty' := float_of_decimal false (Z.to_N i) 0 in
  int_of_float qty' = Ret i /\ float_eq_int qty' i = true.
Proof.
  intros Hi He Hpos qty'. subst qty'.
  pose proof (Prim2SF_valid qty) as Hv.
  pose proof (SF2Prim_Prim2SF qty) as Hback.
  unfold int_of_float in Hi. unfold float_eq_int in He.
  destruct (Prim2SF qty) as [s|s| |s m e] eqn:E; try discriminate.
  - injection Hi as <-. split; reflexivity.
  - cbn [valid_binary] in Hv.
    assert (Hs : s = false).
    { destruct s; [|reflexivity]. exfalso.
      destruct e as [|k|k]; apply Z.eqb_eq in He;
        [rewrite Z.pow_0_r in He; lia| |];
        pose proof (Z.pow_pos_nonneg 2 (Zpos k) ltac:(lia) ltac:(lia)); nia. }
    subst s.
    assert (Hip : exists p, i = Zpos p).
    { destruct i as [|p|p]; [|now exists p|lia].
      exfalso. destruct e as [|k|k]; apply Z.eqb_eq in He;
        [rewrite Z.pow_0_r in He; lia| |];
        pose proof (Z.pow_pos_nonneg 2 (Zpos k) ltac:(lia) ltac:(lia)); nia. }
    destruct Hip as [p ->]. cbn [Z.to_N].
    rewrite float_of_whole.
    rewrite (normalize_exact_integer m p e Hv).
    + rewrite Hback. unfold int_of_float, float_eq_int. rewrite E.
      split; [exact Hi|exact He].
    + intros Hneg. destruct e as [|k|k]; try lia.
      apply Z.eqb_eq in He. exact He.
    + intros Hnn. destruct e as [|k|k]; try lia; apply Z.eqb_eq in He;
        symmetry; exact He.
Qed.

Lemma digit_isdigit (s : string) :
  all_chars is_ascii_digit s = true ->
  all_chars (fun c => isdigit c || Ascii.eqb c ".") s = true.
Proof.
  apply all_chars_impl. intros c H.
  now destruct (digit_facts c H) as (_ & _ & _ & _ & _ & -> & _).
Qed.

Lemma str_of_int_nonneg (i : Z) :
  all_chars is_ascii_digit (str_of_int i) = true ->
  0 <= i /\ str_of_int i = str_of_N (Z.to_N i).
Proof.
  destruct i as [|p|p]; cbn; intros H; try (split; [lia|reflexivity]).
  discriminate H.
Qed.

Lemma clean_quantity_whole (qty : float) (i : Z) :
  int_of_float qty = Ret i -> float_eq_int qty i = true ->
  all_chars is_ascii_digit (str_of_int i) = true ->
  _clean_quantity (Some (PStr (str_of_int i))) = Ret (str_of_int i).
Proof.
  intros Hi He Hd. destruct (str_of_int_nonneg i Hd) as [Hpos Hs].
  destruct (whole_float_read_back qty i Hi He Hpos) as [Hi' He'].
  rewrite clean_quantity_text. cbv zeta.
  rewrite (filter_chars_all _ _ (digit_isdigit _ Hd)).
  rewrite Hs. rewrite str_of_N_nonempty, float_of_str_of_N.
  cbn [bind]. rewrite Hi'. cbn [bind]. rewrite He'.
  unfold catch_value_type. now rewrite Hs.
Qed.

(** C8, as stated, fails: the whole number -3 is normalized to ["-3"], and
    ["-3"] to ["3"], since the sign is not kept from a text; the text
    ["0.00001"] is normalized to ["1e-05"], and that to ["105"]. *)
Lemma clean_quantity_not_idempotent :
  _clean_quantity (Some (PInt (-3))) = Ret "-3"
  /\ _clean_quantity (Some (PStr "-3")) = Ret "3"
  /\ _clean_quantity (Some (PStr "0.00001")) = Ret "1e-05"
  /\ _clean_quantity (Some (PStr "1e-05")) = Ret "105".
Proof. repeat split; vm_compute; reflexivity. Qed.

(** * Further properties of the code *)

(** ** Statements that keep a property of the state *)

Section Preservation.

Variable I : State -> Prop.

Lemma preserves_ret {A : Type} (a : A) : preserves I (mret a).
Proof. intros s H. exact H. Qed.

Lemma preserves_lift {A : Type} (o : outcome A) : preserves I (lift o).
Proof. intros s H. exact H. Qed.

Lemma preserves_gets {A : Type} (f : State -> A) : preserves I (gets f).
Proof. intros s H. exact H. Qed.

Lemma preserves_modify (f : State -> State) :
  (forall s, I s -> I (f s)) -> preserves I (modify f).
Proof. intros H s Hs. apply H, Hs. Qed.

Lemma preserves_bind {A B : Type} (m : M A) (k : A -> M B) :
  preserves I m -> (forall a, preserves I (k a)) -> preserves I (mbind m k).
Proof.
  intros Hm Hk s Hs. unfold mbind. specialize (Hm s Hs).
  destruct (m s) as [[a|e] s1]; cbn [snd] in Hm; [|exact Hm].
  now apply Hk.
Qed.

(** What follows a call that may raise runs only when the call returns. *)
Lemma preserves_lift_bind {A B : Type} (o : outcome A) (k : A -> M B) :
  (forall a, o = Ret a -> preserves I (k a)) ->
  preserves I (mbind (lift o) k).
Proof.
  intros Hk s Hs. unfold mbind, lift. destruct o as [a|e]; [|exact Hs].
  now apply (Hk a).
Qed.

Lemma preserves_when (b : bool) (m : M unit) :
  (b = true -> preserves I m) -> preserves I (when b m).
Proof. destruct b; [auto|]. intros _. apply preserves_ret. Qed.

Lemma preserves_for_each {X : Type} (body : X -> M unit) (xs : list X) :
  (forall x, preserves I (body x)) -> preserves I (for_each body xs).
Proof.
  intros H. induction xs as [|x xs IH]; [apply preserves_ret|].
  cbn [for_each]. apply preserves_bind; [apply H|]. intros _. exact IH.
Qed.

Lemma preserves_fold_each {X B : Type} (body : B -> X -> M B) (xs : list X)
    (b : B) :
  (forall b x, preserves I (body b x)) -> preserves I (fold_each body xs b).
Proof.
  intros H. revert b. induction xs as [|x xs IH]; intros b;
    [apply preserves_ret|].
  cbn [fold_each]. apply preserves_bind; [apply H|]. intros b'. apply IH.
Qed.

(** An assignment guarded by [if not x:], from a state in which [x] is not
    empty *)
Lemma preserves_guarded {B : Type} (f : State -> string)
    (body : string -> M unit) (k : string -> M B) :
  (forall s, I s -> is_empty (f s) = false) ->
  (forall x, preserves I (k x)) ->
  preserves I (mbind (gets f)
                 (fun x => mbind (when (is_empty x) (body x)) (fun _ => k x))).
Proof.
  intros Hf Hk s Hs. unfold mbind at 1 2, gets. rewrite (Hf s Hs).
  cbn. now apply Hk.
Qed.

Lemma preserves_guarded_last (f : State -> string) (body : string -> M unit) :
  (forall s, I s -> is_empty (f s) = false) ->
  preserves I (mbind (gets f) (fun x => when (is_empty x) (body x))).
Proof.
  intros Hf s Hs. unfold mbind, gets. rewrite (Hf s Hs). exact Hs.
Qed.

(** A property that every field keeps holds when the loop ends. *)
Lemma run_fields_preserves (h : bool) (fs : field_map) (s : State) :
  (forall name field, preserves I (process_field h name field)) ->
  I s -> I (run_fields h fs s).
Proof.
  intros H. revert s. induction fs as [|[n f] fs IH]; intros s Hs; [exact Hs|].
  rewrite run_fields_cons. apply IH. now apply H.
Qed.

End Preservation.

(** The structure of a statement, down to its assignments; [tac] proves
    that an assignment keeps the property. *)
Ltac preserve tac :=
  cbv zeta;
  repeat first
    [ apply preserves_ret | apply preserves_lift | apply preserves_gets
    | apply preserves_lift_bind; intros ? ?
    | apply preserves_bind; [|intros ?]
    | apply preserves_when; intros ?
    | apply preserves_for_each; intros ?
    | apply preserves_fold_each; intros ? ?
    | apply preserves_modify; intros ? ?; tac
    | lazymatch goal with
      | |- preserves _ (match ?x with _ => _ end) => destruct x
      end
    | progress unfold tax_details_branch, total_tax_branch, items_branch,
                      item_step, payment_step, tax_detail_step
    | progress cbv zeta ].

Ltac guard_closed :=
  let s := fresh "s" in let H := fresh "H" in
  intros s H; cbn in H |- *; rewrite H; reflexivity.

(** The same, for a property that closes the guards of the payment
    fields *)
Ltac preserve_once tac :=
  cbv zeta;
  repeat first
    [ apply preserves_ret | apply preserves_lift | apply preserves_gets
    | apply preserves_guarded; [guard_closed|intros ?]
    | apply preserves_guarded_last; guard_closed
    | apply preserves_lift_bind; intros ? ?
    | apply preserves_bind; [|intros ?]
    | apply preserves_when; intros ?
    | apply preserves_for_each; intros ?
    | apply preserves_fold_each; intros ? ?
    | apply preserves_modify; intros ? ?; tac
    | lazymatch goal with
      | |- preserves _ (match ?x with _ => _ end) => destruct x
      end
    | progress unfold tax_details_branch, total_tax_branch, items_branch,
                      item_step, payment_step, tax_detail_step
    | progress cbv zeta ].

(** ** The assembler: what it returns *)

Lemma assembler_cases (receipts : option AnalyzeResult) (id : option string) :
  exists r, _process_receipt_result receipts id = Ret r /\ assembled id r.
Proof.
  unfold _process_receipt_result. eexists. split; [reflexivity|].
  destruct receipts as [[text docs]|]; cbn; [|now apply assembled_empty].
  destruct docs as [[|[type fs] rest]|]; cbn; try now apply assembled_empty.
  destruct fs as [| |fs]; cbn.
  - now apply (assembled_basic _ _ text type).
  - now apply assembled_empty.
  - destruct fs as [|e fs]; [now apply (assembled_basic _ _ text type)|].
    change (set_basic id _ _ (_get_empty_result id))
      with (basic_result id text type).
    destruct (preprocess_tax_id _ _) as [s h] eqn:E.
    cbn [catch_all].
    apply (assembled_fields _ _ text type (e :: fs)); [discriminate|].
    now rewrite E.
Qed.

(** For a document with fields, empty or not, the assembler returns the
    record built from the state in which the loop ends. *)
Lemma process_fields_or_none (text type : option string)
    (rest : list AnalyzedDocument) (id : option string) (fs : field_map) :
  _process_receipt_result (receipt_of text type rest fs) id
  = let pre := preprocess_tax_id fs (init_state (basic_result id text type)) in
    Ret (finalize (run_fields (snd pre) fs (fst pre))).
Proof.
  destruct fs as [|e fs]; [reflexivity|].
  now apply process_with_fields.
Qed.

Lemma fields_keep_image_id (v : option string) (h : bool) (name : string)
    (field : DocumentField) :
  preserves (fun s => image_id (result s) = v) (process_field h name field).
Proof.
  unfold process_field. preserve ltac:(cbn; assumption).
Qed.

Lemma preprocess_keeps_image_id (fs : field_map) (s : State) :
  image_id (result (fst (preprocess_tax_id fs s))) = image_id (result s).
Proof.
  unfold preprocess_tax_id.
  repeat lazymatch goal with
         | |- context [match ?x with _ => _ end] => destruct x
         end; reflexivity.
Qed.

(** X1: whatever the analysis result is, the receipt that the assembler
    returns for an identifier that is not empty carries that identifier. *)
Theorem assembler_carries_image_id (receipts : option AnalyzeResult)
    (c : ascii) (t : string) :
  exists r,
    _process_receipt_result receipts (Some (String c t)) = Ret r
    /\ image_id r = Some (String c t).
Proof.
  destruct (assembler_cases receipts (Some (String c t))) as [r [E H]].
  exists r. split; [exact E|].
  destruct H as [-> | text type -> | text type fs _ ->]; try reflexivity.
  unfold finalize. cbn [image_id with_transaction].
  apply run_fields_preserves; [intros; apply fields_keep_image_id|].
  now rewrite preprocess_keeps_image_id.
Qed.

(** ** The assembler: fields it does not know *)

Lemma unknown_field_skipped (h : bool) (name : string) (field : DocumentField)
    (s : State) :
  ~ In name known_fields -> process_field h name field s = (Ret tt, s).
Proof.
  intros Hn. unfold process_field. cbv zeta.
  assert (E : forall k, In k known_fields -> String.eqb name k = false).
  { intros k Hk. apply String.eqb_neq. intros ->. now apply Hn. }
  rewrite !E by (cbn; tauto). reflexivity.
Qed.

Lemma lookup_app_other (k name : string) (field : DocumentField)
    (fs1 fs2 : field_map) :
  name <> k ->
  lookup k (fs1 ++ (name, field) :: fs2)%list = lookup k (fs1 ++ fs2)%list.
Proof.
  intros Hn. induction fs1 as [|[k' v] fs1 IH]; cbn [app lookup].
  - apply String.eqb_neq in Hn. now rewrite String.eqb_sym, Hn.
  - now rewrite IH.
Qed.

(** X2: a field whose name is not one of those the assembler reads changes
    nothing: the receipt is the one assembled from the mapping without that
    field. *)
Theorem unknown_fields_change_nothing (text type : option string)
    (rest : list AnalyzedDocument) (id : option string)
    (before after : field_map) (name : string) (field : DocumentField) :
  ~ In name known_fields ->
  _process_receipt_result
    (receipt_of text type rest (before ++ (name, field) :: after)%list) id
  = _process_receipt_result
      (receipt_of text type rest (before ++ after)%list) id.
Proof.
  intros Hn. rewrite !process_fields_or_none. cbv zeta.
  assert (Hpre : preprocess_tax_id (before ++ (name, field) :: after)%list
                   (init_state (basic_result id text type))
                 = preprocess_tax_id (before ++ after)%list
                     (init_state (basic_result id text type))).
  { unfold preprocess_tax_id. rewrite lookup_app_other; [reflexivity|].
    intros ->. apply Hn. now left. }
  rewrite Hpre, !run_fields_app, run_fields_cons.
  now rewrite (unknown_field_skipped _ name field _ Hn).
Qed.

Lemma unknown_fields_witness :
  _process_receipt_result (receipt_of (Some "txt") None [] with_loyalty_points)
    (Some "r1.jpg")
  = _process_receipt_result
      (receipt_of (Some "txt") None []
         [("MerchantName", text_field "string" "Corner Store");
          ("Total", text_field "currency" "$4.50")])
      (Some "r1.jpg").
Proof.
  apply (unknown_fields_change_nothing (Some "txt") None [] (Some "r1.jpg")
           [("MerchantName", text_field "string" "Corner Store")]
           [("Total", text_field "currency" "$4.50")]
           "LoyaltyPoints" (text_field "string" "120")).
  cbn. intuition discriminate.
Defined.

(** ** The assembler: a field that raises *)

Ltac frame_kept :=
  cbv beta in *;
  lazymatch goal with
  | H : _ = ?r |- _ = ?r => rewrite <- H; reflexivity
  end.




Lemma payment_step_frame (s0 : State) (x : DocumentField) :
  preserves (fun s => outside_own_part "PaymentDetails" s
                      = outside_own_part "PaymentDetails" s0)
    (payment_step x).
Proof. preserve frame_kept. Qed.

(** A branch that reads one amount and then writes: when it raises, it has
    written nothing. *)
Lemma amount_fault_writes_nothing {A : Type} (o : outcome A) (k : A -> M unit)
    (s : State) :
  (forall a s1, ~ raises (fst (k a s1))) ->
  raises (fst (mbind (lift o) k s)) -> snd (mbind (lift o) k s) = s.
Proof.
  intros Hk. unfold mbind, lift. destruct o as [a|e]; [|reflexivity].
  intros H. now apply Hk in H.
Qed.

Ltac never_raises :=
  intros; intros [? Hraise]; cbv zeta in Hraise;
  repeat (lazymatch type of Hraise with
          | context [match ?x with _ => _ end] => destruct x
          end);
  discriminate Hraise.






(** ** The assembler: the tax identifier of the merchant *)

Lemma fields_keep_merchant_ids (g t : string) (h : bool) (name : string)
    (field : DocumentField) :
  preserves (merchant_ids g t) (process_field h name field).
Proof.
  unfold process_field.
  preserve ltac:(unfold merchant_ids in *; cbn in *; tauto).
Qed.

Lemma fields_keep_flag (h : bool) (name : string) (field : DocumentField) :
  preserves (fun s => has_hst s = true) (process_field h name field).
Proof.
  unfold process_field. preserve ltac:(cbn in *; tauto).
Qed.

(** X3: when the field [MerchantTaxId] yields a value that is not empty,
    the receipt records it in exactly one place: a GST/HST registration
    number found in it goes to [gst_hst_number], with the regional-tax flag
    set and [tax_id] left empty; without such a number the whole text goes
    to [tax_id] and [gst_hst_number] stays empty.  No other field changes
    either of them. *)
Theorem tax_id_is_number_or_text
    (text type : option string) (rest : list AnalyzedDocument)
    (id : option string) (fs : field_map) (fld : DocumentField) (v : pyval) :
  lookup "MerchantTaxId" fs = Some fld ->
  _extract_field_value (Some fld) = Some v ->
  truthy (Some v) = true ->
  exists r,
    _process_receipt_result (receipt_of text type rest fs) id = Ret r
    /\ match search_gst_hst (py_str v) with
       | Some m =>
           gst_hst_number (merchant r) = m /\ tax_id (merchant r) = ""
           /\ td_has_hst (tax_details (transaction r)) = true
       | None =>
           gst_hst_number (merchant r) = "" /\ tax_id (merchant r) = py_str v
       end.
Proof.
  intros Hl Hv Ht.
  rewrite process_fields_or_none. cbv zeta.
  eexists. split; [reflexivity|].
  assert (Hpre : preprocess_tax_id fs (init_state (basic_result id text type))
                 = match search_gst_hst (py_str v) with
                   | Some m =>
                       (set_has_hst true
                          (with_result (with_merchant (set_gst_hst_number m))
                             (init_state (basic_result id text type))), true)
                   | None =>
                       (with_result (with_merchant (set_tax_id (py_str v)))
                          (init_state (basic_result id text type)), false)
                   end).
  { unfold preprocess_tax_id. now rewrite Hl, Hv, Ht. }
  rewrite Hpre.
  destruct (search_gst_hst (py_str v)) as [m|]; cbn [fst snd].
  - match goal with |- context [run_fields true fs ?s0] =>
      assert (Hr : merchant_ids m "" (run_fields true fs s0))
        by (apply run_fields_preserves;
            [intros; apply fields_keep_merchant_ids|now split]);
      assert (Hf : has_hst (run_fields true fs s0) = true)
        by (apply (run_fields_preserves (fun s => has_hst s = true));
            [intros; apply fields_keep_flag|reflexivity])
    end.
    destruct Hr as [H1 H2]. exact (conj H1 (conj H2 Hf)).
  - match goal with |- context [run_fields false fs ?s0] =>
      assert (Hr : merchant_ids "" (py_str v) (run_fields false fs s0))
        by (apply run_fields_preserves;
            [intros; apply fields_keep_merchant_ids|now split])
    end.
    exact Hr.
Qed.

Lemma tax_id_witness :
  exists r,
    _process_receipt_result
      (receipt_of (Some "txt") None [] tax_id_only) (Some "r1.jpg") = Ret r
    /\ gst_hst_number (merchant r) = "HST# 123456789 RT0001"
    /\ tax_id (merchant r) = ""
    /\ td_has_hst (tax_details (transaction r)) = true.
Proof.
  exact (tax_id_is_number_or_text (Some "txt") None [] (Some "r1.jpg")
           tax_id_only (text_field "string" "HST# 123456789 RT0001")
           (PStr "HST# 123456789 RT0001") eq_refl eq_refl eq_refl).
Defined.

(** ** The assembler: the breakdown after the top-level total *)



(** ** The assembler: invariants of the receipt *)

Lemma fields_keep_aligned (h : bool) (name : string) (field : DocumentField) :
  preserves aligned (process_field h name field).
Proof.
  unfold process_field.
  preserve ltac:(unfold aligned in *; cbn in *; rewrite ?length_app; cbn; lia).
Qed.

Lemma preprocess_aligned (fs : field_map) (r : Receipt) :
  aligned (fst (preprocess_tax_id fs (init_state r))).
Proof.
  unfold preprocess_tax_id.
  repeat lazymatch goal with
         | |- context [match ?x with _ => _ end] => destruct x
         end; split; cbn; lia.
Qed.

Lemma valid_rates_length (l : list (option float)) :
  (List.length (valid_rates l) <= List.length l)%nat.
Proof. induction l as [|[r|] l IH]; cbn; lia. Qed.

(** X5: in every receipt that the assembler returns, the tax breakdown has
    no more rates and no more types than it has amounts. *)
Theorem breakdown_lists_bounded (receipts : option AnalyzeResult)
    (id : option string) :
  exists r,
    _process_receipt_result receipts id = Ret r
    /\ let d := tax_details (transaction r) in
       (List.length (td_tax_rates d) <= List.length (td_tax_amounts d))%nat
       /\ (List.length (td_tax_types d)
           <= List.length (td_tax_amounts d))%nat.
Proof.
  destruct (assembler_cases receipts id) as [r [E H]].
  exists r. split; [exact E|].
  destruct H as [-> | text type -> | text type fs _ ->]; cbn; try lia.
  match goal with |- context [run_fields ?h fs ?s0] =>
    assert (Ha : aligned (run_fields h fs s0))
      by (apply run_fields_preserves;
          [intros; apply fields_keep_aligned|apply preprocess_aligned]);
    destruct Ha as [H1 H2]
  end.
  split.
  - etransitivity; [apply valid_rates_length|exact H1].
  - rewrite <- H2. apply filter_length_le.
Qed.

Lemma money_empty : money_text "".
Proof. now left. Qed.

Lemma money_float (f : float) : money_text (str_of_float f).
Proof. right. now exists f. Qed.

Lemma money_opt (v : option float) : money_text (str_of_opt_float "" v).
Proof. destruct v; [apply money_float|apply money_empty]. Qed.

Lemma infer_money (it : Item) :
  money_item it -> money_item (infer_price_total it).
Proof.
  intros (H1 & H2 & H3 & H4 & H5 & H6). unfold infer_price_total.
  split_cases; repeat split; cbn; auto using money_float.
Qed.

Lemma item_tax_money (h : bool) (rates : list (option float)) (it : Item) :
  money_item it -> money_item (item_tax h rates it).
Proof.
  intros (H1 & H2 & H3 & H4 & H5 & H6). unfold item_tax.
  split_cases; repeat split; cbn; auto using money_float, money_empty.
Qed.

Lemma discount_money (d : option float) (it : Item) :
  money_item it ->
  money_item match d with
             | Some f => set_discount (str_of_float f) it
             | None => it
             end.
Proof.
  intros (H1 & H2 & H3 & H4 & H5 & H6).
  destruct d; repeat split; cbn; auto using money_float.
Qed.

Lemma item_savings_money (a b : Item) :
  money_item a -> item_savings a = Ret b -> money_item b.
Proof.
  intros (H1 & H2 & H3 & H4 & H5 & H6). unfold item_savings.
  destruct (search_you_saved _); intros H.
  - bind_inv H. injection H as <-.
    destruct a0; repeat split; cbn; auto using money_float.
  - injection H as <-. now repeat split.
Qed.

(** Every amount of an item that the item builder returns is empty or the
    rendering of a float. *)
Lemma build_item_money (h : bool) (rates : list (option float))
    (item : DocumentField) (it : Item) :
  build_item h rates item = Ret it -> money_item it.
Proof.
  unfold build_item. intros H.
  destruct (hasattr (value_object item)).
  2:{ injection H as <-. repeat split; apply money_empty. }
  repeat bind_inv H.
  eapply item_savings_money; [|exact H].
  apply discount_money, item_tax_money, infer_money.
  repeat split; cbn; auto using money_opt, money_empty.
Qed.

Lemma fields_keep_money (h : bool) (name : string) (field : DocumentField) :
  preserves money_state (process_field h name field).
Proof.
  unfold process_field.
  preserve ltac:(unfold money_state in *; cbn in *;
                 repeat split;
                 first [ tauto | apply money_float | apply Forall_nil
                       | apply Forall_app; split; [tauto|];
                         apply Forall_cons; [|apply Forall_nil];
                         eapply build_item_money; eassumption ]).
Qed.

Lemma preprocess_keeps_money (fs : field_map) (r : Receipt) :
  money_state (init_state r) ->
  money_state (fst (preprocess_tax_id fs (init_state r))).
Proof.
  intros H. unfold preprocess_tax_id.
  repeat lazymatch goal with
         | |- context [match ?x with _ => _ end] => destruct x
         end; exact H.
Qed.

(** X6: in every receipt that the assembler returns, each text that holds
    an amount is empty or the rendering [str] gives of a float: the total,
    the subtotal, the tax, the total tax of the tax details (the same text
    as the tax), the payment amount, the change due and, for every item,
    the price, the total, the tax amount, the final price, the discount and
    the savings. *)
Theorem amounts_are_floats_or_empty (receipts : option AnalyzeResult)
    (id : option string) :
  exists r,
    _process_receipt_result receipts id = Ret r
    /\ tax (transaction r) = td_total_tax (tax_details (transaction r))
    /\ money_text (tax (transaction r))
    /\ money_text (tr_total (transaction r))
    /\ money_text (tr_subtotal (transaction r))
    /\ money_text (payment_amount (payment r))
    /\ money_text (change_due (payment r))
    /\ Forall money_item (items r).
Proof.
  destruct (assembler_cases receipts id) as [r [E H]].
  exists r. split; [exact E|].
  assert (Hb : forall text type,
             money_state (init_state (basic_result id text type))).
  { intros text type. repeat split; try apply money_empty. apply Forall_nil. }
  destruct H as [-> | text type -> | text type fs _ ->].
  - repeat split; try apply money_empty. apply Forall_nil.
  - repeat split; try apply money_empty. apply Forall_nil.
  - match goal with |- context [run_fields ?h fs ?s0] =>
      assert (Hm : money_state (run_fields h fs s0))
        by (apply run_fields_preserves;
            [intros; apply fields_keep_money
            |apply preprocess_keeps_money, Hb])
    end.
    destruct Hm as (H1 & H2 & H3 & H4 & H5).
    split; [reflexivity|]. split; [apply money_opt|].
    repeat split; assumption.
Qed.

Lemma fields_keep_described (h : bool) (name : string) (field : DocumentField) :
  preserves (fun s => Forall described (items (result s)))
    (process_field h name field).
Proof.
  unfold process_field.
  preserve ltac:(cbn in *;
                 first [ assumption
                       | apply Forall_nil
                       | apply Forall_app; split; [assumption|];
                         apply Forall_cons; [|apply Forall_nil];
                         now apply nonempty_true ]).
Qed.

Lemma preprocess_keeps_items (fs : field_map) (s : State) :
  items (result (fst (preprocess_tax_id fs s))) = items (result s).
Proof.
  unfold preprocess_tax_id.
  repeat lazymatch goal with
         | |- context [match ?x with _ => _ end] => destruct x
         end; reflexivity.
Qed.

(** X7: every item of a receipt that the assembler returns has a
    description that is not empty, also when the processing of the items
    was cut short by a fault. *)
Theorem items_have_descriptions (receipts : option AnalyzeResult)
    (id : option string) :
  exists r,
    _process_receipt_result receipts id = Ret r
    /\ Forall described (items r).
Proof.
  destruct (assembler_cases receipts id) as [r [E H]].
  exists r. split; [exact E|].
  destruct H as [-> | text type -> | text type fs _ ->];
    try apply Forall_nil.
  unfold finalize. cbn [items with_transaction].
  apply (run_fields_preserves (fun s => Forall described (items (result s))));
    [intros; apply fields_keep_described|].
  rewrite preprocess_keeps_items. apply Forall_nil.
Qed.

(** ** The assembler: items read before the breakdown *)

Lemma unflagged_status (d : string) : item_tax_status false d <> "TAXABLE".
Proof.
  unfold item_tax_status.
  destruct (_ || _); [discriminate|]. destruct (contains _ _); discriminate.
Qed.

Lemma item_step_unflagged (item : DocumentField) :
  preserves unflagged (item_step item).
Proof.
  intros s [Hf Hi]. unfold item_step, mbind, gets, lift. rewrite Hf.
  destruct (build_item false (tax_rates s) item) as [it|e] eqn:E;
    [|now split].
  unfold when. destruct (nonempty (description it)) eqn:Hd; [|now split].
  cbn. split; [exact Hf|].
  apply Forall_app. split; [exact Hi|].
  apply Forall_cons; [|apply Forall_nil].
  unfold untaxed.
  rewrite (built_item_status false (tax_rates s) item it E)
    by now apply nonempty_true.
  apply unflagged_status.
Qed.

Lemma fields_keep_unflagged (h : bool) (name : string)
    (field : DocumentField) :
  name <> "TaxDetails" -> preserves unflagged (process_field h name field).
Proof.
  intros Hn. apply String.eqb_neq in Hn.
  unfold process_field. rewrite Hn. cbn [andb].
  repeat lazymatch goal with
         | |- preserves _ (if ?b then _ else _) => destruct b
         end;
    try (unfold items_branch;
         apply preserves_bind;
           [apply preserves_modify; intros s [H1 H2]; split;
              [exact H1|apply Forall_nil]|intros _];
         apply preserves_lift_bind; intros xs _;
         apply preserves_for_each; intros x; apply item_step_unflagged);
    preserve ltac:(unfold unflagged in *; cbn in *; tauto).
Qed.

Lemma fields_keep_untaxed (h : bool) (name : string) (field : DocumentField) :
  name <> "Items" ->
  preserves (fun s => Forall untaxed (items (result s)))
    (process_field h name field).
Proof.
  intros Hn. apply String.eqb_neq in Hn.
  unfold process_field. rewrite Hn. cbn [andb].
  preserve ltac:(cbn in *; assumption).
Qed.

Lemma run_fields_preserves_named (I : State -> Prop) (P : string -> Prop)
    (h : bool) (fs : field_map) (s : State) :
  (forall name field, P name -> preserves I (process_field h name field)) ->
  (forall n f, In (n, f) fs -> P n) ->
  I s -> I (run_fields h fs s).
Proof.
  intros H. revert s. induction fs as [|[n f] fs IH]; intros s Hfs Hs;
    [exact Hs|].
  rewrite run_fields_cons. apply IH.
  - intros n' f' Hin. apply (Hfs n' f'). now right.
  - apply H; [|exact Hs]. apply (Hfs n f). now left.
Qed.

(** X26: the tax status of the items depends on the order of the fields.
    When the mapping has no [MerchantTaxId] and the field [Items] comes
    before any [TaxDetails] (and is not followed by a second [Items]), no
    item of the receipt is [TAXABLE], even if a breakdown that comes later
    sets the regional-tax flag of the receipt. *)
Theorem items_before_breakdown_never_taxable
    (text type : option string) (rest : list AnalyzedDocument)
    (id : option string) (before after : field_map)
    (items_field : DocumentField) :
  let fs := (before ++ ("Items", items_field) :: after)%list in
  lookup "MerchantTaxId" fs = None ->
  (forall n f, In (n, f) before -> n <> "TaxDetails") ->
  (forall n f, In (n, f) after -> n <> "Items") ->
  exists r,
    _process_receipt_result (receipt_of text type rest fs) id = Ret r
    /\ Forall untaxed (items r).
Proof.
  intros fs Hl Hb Ha.
  rewrite process_fields_or_none. cbv zeta.
  eexists. split; [reflexivity|].
  unfold preprocess_tax_id. rewrite Hl. cbn [fst snd].
  unfold finalize. cbn [items with_transaction].
  subst fs. rewrite run_fields_app, run_fields_cons.
  apply (run_fields_preserves_named
           (fun s => Forall untaxed (items (result s)))
           (fun n => n <> "Items"));
    [intros; now apply fields_keep_untaxed|exact Ha|].
  apply (fields_keep_unflagged false "Items" items_field); [discriminate|].
  apply (run_fields_preserves_named unflagged (fun n => n <> "TaxDetails"));
    [intros; now apply fields_keep_unflagged|exact Hb|].
  split; [reflexivity|apply Forall_nil].
Qed.

Lemma items_before_breakdown_witness :
  exists r,
    _process_receipt_result
      (receipt_of (Some "txt") None [] items_then_breakdown) (Some "r1.jpg")
    = Ret r
    /\ Forall untaxed (items r)
    /\ map tax_status (items r) = ["UNKNOWN"]
    /\ td_has_hst (tax_details (transaction r)) = true.
Proof.
  destruct (items_before_breakdown_never_taxable (Some "txt") None []
              (Some "r1.jpg") [] [("TaxDetails", breakdown_13)]
              (array_field [bread_3])) as (r & E & H).
  - reflexivity.
  - intros n f [].
  - intros n f [H|[]]. injection H as <- _. discriminate.
  - exists r. split; [exact E|]. split; [exact H|].
    vm_compute in E. injection E as <-. split; reflexivity.
Defined.

(** ** The assembler: the regional-tax flag and the breakdown *)

Lemma tax_detail_step_keeps_flag (cur : float) (x : DocumentField) :
  preserves (fun s => has_hst s = true) (tax_detail_step cur x).
Proof.
  unfold tax_detail_step. preserve ltac:(cbn in *; tauto).
Qed.

Lemma labelled_entry_sets_flag (cur : float) (entry : DocumentField)
    (label : string) (s : State) :
  labelled_entry entry label -> regional_label label = true ->
  has_hst (snd (tax_detail_step cur entry s)) = true.
Proof.
  intros (obj & d & af & a & Ho & Hd & Hl & Ha & Hc) Hr.
  unfold tax_detail_step. rewrite Ho. cbn [hasattr getattr].
  unfold mbind, lift, get_key, currency_of_key, get_key. cbn [bind].
  rewrite Hd, Ha, Hc, Hl. unfold regional_label in Hr.
  unfold modify. cbn [fst snd]. rewrite Hr. reflexivity.
Qed.

Lemma faultless_entry_returns (cur : float) (entry : DocumentField)
    (s : State) :
  faultless_entry entry -> exists c, fst (tax_detail_step cur entry s) = Ret c.
Proof.
  unfold faultless_entry, tax_detail_step.
  destruct (value_object entry) as [| |obj]; cbn [hasattr getattr].
  - intros _. now eexists.
  - intros [].
  - intros [r Hr]. unfold mbind at 1 2 3, lift. cbn [get_key].
    rewrite Hr. destruct r as [a|].
    + unfold mbind, modify, when.
      destruct (existsb _ _); now eexists.
    + now eexists.
Qed.

Lemma fold_each_app {X B : Type} (body : B -> X -> M B) (xs ys : list X)
    (b : B) (s : State) :
  fold_each body (xs ++ ys) b s
  = mbind (fold_each body xs b) (fun b' => fold_each body ys b') s.
Proof.
  revert b s. induction xs as [|x xs IH]; intros b s.
  - reflexivity.
  - cbn [app fold_each]. unfold mbind.
    destruct (body b x s) as [[b1|e] s1]; [|reflexivity].
    rewrite IH. reflexivity.
Qed.

Lemma faultless_entries_return (xs : list DocumentField) (cur : float)
    (s : State) :
  Forall faultless_entry xs ->
  exists c, fst (fold_each tax_detail_step xs cur s) = Ret c.
Proof.
  intros H. revert cur s. induction H as [|x xs Hx _ IH]; intros cur s.
  - now eexists.
  - cbn [fold_each]. unfold mbind.
    destruct (faultless_entry_returns cur x s Hx) as [c Hc].
    destruct (tax_detail_step cur x s) as [o s1]. cbn [fst] in Hc. subst o.
    apply IH.
Qed.

Lemma breakdown_sets_flag (field : DocumentField)
    (earlier others : list DocumentField) (entry : DocumentField)
    (label : string) (s : State) :
  value_array field = Attr (earlier ++ entry :: others)%list ->
  Forall faultless_entry earlier ->
  labelled_entry entry label -> regional_label label = true ->
  has_hst (snd (tax_details_branch field s)) = true.
Proof.
  intros Ha He Hl Hr. unfold tax_details_branch.
  unfold mbind at 1, modify at 1. unfold mbind at 1, lift. rewrite Ha.
  cbn [iterable]. unfold mbind at 1. rewrite fold_each_app.
  unfold mbind at 1.
  destruct (faultless_entries_return earlier 0%float
              (set_tax_lists [] [] [] s) He) as [c Hc].
  destruct (fold_each tax_detail_step earlier 0%float _) as [o s1].
  cbn [fst] in Hc. subst o. cbn [fold_each]. unfold mbind at 1.
  pose proof (labelled_entry_sets_flag c entry label s1 Hl Hr) as H1.
  destruct (tax_detail_step c entry s1) as [[c1|e] s2]; cbn [snd] in H1;
    [|exact H1].
  pose proof (preserves_fold_each (fun s => has_hst s = true) tax_detail_step
                others c1 tax_detail_step_keeps_flag s2 H1) as H2.
  destruct (fold_each tax_detail_step others c1 s2) as [[c2|e] s3];
    cbn [snd] in H2; [|exact H2].
  unfold modify. cbn. exact H2.
Qed.

(** X27: an entry of the breakdown [TaxDetails] whose amount is read and
    whose label, in upper case, contains [HST], [GST] or [PST] sets the
    regional-tax flag of the receipt, when the entries before it in the
    array are processed without a fault.  Neither a fault in a later entry
    nor any other field of the mapping takes the flag back. *)
Theorem regional_label_sets_flag
    (text type : option string) (rest : list AnalyzedDocument)
    (id : option string) (before after : field_map) (field : DocumentField)
    (earlier others : list DocumentField) (entry : DocumentField)
    (label : string) :
  value_array field = Attr (earlier ++ entry :: others)%list ->
  Forall faultless_entry earlier ->
  labelled_entry entry label ->
  regional_label label = true ->
  exists r,
    _process_receipt_result
      (receipt_of text type rest
         (before ++ ("TaxDetails", field) :: after)%list) id
    = Ret r
    /\ td_has_hst (tax_details (transaction r)) = true.
Proof.
  intros Ha He Hl Hr.
  rewrite process_fields_or_none.
  cbv zeta. eexists. split; [reflexivity|].
  destruct (preprocess_tax_id _ _) as [s0 h].
  cbn [fst snd].
  unfold finalize. cbn.
  rewrite run_fields_app, run_fields_cons.
  apply (run_fields_preserves (fun s => has_hst s = true)).
  - intros n f. apply fields_keep_flag.
  - assert (Hn : nonempty_array (value_array field) = true)
      by (rewrite Ha; now destruct earlier).
    assert (Hp : forall s,
               process_field h "TaxDetails" field s
               = tax_details_branch field s).
    { intros s. unfold process_field.
      cbn [String.eqb Ascii.eqb Bool.eqb andb]. rewrite Hn.
      destruct (value_array field); try discriminate. reflexivity. }
    rewrite Hp.
    exact (breakdown_sets_flag field earlier others entry label _ Ha He Hl Hr).
Qed.

Lemma regional_label_witness :
  exists r,
    _process_receipt_result
      (receipt_of (Some "txt") None []
         ([("TotalTax", total_tax_5)]
          ++ ("TaxDetails", breakdown_with_fault)
          :: [("MerchantName", text_field "string" "Corner Store")])%list)
      (Some "r1.jpg")
    = Ret r
    /\ td_has_hst (tax_details (transaction r)) = true.
Proof.
  apply (regional_label_sets_flag (Some "txt") None [] (Some "r1.jpg")
           [("TotalTax", total_tax_5)]
           [("MerchantName", text_field "string" "Corner Store")]
           breakdown_with_fault
           [object_field [("Description", text_field "string" "City levy");
                          ("Amount", text_field "currency" "0.40")]]
           [text_field "string" "n/a"]
           (object_field [("Description", text_field "string" "Ontario hst");
                          ("Amount", text_field "currency" "1.30")])
           "Ontario hst").
  - reflexivity.
  - constructor; [|constructor]. vm_compute. now eexists.
  - do 4 eexists. repeat split; reflexivity.
  - vm_compute. reflexivity.
Defined.

(** ** The assembler: the payment *)

Lemma fields_keep_payment_type (c : ascii) (t : string) (h : bool)
    (name : string) (field : DocumentField) :
  preserves (fun s => payment_type (payment (result s)) = String c t)
    (process_field h name field).
Proof.
  unfold process_field. preserve_once ltac:(cbn in *; assumption).
Qed.

Lemma fields_keep_payment_amount (c : ascii) (t : string) (h : bool)
    (name : string) (field : DocumentField) :
  preserves (fun s => payment_amount (payment (result s)) = String c t)
    (process_field h name field).
Proof.
  unfold process_field. preserve_once ltac:(cbn in *; assumption).
Qed.

Lemma fields_keep_card_number (c : ascii) (t : string) (h : bool)
    (name : string) (field : DocumentField) :
  preserves (fun s => card_number (payment (result s)) = String c t)
    (process_field h name field).
Proof.
  unfold process_field. preserve_once ltac:(cbn in *; assumption).
Qed.

(** X8: the loop over the fields writes the type, the amount and the card
    number of the payment once: each of them is empty when the loop starts
    from a state, or is the same when the loop ends, whatever the fields
    are. *)
Theorem payment_written_once (h : bool) (fs : field_map) (s : State) :
  let p := payment (result s) in
  let q := payment (result (run_fields h fs s)) in
  (payment_type p = "" \/ payment_type q = payment_type p)
  /\ (payment_amount p = "" \/ payment_amount q = payment_amount p)
  /\ (card_number p = "" \/ card_number q = card_number p).
Proof.
  intros p q. subst p q. repeat split.
  - destruct (payment_type (payment (result s))) as [|c t] eqn:E; [now left|].
    right.
    apply (run_fields_preserves
             (fun s => payment_type (payment (result s)) = String c t));
      [intros; apply fields_keep_payment_type|exact E].
  - destruct (payment_amount (payment (result s))) as [|c t] eqn:E;
      [now left|].
    right.
    apply (run_fields_preserves
             (fun s => payment_amount (payment (result s)) = String c t));
      [intros; apply fields_keep_payment_amount|exact E].
  - destruct (card_number (payment (result s))) as [|c t] eqn:E; [now left|].
    right.
    apply (run_fields_preserves
             (fun s => card_number (payment (result s)) = String c t));
      [intros; apply fields_keep_card_number|exact E].
Qed.

(** ** The tax reconciler: a rate written as a percentage *)

Lemma numeral_not_percent (c : ascii) :
  numeral_char c = true -> negb (Ascii.eqb c "%") = true.
Proof.
  destruct c as [[] [] [] [] [] [] [] []]; vm_compute; intros H;
    first [discriminate H | reflexivity].
Qed.

(** X9: the rate of a breakdown entry that is the text of a decimal numeral
    followed by a percent sign is the number the numeral denotes, divided
    by 100. *)
Theorem percent_rate_is_read (d : Numeral) :
  well_formed d ->
  rate_of (Some (PStr (plain d ++ "%")))
  = Some (float_of_numeral d / 100)%float.
Proof.
  intros Hw. unfold rate_of.
  assert (Ht : truthy (Some (PStr (plain d ++ "%"))) = true).
  { cbn [truthy]. now rewrite is_empty_app, andb_false_r. }
  rewrite Ht.
  replace (contains "%" (plain d ++ "%")) with true
    by (symmetry; exact (contains_app "%" (plain d) "")).
  rewrite filter_chars_app.
  rewrite (filter_chars_all _ (plain d))
    by exact (all_chars_impl _ _ _ numeral_not_percent
                (plain_numeral_chars d Hw)).
  cbn [filter_chars Ascii.eqb Bool.eqb negb].
  rewrite append_empty_r, (float_of_str_plain d Hw). reflexivity.
Qed.

Lemma percent_rate_witness :
  well_formed thirteen
  /\ rate_of (Some (PStr "13%")) = Some 0.13%float.
Proof.
  assert (Hw : well_formed thirteen) by (repeat split; discriminate).
  split; [exact Hw|].
  refine (eq_trans (percent_rate_is_read thirteen Hw) _).
  vm_compute. reflexivity.
Defined.

(** ** What the normalizers raise *)

Lemma float_of_str_raises (s : string) (e : exn) :
  float_of_str s = Raise e -> e = ValueError.
Proof.
  unfold float_of_str.
  destruct (underscores_ok _ _); [|congruence].
  destruct (read_sign _) as [neg r].
  destruct (_ || _); [discriminate|].
  destruct (String.eqb _ _); [discriminate|].
  destruct (read_number _ _); congruence.
Qed.

Lemma float_of_int_raises (z : Z) (e : exn) :
  float_of_int z = Raise e -> e = OverflowError.
Proof. unfold float_of_int. destruct (is_infinity _); congruence. Qed.

(** The currency normalizer returns for every text. *)
Lemma clean_currency_text_returns (s : string) :
  exists r, _clean_currency (Some (PStr s)) = Ret r.
Proof.
  rewrite clean_currency_text. cbv zeta.
  destruct (is_empty _); [now eexists|].
  destruct (_ <? _)%nat; [now eexists|].
  destruct (_ && _); [now eexists|].
  destruct (float_of_str _) as [f|e] eqn:E; [now eexists|].
  apply float_of_str_raises in E as ->. now eexists.
Qed.

(** X10: the currency normalizer returns for every value but an [int] too
    large for a float, for which it raises [OverflowError]; for a text it
    never raises. *)
Theorem clean_currency_raises_only_on_big_int (v : option pyval) :
  (exists r, _clean_currency v = Ret r)
  \/ (exists z, v = Some (PInt z) /\ float_of_int z = Raise OverflowError
                /\ _clean_currency v = Raise OverflowError).
Proof.
  destruct v as [[s|z|f]|]; [| | left; now eexists ..].
  - left. apply clean_currency_text_returns.
  - cbn. destruct (float_of_int z) as [f|e] eqn:E; [left; now eexists|].
    right. exists z. pose proof (float_of_int_raises z e E). subst e.
    now repeat split.
Qed.

Lemma str_of_int_nonempty (z : Z) : str_of_int z <> "".
Proof.
  destruct z as [|p|p]; [discriminate| |discriminate].
  intros H. pose proof (str_of_N_nonempty (Npos p)) as Hn.
  unfold str_of_int in H. rewrite H in Hn. discriminate.
Qed.

(** X11: the quantity normalizer returns a text that is not empty, or
    raises [OverflowError]; it raises nothing else. *)
Theorem clean_quantity_text_or_overflow (v : option pyval) :
  (exists s, _clean_quantity v = Ret s /\ s <> "")
  \/ _clean_quantity v = Raise OverflowError.
Proof.
  destruct (_clean_quantity v) as [s|e] eqn:E.
  - left. exists s. split; [reflexivity|].
    destruct (clean_quantity_cases v s E) as [->|(qty & i & _ & [[_ ->]| ->])].
    + discriminate.
    + apply str_of_int_nonempty.
    + apply nonempty_true, str_of_float_nonempty.
  - right. f_equal.
    assert (Hgen : forall m : outcome float,
              (forall e', m = Raise e' ->
                          e' = ValueError \/ e' = OverflowError) ->
              catch_value_type
                (qty <- m ;;
                 i <- int_of_float qty ;;
                 if float_eq_int qty i then Ret (str_of_int i)
                 else Ret (str_of_float qty)) "1" = Raise e ->
              e = OverflowError).
    { intros [qty|e'] Hm; cbn [bind].
      - unfold int_of_float. destruct (Prim2SF qty); cbn;
          try destruct (float_eq_int _ _); cbn; congruence.
      - destruct (Hm e' eq_refl) as [-> | ->]; cbn; congruence. }
    destruct v as [[s0|z|f]|].
    + rewrite clean_quantity_text in E. apply (Hgen _) in E; [exact E|].
      cbv zeta. destruct (is_empty _); [discriminate|].
      intros e' He. left. now apply float_of_str_raises in He.
    + apply (Hgen (float_of_int z)); [|exact E].
      intros e' He. right. now apply float_of_int_raises in He.
    + apply (Hgen (Ret f)); [discriminate|exact E].
    + discriminate.
Qed.

(** ** The categorizer: its range, and keywords that never decide *)

Lemma categorize_in_names (description : string) :
  In (_categorize_item description) category_names.
Proof.
  rewrite categorize_is_lookup. unfold category_mappings.
  cbn [first_category].
  repeat lazymatch goal with
         | |- context [if ?b then _ else _] => destruct b
         end; vm_compute; tauto.
Qed.

(** X12: the categorizer returns the display name of one of the six
    categories of its table for every description; it never returns
    ["Other"]. *)
Theorem categorize_range (description : string) :
  In (_categorize_item description) category_names
  /\ _categorize_item description <> "Other".
Proof.
  pose proof (categorize_in_names description) as H.
  split; [exact H|]. intros E. rewrite E in H. cbn in H.
  repeat destruct H as [H|H]; try discriminate H. destruct H.
Qed.

Lemma contains_trans (a b c : string) :
  contains a b = true -> contains b c = true -> contains a c = true.
Proof.
  intros Hab Hbc.
  apply contains_split in Hab as (x & y & ->).
  apply contains_split in Hbc as (u & v & ->).
  replace (u ++ (x ++ a ++ y) ++ v) with ((u ++ x) ++ a ++ (y ++ v))
    by now rewrite !append_assoc.
  apply contains_app.
Qed.

(** X13: the keywords ["toilet"] and ["foil"] of the household table,
    ["coffee shop"] and ["delivery"] of the dining table and ["oil change"]
    of the transportation table never decide the category: each contains a
    keyword of the groceries table, which is looked at first, so a
    description in which one of them occurs is put in [Groceries]. *)
Theorem shadowed_keywords_are_groceries (kw description : string) :
  In kw shadowed_keywords ->
  contains kw (lower description) = true ->
  _categorize_item description = "Groceries".
Proof.
  intros Hin Hc. rewrite categorize_is_lookup.
  assert (Hg : exists g, In g ["oil"; "coffee"; "deli"]
                         /\ contains g (lower description) = true).
  { cbn in Hin.
    destruct Hin as [<-|[<-|[<-|[<-|[<-|[]]]]]];
      [exists "oil"|exists "oil"|exists "coffee"|exists "deli"|exists "oil"];
      (split; [cbn; tauto|]); (eapply contains_trans; [|exact Hc]);
      reflexivity. }
  destruct Hg as (g & Hg & Hgc).
  unfold category_mappings. cbn [first_category].
  rewrite (contains_keyword_found g (lower description));
    [reflexivity| |exact Hgc].
  cbn in Hg |- *. intuition.
Qed.

Lemma shadowed_keywords_witness :
  _categorize_item "Toilet Paper 12 rolls" = "Groceries"
  /\ _categorize_item "Paper 12 rolls" = "Household".
Proof.
  split; [|reflexivity].
  apply (shadowed_keywords_are_groceries "toilet"); [cbn; tauto|reflexivity].
Defined.

(** ** The summary report: what the tally holds *)

Lemma amount_in_spec (s : string) :
  (_clean_currency (Some (PStr s)) = Ret None /\ amount_in s = [])
  \/ exists x, _clean_currency (Some (PStr s)) = Ret (Some x)
               /\ amount_in s = [x].
Proof.
  unfold amount_in.
  destruct (clean_currency_text_returns s) as [[x|] ->]; eauto.
Qed.

Lemma sum_of_snoc (l : list float) (x : float) :
  add_amount (sum_of l) x = sum_of (l ++ [x]).
Proof.
  destruct l as [|a l]; [reflexivity|].
  change (sum_of ((a :: l) ++ [x]))
    with (FloatSum (sum_amounts ((a :: l) ++ [x]))).
  now rewrite sum_amounts_snoc.
Qed.

Lemma existsb_eqb_In (x : string) (l : list string) :
  existsb (String.eqb x) l = true <-> In x l.
Proof.
  rewrite existsb_exists. split.
  - intros (y & Hin & E). apply String.eqb_eq in E. now subst.
  - intros H. exists x. split; [exact H|apply String.eqb_refl].
Qed.

Lemma set_add_In (n m : string) (l : list string) :
  In m (set_add n l) <-> m = n \/ In m l.
Proof.
  unfold set_add. destruct (existsb _ _) eqn:E.
  - apply existsb_eqb_In in E. split; [tauto|]. intros [->|H]; assumption.
  - rewrite in_app_iff. cbn. intuition.
Qed.

Lemma set_add_NoDup (n : string) (l : list string) :
  NoDup l -> NoDup (set_add n l).
Proof.
  intros H. unfold set_add. destruct (existsb _ _) eqn:E; [exact H|].
  assert (Hn : ~ In n l).
  { intros Hin. apply existsb_eqb_In in Hin. congruence. }
  clear E. induction H as [|x l Hx Hl IH]; cbn.
  - constructor; [tauto|constructor].
  - constructor.
    + rewrite in_app_iff. cbn. intros [H|[H|[]]]; [tauto|].
      apply Hn. now left.
    + apply IH. intros Hin. apply Hn. now right.
Qed.

Lemma add_to_category_value (k c : string) (x : float)
    (m : list (string * float)) :
  value_of c (add_to_category k x m)
  = if String.eqb k c
    then Some (match value_of k m with
               | Some v => (v + x)%float
               | None => (0 + x)%float
               end)
    else value_of c m.
Proof.
  induction m as [|[k' v] m IH]; cbn [add_to_category value_of].
  - destruct (String.eqb k c); reflexivity.
  - destruct (String.eqb k' k) eqn:E.
    + apply String.eqb_eq in E. subst k'. cbn [value_of].
      destruct (String.eqb k c); reflexivity.
    + cbn [value_of]. rewrite IH.
      destruct (String.eqb k' c) eqn:E'; [|reflexivity].
      apply String.eqb_eq in E'. subst k'.
      now rewrite String.eqb_sym, E.
Qed.

(** The keys of the dictionary after an addition: the category is added to
    them when it is new. *)
Lemma add_to_category_keys (k : string) (x : float)
    (m : list (string * float)) :
  map fst (add_to_category k x m) = set_add k (map fst m).
Proof.
  unfold set_add. induction m as [|[k' v] m IH]; [reflexivity|].
  cbn [add_to_category map fst existsb].
  rewrite (String.eqb_sym k k').
  destruct (String.eqb k' k); [reflexivity|].
  cbn [map fst orb]. rewrite IH. now destruct (existsb _ _).
Qed.

Lemma line_totals_snoc (c : string) (seen : list Item) (it : Item) :
  line_totals c (seen ++ [it])
  = (line_totals c seen
     ++ (if String.eqb (_categorize_item (description it)) c
         then amount_in (total it) else []))%list.
Proof.
  unfold line_totals. rewrite flat_map_app. cbn [flat_map].
  now rewrite app_nil_r.
Qed.

Lemma receipt_totals_snoc (done : list Receipt) (r : Receipt) :
  receipt_totals (done ++ [r])
  = (receipt_totals done ++ amount_in (tr_total (transaction r)))%list.
Proof.
  unfold receipt_totals. rewrite flat_map_app. cbn [flat_map].
  now rewrite app_nil_r.
Qed.

Section TallyProperties.

Context {D : Type}.
Variable to_date : string -> option D.

Lemma tallied_start : tallied [] [] (@tally_start D).
Proof.
  split; cbn; try reflexivity; try constructor.
  - intros [].
  - intros (_ & r & [] & _).
Qed.

Lemma tally_item_tallied (done : list Receipt) (seen : list Item)
    (t : @Tally D) (it : Item) :
  tallied done seen t ->
  exists t', tally_item t it = Ret t' /\ tallied done (seen ++ [it]) t'.
Proof.
  intros [H1 H2 H3 H4 H5 H6 H7]. unfold tally_item. cbv zeta.
  pose proof (categorize_in_names (description it)) as Hcat.
  destruct (amount_in_spec (total it)) as [[-> Ha]|(x & -> & Ha)];
    cbn [bind]; eexists; (split; [reflexivity|]); split;
    cbn [tally_total tally_merchants tally_items tally_dates
         tally_categories]; try assumption.
  - rewrite H2, length_app. cbn. lia.
  - intros c. rewrite line_totals_snoc, Ha.
    destruct (String.eqb _ c); rewrite app_nil_r; apply H7.
  - rewrite H2, length_app. cbn. lia.
  - rewrite add_to_category_keys. now apply set_add_NoDup.
  - rewrite add_to_category_keys. apply Forall_forall.
    intros k Hk. apply set_add_In in Hk as [->|Hk]; [exact Hcat|].
    exact (proj1 (Forall_forall _ _) H6 k Hk).
  - intros c. rewrite add_to_category_value, line_totals_snoc, Ha.
    destruct (String.eqb _ c) eqn:E.
    + apply String.eqb_eq in E. subst c. rewrite H7.
      destruct (line_totals _ seen) as [|a l] eqn:El.
      * reflexivity.
      * cbn [app]. f_equal. symmetry.
        exact (sum_amounts_snoc (a :: l) x).
    + rewrite app_nil_r. apply H7.
Qed.

Lemma tally_items_tallied (done : list Receipt) (l seen : list Item)
    (t : @Tally D) :
  tallied done seen t ->
  exists t', tally_items_of t l = Ret t' /\ tallied done (seen ++ l) t'.
Proof.
  revert seen t. induction l as [|it l IH]; intros seen t H.
  - exists t. rewrite app_nil_r. now split.
  - destruct (tally_item_tallied done seen t it H) as (t1 & E1 & H1).
    destruct (IH _ _ H1) as (t2 & E2 & H2).
    exists t2. cbn [tally_items_of]. rewrite E1. cbn [bind].
    split; [exact E2|]. now rewrite <- app_assoc in H2.
Qed.

Lemma tally_receipt_tallied (done : list Receipt) (seen : list Item)
    (t : @Tally D) (r : Receipt) :
  tallied done seen t ->
  exists t', tally_receipt to_date t r = Ret t'
             /\ tallied (done ++ [r]) (seen ++ items r) t'.
Proof.
  intros [H1 H2 H3 H4 H5 H6 H7]. unfold tally_receipt. cbv zeta.
  assert (Hm : forall m,
             In m (if nonempty (merchant_name (merchant r))
                   then set_add (merchant_name (merchant r)) (tally_merchants t)
                   else tally_merchants t)
             <-> m <> ""
                 /\ exists r', In r' (done ++ [r])
                               /\ merchant_name (merchant r') = m).
  { intros m. destruct (nonempty _) eqn:E.
    - apply nonempty_true in E. rewrite set_add_In, H3. split.
      + intros [->|(Hne & r' & Hin & <-)].
        * split; [exact E|]. exists r. split; [|reflexivity].
          apply in_app_iff. right. now left.
        * split; [exact Hne|]. exists r'. split; [|reflexivity].
          apply in_app_iff. now left.
      + intros (Hne & r' & Hin & <-).
        apply in_app_iff in Hin as [Hin|[<-|[]]]; [right|now left].
        split; [exact Hne|]. now exists r'.
    - apply nonempty_false in E. rewrite H3. split.
      + intros (Hne & r' & Hin & <-). split; [exact Hne|].
        exists r'. split; [|reflexivity]. apply in_app_iff. now left.
      + intros (Hne & r' & Hin & <-).
        apply in_app_iff in Hin as [Hin|[<-|[]]]; [|congruence].
        split; [exact Hne|]. now exists r'. }
  assert (Hn : NoDup (if nonempty (merchant_name (merchant r))
                      then set_add (merchant_name (merchant r))
                             (tally_merchants t)
                      else tally_merchants t)).
  { destruct (nonempty _); [now apply set_add_NoDup|exact H4]. }
  destruct (amount_in_spec (tr_total (transaction r)))
    as [[-> Ha]|(x & -> & Ha)]; cbn [bind];
    apply tally_items_tallied; split;
    cbn [tally_total tally_merchants tally_items tally_dates
         tally_categories]; try assumption.
  - now rewrite receipt_totals_snoc, Ha, app_nil_r.
  - now rewrite receipt_totals_snoc, Ha, H1, sum_of_snoc.
Qed.

Lemma tally_receipts_tallied (l done : list Receipt) (seen : list Item)
    (t : @Tally D) :
  tallied done seen t ->
  exists t', tally_receipts to_date t l = Ret t'
             /\ tallied (done ++ l) (seen ++ all_items l) t'.
Proof.
  revert done seen t. induction l as [|r l IH]; intros done seen t H.
  - exists t. cbn. rewrite !app_nil_r. now split.
  - destruct (tally_receipt_tallied done seen t r H) as (t1 & E1 & H1).
    destruct (IH _ _ _ H1) as (t2 & E2 & H2).
    exists t2. cbn [tally_receipts]. rewrite E1. cbn [bind].
    split; [exact E2|].
    rewrite <- !app_assoc in H2. exact H2.
Qed.

Variable date_ltb : D -> D -> bool.
Variable isoformat : D -> string.

(** The report, and the tally it is made from *)
Lemma report_of_tally (results : list Receipt) :
  exists rep,
    generate_summary_report to_date date_ltb isoformat results = Ret rep
    /\ exists t : @Tally D,
         tallied results (all_items results) t
         /\ total_spending rep = rounded (tally_total t)
         /\ receipt_count rep = Z.of_nat (List.length results)
         /\ merchant_count rep = Z.of_nat (List.length (tally_merchants t))
         /\ item_count rep = tally_items t
         /\ merchants rep = sorted_strs (tally_merchants t)
         /\ categories rep
            = map (fun kv => (fst kv, round2 (snd kv)))
                  (sorted_by_value_desc (tally_categories t)).
Proof.
  destruct results as [|r l].
  - eexists. split; [reflexivity|]. exists tally_start.
    split; [apply tallied_start|]. repeat split.
  - destruct (tally_receipts_tallied (r :: l) [] [] tally_start
                tallied_start) as (t & E & H).
    unfold generate_summary_report. rewrite E. cbn [bind].
    eexists. split; [reflexivity|]. exists t.
    split; [exact H|]. repeat split.
Qed.

End TallyProperties.

(** ** The summary report: the two sorted lists *)

Lemma code_inj (x y : ascii) : code x = code y -> x = y.
Proof.
  unfold code. intros H.
  rewrite <- (ascii_N_embedding x), <- (ascii_N_embedding y). now rewrite H.
Qed.

Lemma str_ltb_total (a b : string) :
  str_ltb a b = false -> a = b \/ str_ltb b a = true.
Proof.
  revert b. induction a as [|x a IH]; intros [|y b] H; cbn in H |- *;
    try discriminate; auto.
  apply orb_false_iff in H as [H1 H2].
  apply N.ltb_ge in H1.
  destruct (N.eqb_spec (code x) (code y)) as [E|E].
  - cbn in H2. apply code_inj in E. subst y.
    destruct (IH b H2) as [->|Hb]; [now left|right].
    now rewrite N.eqb_refl, Hb, orb_true_r.
  - right. apply orb_true_iff. left. apply N.ltb_lt. lia.
Qed.

Lemma str_ltb_trans (a b c : string) :
  str_ltb a b = true -> str_ltb b c = true -> str_ltb a c = true.
Proof.
  revert b c. induction a as [|x a IH]; intros [|y b] [|z c] H1 H2;
    cbn in H1, H2 |- *; try discriminate; auto.
  apply orb_true_iff in H1, H2. apply orb_true_iff.
  destruct H1 as [H1|H1], H2 as [H2|H2];
    rewrite ?andb_true_iff, ?N.ltb_lt, ?N.eqb_eq in *.
  - left. lia.
  - left. destruct H2. lia.
  - left. destruct H1. lia.
  - right. destruct H1 as [E1 H1], H2 as [E2 H2]. split; [congruence|].
    now apply (IH b c).
Qed.

Lemma insert_str_perm (x : string) (l : list string) :
  Permutation (insert_str x l) (x :: l).
Proof.
  induction l as [|y l IH]; [reflexivity|].
  cbn [insert_str]. destruct (str_ltb y x); [|reflexivity].
  rewrite IH. apply perm_swap.
Qed.

Lemma sorted_strs_perm (l : list string) : Permutation (sorted_strs l) l.
Proof.
  induction l as [|x l IH]; [reflexivity|].
  cbn [sorted_strs fold_right]. fold (sorted_strs l).
  rewrite insert_str_perm. now constructor.
Qed.

Lemma insert_str_sorted (x : string) (l : list string) :
  ~ In x l -> Sorted str_lt l -> Sorted str_lt (insert_str x l).
Proof.
  intros Hx Hs. induction Hs as [|y l Hs IH Hy]; cbn [insert_str].
  - repeat constructor.
  - destruct (str_ltb y x) eqn:E.
    + constructor.
      * apply IH. intros H. apply Hx. now right.
      * destruct l as [|z l]; cbn [insert_str]; [now constructor|].
        destruct (str_ltb z x); constructor; [|exact E].
        now inversion Hy.
    + constructor; [now constructor|]. constructor.
      destruct (str_ltb_total _ _ E) as [->|H]; [|exact H].
      exfalso. apply Hx. now left.
Qed.

Lemma sorted_strs_sorted (l : list string) :
  NoDup l -> StronglySorted str_lt (sorted_strs l).
Proof.
  intros H. apply Sorted_StronglySorted.
  { intros a b c. apply str_ltb_trans. }
  induction H as [|x l Hx Hl IH]; [constructor|].
  cbn [sorted_strs fold_right]. fold (sorted_strs l).
  apply insert_str_sorted; [|exact IH].
  intros Hin. apply Hx.
  exact (Permutation_in _ (sorted_strs_perm l) Hin).
Qed.

Lemma insert_by_value_perm (x : string * float) (l : list (string * float)) :
  Permutation (insert_by_value x l) (x :: l).
Proof.
  induction l as [|y l IH]; [reflexivity|].
  cbn [insert_by_value]. destruct (_ <? _)%float; [|reflexivity].
  rewrite IH. apply perm_swap.
Qed.

Lemma sorted_by_value_perm (l : list (string * float)) :
  Permutation (sorted_by_value_desc l) l.
Proof.
  induction l as [|x l IH]; [reflexivity|].
  cbn [sorted_by_value_desc fold_right]. fold (sorted_by_value_desc l).
  rewrite insert_by_value_perm. now constructor.
Qed.

Lemma value_of_In (c : string) (v : float) (m : list (string * float)) :
  NoDup (map fst m) -> value_of c m = Some v <-> In (c, v) m.
Proof.
  induction m as [|[k w] m IH]; cbn [map fst value_of In]; intros Hn.
  - split; [discriminate|tauto].
  - inversion Hn as [|? ? Hk Hm]; subst.
    destruct (String.eqb k c) eqn:E.
    + apply String.eqb_eq in E. subst k. split.
      * intros H. injection H as <-. now left.
      * intros [H|H]; [congruence|].
        exfalso. apply Hk. apply in_map_iff. now exists (c, v).
    + apply String.eqb_neq in E. rewrite (IH Hm). split; [tauto|].
      intros [H|H]; [congruence|exact H].
Qed.

Lemma value_of_perm (c : string) (m m' : list (string * float)) :
  NoDup (map fst m) -> Permutation m m' -> value_of c m' = value_of c m.
Proof.
  intros Hn Hp.
  assert (Hn' : NoDup (map fst m'))
    by exact (Permutation_NoDup (Permutation_map fst Hp) Hn).
  destruct (value_of c m) as [v|] eqn:E.
  - apply (value_of_In c v m Hn) in E. apply (value_of_In c v m' Hn').
    exact (Permutation_in _ Hp E).
  - destruct (value_of c m') as [v|] eqn:E'; [|reflexivity].
    apply (value_of_In c v m' Hn') in E'.
    apply (Permutation_in _ (Permutation_sym Hp)) in E'.
    apply (value_of_In c v m Hn) in E'. congruence.
Qed.

Lemma value_of_map (c : string) (f : float -> float)
    (m : list (string * float)) :
  value_of c (map (fun kv => (fst kv, f (snd kv))) m)
  = option_map f (value_of c m).
Proof.
  induction m as [|[k v] m IH]; [reflexivity|].
  cbn [map value_of fst snd]. destruct (String.eqb k c); [reflexivity|exact IH].
Qed.

Lemma map_fst_map (f : float -> float) (m : list (string * float)) :
  map fst (map (fun kv => (fst kv, f (snd kv))) m) = map fst m.
Proof. rewrite map_map. reflexivity. Qed.

(** ** The summary report *)

(** X14: the loop of the summary over the receipts never raises; and
    whenever the summary returns a report, the report counts every receipt
    and every item of every receipt, and its count of merchants is the
    length of its list of merchants. *)
Theorem summary_counts {D : Type} (to_date : string -> option D)
    (date_ltb : D -> D -> bool) (isoformat : D -> string)
    (results : list Receipt) :
  (exists t : @Tally D, tally_receipts to_date tally_start results = Ret t)
  /\ forall rep,
       generate_summary_report to_date date_ltb isoformat results = Ret rep ->
       receipt_count rep = Z.of_nat (List.length results)
       /\ item_count rep = Z.of_nat (List.length (all_items results))
       /\ merchant_count rep = Z.of_nat (List.length (merchants rep)).
Proof.
  split.
  - destruct (tally_receipts_tallied to_date results [] [] tally_start
                tallied_start) as (t & E & _).
    now exists t.
  - intros rep0 E0.
    destruct (report_of_tally to_date date_ltb isoformat results)
      as (rep & E & t & H & _ & Hr & Hm & Hi & Hs & _).
    rewrite E in E0. injection E0 as <-.
    split; [exact Hr|]. split.
    + rewrite Hi. apply (tallied_items _ _ _ H).
    + rewrite Hm, Hs. f_equal.
      apply Permutation_length. symmetry. apply sorted_strs_perm.
Qed.

Lemma summary_counts_witness :
  exists rep,
    generate_summary_report (fun _ : string => @None Z) Z.ltb
      (fun _ : Z => "") two_receipts = Ret rep
    /\ receipt_count rep = 2
    /\ item_count rep = Z.of_nat (List.length (all_items two_receipts))
    /\ merchant_count rep = Z.of_nat (List.length (merchants rep)).
Proof.
  eexists. split; [reflexivity|].
  destruct (proj2 (summary_counts (fun _ : string => @None Z) Z.ltb
                     (fun _ : Z => "") two_receipts) _ eq_refl)
    as (H1 & H2 & H3).
  split; [exact H1|]. split; [exact H2|exact H3].
Defined.

(** X15: the total spending of the summary is the [int] 0 when no receipt
    has a total that the currency normalizer reads, and otherwise the sum
    of the totals it reads, added from 0.0 in the order of the receipts and
    rounded to two decimals. *)
Theorem summary_total_spending {D : Type} (to_date : string -> option D)
    (date_ltb : D -> D -> bool) (isoformat : D -> string)
    (results : list Receipt) :
  exists rep,
    generate_summary_report to_date date_ltb isoformat results = Ret rep
    /\ total_spending rep
       = match receipt_totals results with
         | [] => PInt 0
         | _ :: _ => PFloat (round2 (sum_amounts (receipt_totals results)))
         end.
Proof.
  destruct (report_of_tally to_date date_ltb isoformat results)
    as (rep & E & t & H & Ht & _).
  exists rep. split; [exact E|].
  rewrite Ht, (tallied_total _ _ _ H).
  now destruct (receipt_totals results).
Qed.

(** X16: the merchants of the summary are the merchant names of the
    receipts that are not empty, each once, in strictly increasing order of
    code points. *)
Theorem summary_merchants {D : Type} (to_date : string -> option D)
    (date_ltb : D -> D -> bool) (isoformat : D -> string)
    (results : list Receipt) :
  exists rep,
    generate_summary_report to_date date_ltb isoformat results = Ret rep
    /\ StronglySorted str_lt (merchants rep)
    /\ forall m, In m (merchants rep)
                 <-> m <> ""
                     /\ exists r, In r results
                                  /\ merchant_name (merchant r) = m.
Proof.
  destruct (report_of_tally to_date date_ltb isoformat results)
    as (rep & E & t & H & _ & _ & _ & _ & Hs & _).
  exists rep. split; [exact E|]. rewrite Hs. split.
  - apply sorted_strs_sorted, (tallied_merchants_nodup _ _ _ H).
  - intros m. rewrite <- (tallied_merchants_in _ _ _ H m).
    split; apply Permutation_in;
      [apply sorted_strs_perm|symmetry; apply sorted_strs_perm].
Qed.

(** X17: the categories of the summary are display names of the
    categorizer, each at most once; a category is there when some item that
    the categorizer puts in it has a line total that the currency
    normalizer reads, and its amount is the sum of those line totals, added
    from 0.0 in the order of the items and rounded to two decimals. *)
Theorem summary_categories {D : Type} (to_date : string -> option D)
    (date_ltb : D -> D -> bool) (isoformat : D -> string)
    (results : list Receipt) :
  exists rep,
    generate_summary_report to_date date_ltb isoformat results = Ret rep
    /\ NoDup (map fst (categories rep))
    /\ Forall (fun k => In k category_names) (map fst (categories rep))
    /\ forall c,
         value_of c (categories rep)
         = match line_totals c (all_items results) with
           | [] => None
           | _ :: _ =>
               Some (round2 (sum_amounts (line_totals c (all_items results))))
           end.
Proof.
  destruct (report_of_tally to_date date_ltb isoformat results)
    as (rep & E & t & H & _ & _ & _ & _ & _ & Hc).
  exists rep. split; [exact E|]. rewrite Hc, map_fst_map.
  pose proof (sorted_by_value_perm (tally_categories t)) as Hp.
  pose proof (tallied_keys_nodup _ _ _ H) as Hn.
  split; [|split].
  - apply (Permutation_NoDup (Permutation_map fst (Permutation_sym Hp)) Hn).
  - apply (Permutation_Forall (Permutation_map fst (Permutation_sym Hp))).
    apply (tallied_keys_named _ _ _ H).
  - intros c. rewrite value_of_map.
    rewrite (value_of_perm c _ _ Hn (Permutation_sym Hp)).
    rewrite (tallied_values _ _ _ H c).
    now destruct (line_totals c (all_items results)).
Qed.

(** ** The rows of the export *)

Lemma bind_ret {A B : Type} (m : outcome A) (k : A -> outcome B) (b : B) :
  bind m k = Ret b -> exists a, m = Ret a /\ k a = Ret b.
Proof. destruct m as [a|e]; [|discriminate]. intros H. now exists a. Qed.

Lemma item_record_spec (r : Receipt) (it : Item) (row : ItemRecord) :
  item_record r it = Ret row ->
  row_copy row = row_source r it
  /\ ir_category row = _categorize_item (description it).
Proof.
  unfold item_record. cbv zeta. intros H.
  repeat (apply bind_ret in H as (? & _ & H)).
  injection H as <-. split; [reflexivity|].
  cbn [ir_category].
  pose proof (categorize_in_names (description it)) as Hin.
  destruct (String.eqb _ "Other") eqn:E; [|reflexivity].
  apply String.eqb_eq in E. rewrite E in Hin. cbn in Hin.
  repeat destruct Hin as [Hin|Hin]; try discriminate Hin. destruct Hin.
Qed.

Lemma item_records_spec (r : Receipt) (l : list Item)
    (rows : list ItemRecord) :
  item_records r l = Ret rows ->
  map row_copy rows = map (row_source r) l
  /\ map ir_category rows
     = map (fun it => _categorize_item (description it)) l.
Proof.
  revert rows. induction l as [|it l IH]; intros rows H; cbn in H.
  - injection H as <-. now split.
  - apply bind_ret in H as (row & Hrow & H).
    apply bind_ret in H as (rows' & Hrows & H).
    injection H as <-.
    destruct (item_record_spec r it row Hrow) as [H1 H2].
    destruct (IH rows' Hrows) as [H3 H4].
    cbn [map]. now rewrite H1, H2, H3, H4.
Qed.

Lemma receipt_record_id (r : Receipt) (rec : ReceiptRecord) :
  receipt_record r = Ret rec -> rr_receipt_id rec = image_id r.
Proof.
  unfold receipt_record. cbv zeta. intros H.
  repeat (apply bind_ret in H as (? & _ & H)).
  now injection H as <-.
Qed.

(** X18: when the export data are prepared without a fault, there is one
    receipt row for each receipt and one item row for each item, in order;
    an item row copies the identifier, the date and the merchant of its
    receipt and the description and the tax status of its item; its
    category is what the categorizer gives for the description, so the
    replacement of ["Other"] by ["Uncategorized"] never applies; and there
    are no tax rows. *)
Theorem export_rows_follow_items (results : list Receipt)
    (receipt_data : list ReceiptRecord) (items_data : list ItemRecord)
    (tax_data : list unit) :
  _prepare_excel_data results = Ret (receipt_data, items_data, tax_data) ->
  map rr_receipt_id receipt_data = map image_id results
  /\ map row_copy items_data
     = flat_map (fun r => map (row_source r) (items r)) results
  /\ map ir_category items_data
     = map (fun it => _categorize_item (description it)) (all_items results)
  /\ tax_data = [].
Proof.
  revert receipt_data items_data tax_data.
  induction results as [|r results IH]; intros rd idata td H; cbn in H.
  - injection H as <- <- <-. now repeat split.
  - apply bind_ret in H as (rec & Hrec & H).
    apply bind_ret in H as (rows & Hrows & H).
    apply bind_ret in H as ([[rd' idata'] td'] & Hrest & H).
    injection H as <- <- <-.
    destruct (IH _ _ _ Hrest) as (H1 & H2 & H3 & H4).
    destruct (item_records_spec r (items r) rows Hrows) as [H5 H6].
    cbn [map flat_map all_items].
    rewrite !map_app, (receipt_record_id r rec Hrec), H1, H2, H5, H6.
    fold (all_items results). rewrite H3. now repeat split.
Qed.

Lemma export_rows_witness :
  exists receipt_data items_data,
    _prepare_excel_data two_receipts = Ret (receipt_data, items_data, [])
    /\ map rr_receipt_id receipt_data = [Some "a.jpg"; Some "unknown"]
    /\ map ir_category items_data = ["Household"].
Proof.
  assert (H : exists receipt_data items_data,
             _prepare_excel_data two_receipts
             = Ret (receipt_data, items_data, [])).
  { do 2 eexists. vm_compute. reflexivity. }
  destruct H as (rd & idata & H). exists rd, idata.
  destruct (export_rows_follow_items two_receipts rd idata [] H)
    as (H1 & _ & H3 & _).
  split; [exact H|]. split; [exact H1|exact H3].
Defined.

(** ** Strings: occurrences in the lower-case form *)

Lemma lower_app (a b : string) : lower (a ++ b) = lower a ++ lower b.
Proof.
  induction a as [|c a IH]; [reflexivity|]. cbn. now rewrite IH.
Qed.

Lemma lower_plain_fold (c : ascii) :
  lower_plain c = true -> fold_case c = c.
Proof.
  destruct c as [[] [] [] [] [] [] [] []]; vm_compute; intros H;
    first [discriminate H | reflexivity].
Qed.

(** A character whose lower-case form is ASCII folds onto that form. *)
Lemma fold_lower_char (x : ascii) :
  is_ascii (lower_char x) = true -> fold_case x = lower_char x.
Proof.
  destruct x as [[] [] [] [] [] [] [] []]; vm_compute; intros H;
    first [discriminate H | reflexivity].
Qed.

(** A character that folds onto an ASCII character has that character as
    its lower-case form. *)
Lemma lower_fold_char (x : ascii) :
  is_ascii (fold_case x) = true -> lower_char x = fold_case x.
Proof.
  destruct x as [[] [] [] [] [] [] [] []]; vm_compute; intros H;
    first [discriminate H | reflexivity].
Qed.

Lemma lower_of_folded (m p : string) :
  all_chars lower_plain p = true ->
  fold_string m = fold_string p -> lower m = p.
Proof.
  revert p. induction m as [|x m IH]; intros [|c p] Hp H; cbn in H;
    try discriminate; [reflexivity|].
  cbn in Hp. apply andb_true_iff in Hp as [Hc Hp].
  injection H as Hx Hm.
  rewrite (lower_plain_fold c Hc) in Hx.
  cbn [lower]. rewrite (IH p Hp Hm). f_equal.
  rewrite lower_fold_char; [exact Hx|].
  rewrite Hx. unfold lower_plain in Hc. now apply andb_true_iff in Hc as [-> _].
Qed.

Lemma prefix_of_lower (p d : string) :
  all_chars lower_plain p = true ->
  prefix p (lower d) = true ->
  exists m b, d = m ++ b /\ fold_string m = fold_string p.
Proof.
  revert d. induction p as [|c p IH]; intros d Hp H.
  - now exists "", d.
  - cbn in Hp. apply andb_true_iff in Hp as [Hc Hp].
    destruct d as [|x d]; [discriminate H|].
    cbn [lower] in H. apply prefix_cons in H as [-> H].
    destruct (IH d Hp H) as (m & b & -> & Hm).
    exists (String x m), b. split; [reflexivity|].
    cbn. rewrite Hm. f_equal.
    rewrite (lower_plain_fold _ Hc). apply fold_lower_char.
    unfold lower_plain in Hc. now apply andb_true_iff in Hc as [-> _].
Qed.

(** To occur in the lower-case form of a text is to occur in the text up
    to case. *)
Lemma contains_lower_iff (p d : string) :
  all_chars lower_plain p = true ->
  contains p (lower d) = true <-> occurs_ci p d.
Proof.
  intros Hp. split.
  - induction d as [|x d IH]; intros H.
    + cbn in H. rewrite orb_false_r in H.
      destruct p; [|discriminate]. now exists "", "", "".
    + cbn [lower contains] in H. apply orb_true_iff in H as [H|H].
      * destruct (prefix_of_lower p (String x d) Hp H) as (m & b & Hd & Hm).
        exists "", m, b. now split.
      * destruct (IH H) as (a & m & b & -> & Hm).
        exists (String x a), m, b. now split.
  - intros (a & m & b & -> & Hm).
    rewrite !lower_app, (lower_of_folded m p Hp Hm). apply contains_app.
Qed.

(** ** The rows of the workbook: the tax columns *)

(** X19: the test for an Ontario address holds exactly when the two
    letters ["on"] occur in the address, in any letter case; the second
    test, for ["ONTARIO"], adds nothing. *)
Theorem ontario_test_is_two_letters (address : string) :
  is_ontario address = true <-> occurs_ci "on" address.
Proof.
  unfold is_ontario. cbv zeta.
  assert (H : contains "ON" (upper address) = true <-> occurs_ci "ON" address)
    by (apply contains_upper_iff; [reflexivity|discriminate]).
  assert (Hci : occurs_ci "ON" address <-> occurs_ci "on" address)
    by (unfold occurs_ci; reflexivity).
  rewrite <- Hci, <- H. split.
  - intros Hor. apply orb_true_iff in Hor as [Hor|Hor]; [exact Hor|].
    eapply contains_trans; [|exact Hor]. reflexivity.
  - intros ->. reflexivity.
Qed.

(** X20: for a receipt without the key [raw_data], as the assembler
    builds them, a row of the workbook is [TAXABLE] exactly when its description
    mentions a reusable bag (["bag"] and ["reusable"], in any letter case),
    and then its tax is 13 percent of its total, rounded to two decimals,
    for an Ontario address, and 0.0 otherwise; any other row is [EXEMPT],
    with tax 0.0 and a final price equal to its total. *)
Theorem excel_tax_on_reusable_bags_only (result : Receipt) (ontario : bool)
    (item : Item) (row : ExcelRow) :
  excel_row result ontario item = Ret row ->
  (reusable_bag (description item)
   /\ xr_tax_status row = "TAXABLE"
   /\ xr_tax_amount row
      = if ontario then round2 (xr_total row * HST_RATE) else 0%float)
  \/ (~ reusable_bag (description item)
      /\ xr_tax_status row = "EXEMPT"
      /\ xr_tax_amount row = 0%float
      /\ xr_final_price row = xr_total row).
Proof.
  unfold excel_row. cbv zeta. intros H.
  apply bind_ret in H as (q & _ & H).
  apply bind_ret in H as (p & _ & H).
  apply bind_ret in H as (t & _ & H).
  apply bind_ret in H as (s & _ & H).
  injection H as <-.
  cbn [xr_tax_status xr_tax_amount xr_final_price xr_total].
  change (contains "HC" "") with false. cbn [andb orb].
  assert (Hb := contains_lower_iff "bag" (description item) eq_refl).
  assert (Hr := contains_lower_iff "reusable" (description item) eq_refl).
  unfold reusable_bag.
  destruct (contains "bag" _); destruct (contains "reusable" _);
    cbn [andb];
    [left; repeat split; try tauto; now destruct ontario | right ..];
    (split; [intros [H1 H2]; apply Hb in H1; apply Hr in H2; discriminate|]);
    repeat split.
Qed.

Lemma excel_tax_witness :
  exists row,
    excel_row (_get_empty_result None) true bag_item = Ret row
    /\ reusable_bag (description bag_item)
    /\ xr_tax_status row = "TAXABLE"
    /\ xr_tax_amount row = 0.07%float.
Proof.
  assert (H : exists row,
             excel_row (_get_empty_result None) true bag_item = Ret row)
    by (eexists; vm_compute; reflexivity).
  destruct H as [row H]. exists row. split; [exact H|].
  destruct (excel_tax_on_reusable_bags_only _ _ _ _ H)
    as [(H1 & H2 & H3)|(_ & H2 & _)].
  - split; [exact H1|]. split; [exact H2|].
    rewrite H3. vm_compute in H. injection H as <-. reflexivity.
  - vm_compute in H. injection H as <-. discriminate H2.
Defined.

(** ** [utils.py]: the currency helper *)

Lemma digits_group3 (s : string) :
  all_chars is_ascii_digit s = true ->
  filter_chars is_digit_or_dot (group3 s) = s.
Proof.
  induction s as [|c s IH]; [reflexivity|].
  cbn [all_chars group3 filter_chars]. intros H.
  apply andb_true_iff in H as [Hc Hs].
  unfold is_digit_or_dot at 1. rewrite Hc. cbn [orb]. f_equal.
  destruct (_ && _); [|now apply IH].
  cbn. now apply IH.
Qed.

(** What the helper keeps of a formatted amount is the plain numeral
    without its sign. *)
Lemma digits_of_formatted (ws1 mark1 mark2 ws2 : string) (d : Numeral) :
  well_formed d ->
  all_chars not_digit_or_dot ws1 = true ->
  all_chars not_digit_or_dot mark1 = true ->
  all_chars not_digit_or_dot mark2 = true ->
  all_chars not_digit_or_dot ws2 = true ->
  filter_chars is_digit_or_dot (format_currency ws1 mark1 mark2 ws2 d)
  = plain (magnitude d).
Proof.
  intros (Hi & Hne & Hf) H1 H2 H3 H4. unfold format_currency, plain.
  rewrite !filter_chars_app.
  rewrite (filter_chars_none _ ws1), (filter_chars_none _ mark1),
    (filter_chars_none _ mark2), (filter_chars_none _ ws2) by assumption.
  rewrite (digits_group3 _ Hi).
  replace (filter_chars is_digit_or_dot (sign_text d)) with ""
    by (unfold sign_text; now destruct (negative d)).
  cbn [append sign_text magnitude negative int_part].
  rewrite append_empty_r. f_equal.
  unfold fraction_text, with_point. cbn [frac_part magnitude].
  assert (Hd : filter_chars is_digit_or_dot (frac_part d) = frac_part d).
  { apply filter_chars_all. eapply all_chars_impl; [|exact Hf].
    intros x Hx. unfold is_digit_or_dot. now rewrite Hx. }
  destruct (frac_part d) as [|c f]; [reflexivity|].
  change ("." ++ String c f) with (String "." (String c f)).
  cbn [filter_chars].
  change (is_digit_or_dot ".") with true. cbv iota. f_equal. exact Hd.
Qed.

(** X21: [normalize_currency] reads a decimal numeral written with commas
    between the groups of three digits and with any characters other than
    digits and points around it and after its sign (white space, currency
    symbols of any kind, letters) as the number that the numeral denotes
    without its sign: the sign is deleted with the rest. *)
Theorem normalize_currency_reads_magnitude (ws1 mark1 mark2 ws2 : string)
    (d : Numeral) :
  well_formed d ->
  all_chars not_digit_or_dot ws1 = true ->
  all_chars not_digit_or_dot mark1 = true ->
  all_chars not_digit_or_dot mark2 = true ->
  all_chars not_digit_or_dot ws2 = true ->
  normalize_currency (format_currency ws1 mark1 mark2 ws2 d)
  = Ret (Some (float_of_numeral (magnitude d))).
Proof.
  intros Hw H1 H2 H3 H4. unfold normalize_currency. cbv zeta.
  rewrite digits_of_formatted by assumption.
  now rewrite (float_of_str_plain (magnitude d) Hw).
Qed.

Lemma normalize_currency_witness :
  format_currency " " pound "CAD" "" amount_minus_1234_50
  = String " " (pound ++ "-CAD1,234.50")
  /\ normalize_currency (format_currency " " pound "CAD" "" amount_minus_1234_50)
     = Ret (Some 1234.5%float).
Proof.
  split; [reflexivity|].
  refine (eq_trans (normalize_currency_reads_magnitude " " pound "CAD" ""
                      amount_minus_1234_50 _ _ _ _ _) _);
    try reflexivity.
  repeat split. discriminate.
Defined.

Lemma normalize_currency_returns (amount : string) :
  exists r, normalize_currency amount = Ret r.
Proof.
  unfold normalize_currency. cbv zeta.
  destruct (float_of_str _) as [f|e] eqn:E; [now eexists|].
  apply float_of_str_raises in E as ->. now eexists.
Qed.

Lemma digit_or_dot_facts (c : ascii) :
  is_digit_or_dot c = true ->
  numeral_char c = true /\ Ascii.eqb c "-" = false /\ Ascii.eqb c "+" = false
  /\ Ascii.eqb c "i" = false /\ Ascii.eqb c "n" = false
  /\ (is_ascii_digit c = false -> c = "."%char)
  /\ (is_ascii_digit c = true -> Ascii.eqb "." c = false).
Proof.
  destruct c as [[] [] [] [] [] [] [] []]; vm_compute; intros H;
    first [discriminate H | repeat split; intros; congruence].
Qed.

(** Reading digits stops at the first character that is not one. *)
Lemma read_digits_split (s : string) (a : N) (n : nat) :
  exists ds r a',
    s = ds ++ r /\ all_chars is_ascii_digit ds = true
    /\ starts_with_digit r = false
    /\ read_digits s a n = (a', (n + String.length ds)%nat, r).
Proof.
  revert a n. induction s as [|c s IH]; intros a n.
  - exists "", "", a. cbn. now rewrite Nat.add_0_r.
  - destruct (is_ascii_digit c) eqn:E.
    + destruct (IH (a * 10 + digit_value c)%N (S n))
        as (ds & r & a' & -> & Hds & Hr & Hrd).
      exists (String c ds), r, a'. cbn. rewrite E, Hrd.
      repeat split; try assumption. f_equal. f_equal. lia.
    + exists "", (String c s), a. cbn. rewrite E, Nat.add_0_r.
      now repeat split.
Qed.

Lemma digits_no_point (ds : string) :
  all_chars is_ascii_digit ds = true ->
  count_char "." ds = 0%nat /\ filter_chars is_ascii_digit ds = ds.
Proof.
  intros H. split; [|now apply filter_chars_all].
  induction ds as [|c ds IH]; [reflexivity|].
  cbn in H. apply andb_true_iff in H as [Hc Hs].
  rewrite count_char_cons, (IH Hs).
  assert (Hd : is_digit_or_dot c = true) by (unfold is_digit_or_dot; now rewrite Hc).
  destruct (digit_or_dot_facts c Hd) as (_ & _ & _ & _ & _ & _ & Hp).
  now rewrite (Hp Hc).
Qed.

Lemma count_char_app (c : ascii) (a b : string) :
  count_char c (a ++ b) = (count_char c a + count_char c b)%nat.
Proof.
  induction a as [|x a IH]; [reflexivity|].
  cbn [append]. rewrite !count_char_cons, IH. lia.
Qed.

Lemma digits_in_app (a b : string) :
  digits_in (a ++ b) = (digits_in a + digits_in b)%nat.
Proof.
  unfold digits_in. rewrite filter_chars_app.
  induction (filter_chars is_ascii_digit a) as [|x t IH]; [reflexivity|].
  cbn. now rewrite IH.
Qed.

(** The numerals made of digits and points that [float] accepts: at least
    one digit, at most one point. *)
Lemma read_number_digits_points (s : string) :
  all_chars is_digit_or_dot s = true ->
  read_number false s = None
  <-> digits_in s = 0%nat \/ (2 <= points_in s)%nat.
Proof.
  intros Hs. unfold read_number, points_in.
  destruct (read_digits_split s 0 0) as (ds & r & a & -> & Hds & Hr & ->).
  destruct (digits_no_point ds Hds) as [Hp Hf].
  rewrite count_char_app, digits_in_app, Hp. unfold digits_in at 1.
  rewrite Hf. cbn [Nat.add].
  rewrite all_chars_app in Hs. apply andb_true_iff in Hs as [_ Hs].
  destruct r as [|c r].
  - cbn. destruct (String.length ds); [|cbn]; split; intros H;
      try discriminate; auto; destruct H; [discriminate|lia]. 
  - cbn in Hs, Hr. apply andb_true_iff in Hs as [Hc Hs].
    destruct (digit_or_dot_facts c Hc) as (_ & _ & _ & _ & _ & Hdot & _).
    rewrite (Hdot Hr).
    destruct (read_digits_split r a 0) as (ds2 & r2 & a2 & -> & Hds2 & Hr2 & ->).
    destruct (digits_no_point ds2 Hds2) as [Hp2 Hf2].
    change (digits_in (String "." (ds2 ++ r2))) with (digits_in (ds2 ++ r2)).
    rewrite count_char_cons, count_char_app, digits_in_app, Hp2.
    unfold digits_in at 1. rewrite Hf2.
    cbn [Ascii.eqb Bool.eqb Nat.add].
    rewrite all_chars_app in Hs. apply andb_true_iff in Hs as [_ Hs2].
    destruct r2 as [|c2 r2].
    + cbn. rewrite !Nat.add_0_r.
      destruct (String.length ds + String.length ds2)%nat eqn:El.
      * split; [now left|reflexivity].
      * cbn. split; [discriminate|]. intros [H|H]; [discriminate|lia].
    + cbn in Hs2, Hr2. apply andb_true_iff in Hs2 as [Hc2 _].
      destruct (digit_or_dot_facts c2 Hc2) as (_ & _ & _ & _ & _ & Hdot2 & _).
      rewrite (Hdot2 Hr2). rewrite count_char_cons. cbn [Ascii.eqb Bool.eqb].
      split; [intros _; right; lia|intros _].
      now destruct (_ + _)%nat.
Qed.

Lemma float_of_digits_points (s : string) :
  all_chars is_digit_or_dot s = true ->
  float_of_str s = match read_number false s with
                   | Some f => Ret f
                   | None => Raise ValueError
                   end.
Proof.
  intros Hs.
  assert (Hn : all_chars numeral_char s = true).
  { eapply all_chars_impl; [|exact Hs]. intros c H.
    now destruct (digit_or_dot_facts c H) as (-> & _). }
  unfold float_of_str.
  rewrite strip_nothing
    by (eapply all_chars_impl; [|exact Hn]; intros c H;
        now destruct (numeral_char_facts c H) as (-> & _)).
  rewrite underscores_ok_none
    by (eapply all_chars_impl; [|exact Hn]; intros c H;
        now destruct (numeral_char_facts c H) as (_ & -> & _)).
  rewrite filter_chars_all
    by (eapply all_chars_impl; [|exact Hn]; intros c H;
        now destruct (numeral_char_facts c H) as (_ & -> & _)).
  assert (Hsign : read_sign s = (false, s)).
  { destruct s as [|c s]; [reflexivity|].
    cbn in Hs. apply andb_true_iff in Hs as [Hc _].
    destruct (digit_or_dot_facts c Hc) as (_ & Hm & Hp & _).
    unfold read_sign.
    destruct c as [[] [] [] [] [] [] [] []]; try reflexivity; discriminate. }
  rewrite Hsign, (lower_numeral s Hn).
  assert (Hw : String.eqb s "inf" || String.eqb s "infinity" = false
               /\ String.eqb s "nan" = false).
  { destruct s as [|c s]; [now split|].
    cbn in Hs. apply andb_true_iff in Hs as [Hc _].
    destruct (digit_or_dot_facts c Hc) as (_ & _ & _ & Hi & Hnn & _).
    cbn. now rewrite Hi, Hnn. }
  destruct Hw as [-> ->]. reflexivity.
Qed.

Lemma kept_digits_points (s : string) :
  all_chars is_digit_or_dot (filter_chars is_digit_or_dot s) = true.
Proof.
  induction s as [|c s IH]; [reflexivity|].
  cbn. destruct (is_digit_or_dot c) eqn:E; [|exact IH].
  cbn. now rewrite E.
Qed.

Lemma digits_in_kept (s : string) :
  digits_in (filter_chars is_digit_or_dot s) = digits_in s.
Proof.
  unfold digits_in. f_equal.
  induction s as [|c s IH]; [reflexivity|].
  cbn. unfold is_digit_or_dot at 1.
  destruct (is_ascii_digit c) eqn:E; cbn; rewrite ?E.
  - now rewrite IH.
  - destruct (Ascii.eqb c "."); cbn; rewrite ?E; exact IH.
Qed.

Lemma points_in_kept (s : string) :
  points_in (filter_chars is_digit_or_dot s) = points_in s.
Proof.
  unfold points_in.
  induction s as [|c s IH]; [reflexivity|].
  cbn [filter_chars]. unfold is_digit_or_dot at 1.
  rewrite count_char_cons, (Ascii.eqb_sym "." c).
  destruct (Ascii.eqb c ".") eqn:E.
  - rewrite orb_true_r, count_char_cons, (Ascii.eqb_sym "." c), E. now rewrite IH.
  - rewrite orb_false_r. destruct (is_ascii_digit c).
    + rewrite count_char_cons, (Ascii.eqb_sym "." c), E. now rewrite IH.
    + exact IH.
Qed.

(** X22: [normalize_currency] never raises, and it returns [None] exactly
    for a text without a decimal digit or with two points or more (those of
    the words around the amount count too). *)
Theorem normalize_currency_none_iff (amount : string) :
  (exists r, normalize_currency amount = Ret r)
  /\ (normalize_currency amount = Ret None
      <-> digits_in amount = 0%nat \/ (2 <= points_in amount)%nat).
Proof.
  split; [apply normalize_currency_returns|].
  unfold normalize_currency. cbv zeta.
  rewrite (float_of_digits_points _ (kept_digits_points amount)).
  rewrite <- (digits_in_kept amount), <- (points_in_kept amount).
  rewrite <- (read_number_digits_points _ (kept_digits_points amount)).
  destruct (read_number false _); cbn; split; congruence.
Qed.

(** ** [utils.py]: the type of a receipt *)

Lemma mentions_test (words : list string) (text : string) :
  Forall (fun w => all_chars lower_plain w = true) words ->
  existsb (fun w => contains w (lower text)) words = true
  <-> mentions words text.
Proof.
  intros Hw. rewrite existsb_exists. unfold mentions.
  split; intros (w & Hin & H); exists w; (split; [exact Hin|]);
    apply (contains_lower_iff w text); try exact H;
    exact (proj1 (Forall_forall _ _) Hw w Hin).
Qed.

(** X23: the type of a receipt is decided by the words that occur in its
    text, in any letter case, the restaurant words first: ["restaurant"]
    when ["restaurant"], ["cafe"] or ["food"] occurs; else ["retail"] when
    ["retail"], ["store"] or ["shop"] occurs; else ["service"] when
    ["service"] or ["bill"] occurs; else ["unknown"]. *)
Theorem detect_receipt_type_by_words (text : string) :
  (mentions restaurant_words text -> detect_receipt_type text = "restaurant")
  /\ (~ mentions restaurant_words text -> mentions retail_words text ->
      detect_receipt_type text = "retail")
  /\ (~ mentions restaurant_words text -> ~ mentions retail_words text ->
      mentions service_words text -> detect_receipt_type text = "service")
  /\ (~ mentions restaurant_words text -> ~ mentions retail_words text ->
      ~ mentions service_words text -> detect_receipt_type text = "unknown").
Proof.
  assert (H1 := mentions_test restaurant_words text).
  assert (H2 := mentions_test retail_words text).
  assert (H3 := mentions_test service_words text).
  cbn [existsb restaurant_words retail_words service_words] in H1, H2, H3.
  rewrite orb_false_r in H1, H2, H3.
  unfold detect_receipt_type. cbv zeta.
  rewrite <- !orb_assoc.
  specialize (H1 ltac:(repeat constructor)).
  specialize (H2 ltac:(repeat constructor)).
  specialize (H3 ltac:(repeat constructor)).
  destruct (_ || _) in H1 |- *; destruct (_ || _) in H2 |- *;
    destruct (_ || _) in H3 |- *;
    repeat split; intros; try reflexivity; exfalso;
    intuition discriminate.
Qed.

(** ** [utils.py]: the cleaning of a text *)

Lemma collapse_chars (b : bool) (s : string) :
  all_chars (fun c => negb (is_space c) || Ascii.eqb c " ")
    (collapse_spaces b s) = true.
Proof.
  revert b. induction s as [|c s IH]; intros b; [reflexivity|].
  cbn [collapse_spaces]. destruct (is_space c) eqn:E.
  - destruct b; [apply IH|]. cbn [all_chars]. now rewrite IH.
  - cbn [all_chars]. now rewrite E, IH.
Qed.

Lemma all_chars_filter (p keep : ascii -> bool) (s : string) :
  all_chars p s = true ->
  all_chars (fun c => keep c && p c) (filter_chars keep s) = true.
Proof.
  induction s as [|c s IH]; [reflexivity|].
  cbn [all_chars filter_chars]. intros H.
  apply andb_true_iff in H as [Hc Hs].
  destruct (keep c) eqn:E; [|now apply IH].
  cbn [all_chars]. now rewrite E, Hc, IH.
Qed.

Lemma all_chars_drop (p q : ascii -> bool) (s : string) :
  all_chars p s = true -> all_chars p (drop_while q s) = true.
Proof.
  induction s as [|c s IH]; [reflexivity|].
  cbn [all_chars drop_while]. intros H.
  destruct (q c); [|exact H].
  apply andb_true_iff in H as [_ Hs]. now apply IH.
Qed.

Lemma all_chars_strip (p : ascii -> bool) (s : string) :
  all_chars p s = true -> all_chars p (strip s) = true.
Proof.
  intros H. unfold strip.
  rewrite all_chars_rev. cbn [all_chars]. rewrite andb_true_r.
  apply all_chars_drop. rewrite all_chars_rev. cbn [all_chars].
  rewrite andb_true_r. now apply all_chars_drop.
Qed.

Lemma drop_while_first (p : ascii -> bool) (s : string) :
  match first_char (drop_while p s) with
  | Some c => p c = false
  | None => True
  end.
Proof.
  induction s as [|c s IH]; [exact I|].
  cbn [drop_while]. destruct (p c) eqn:E; [exact IH|exact E].
Qed.

Lemma rev_string_app (s acc : string) :
  rev_string acc s = rev_string "" s ++ acc.
Proof.
  revert acc. induction s as [|c s IH]; intros acc; [reflexivity|].
  cbn [rev_string]. rewrite (IH (String c acc)), (IH (String c "")).
  now rewrite append_assoc.
Qed.

Lemma drop_while_snoc (p : ascii -> bool) (a : string) (c : ascii) :
  p c = false ->
  drop_while p (a ++ String c "") = drop_while p a ++ String c "".
Proof.
  intros Hc. induction a as [|x a IH]; cbn [append drop_while].
  - now rewrite Hc.
  - destruct (p x); [exact IH|reflexivity].
Qed.

Lemma rev_string_snoc (a : string) (c : ascii) :
  rev_string "" (a ++ String c "") = String c (rev_string "" a).
Proof.
  induction a as [|x a IH]; [reflexivity|].
  cbn [append rev_string].
  rewrite (rev_string_app (a ++ String c "")), IH.
  cbn [append]. now rewrite <- rev_string_app.
Qed.

(** What [strip] returns neither starts nor ends with white space. *)
Lemma strip_ends (s : string) :
  not_space (first_char (strip s)) /\ not_space (last_char (strip s)).
Proof.
  unfold strip, last_char.
  pose proof (drop_while_first is_space s) as H1.
  pose proof (drop_while_first is_space
                (rev_string "" (drop_while is_space s))) as H2.
  split.
  - destruct (drop_while is_space s) as [|c t]; [exact I|].
    cbn [first_char] in H1. cbn [rev_string].
    rewrite (rev_string_app t), drop_while_snoc by exact H1.
    rewrite rev_string_snoc. exact H1.
  - rewrite rev_string_twice. cbn [rev_string].
    rewrite append_empty_r. exact H2.
Qed.

Lemma text_char_clean (c : ascii) :
  text_char c && (negb (is_space c) || Ascii.eqb c " ") = true ->
  clean_char c = true.
Proof.
  destruct c as [[] [] [] [] [] [] [] []]; vm_compute; intros H;
    first [discriminate H | reflexivity].
Qed.

(** X24: a cleaned text is made of word characters, spaces, points, commas
    and dollar signs only (every other white space has become a space), and
    neither starts nor ends with a space. *)
Theorem clean_text_is_trimmed (text : string) :
  all_chars clean_char (clean_text text) = true
  /\ not_space (first_char (clean_text text))
  /\ not_space (last_char (clean_text text)).
Proof.
  unfold clean_text. cbv zeta. split; [|apply strip_ends].
  apply all_chars_strip.
  eapply all_chars_impl; [exact text_char_clean|].
  apply all_chars_filter, collapse_chars.
Qed.

(** ** [utils.py]: the lines of items *)

Lemma split_words_token (w cur rest : string) :
  all_chars (fun c => negb (is_space c)) w = true ->
  split_words cur (w ++ rest) = split_words (rev_string cur w) rest.
Proof.
  revert cur. induction w as [|c w IH]; intros cur H; [reflexivity|].
  cbn [all_chars] in H. apply andb_true_iff in H as [Hc Hw].
  apply negb_true_iff in Hc.
  cbn [append split_words rev_string]. rewrite Hc. now apply IH.
Qed.

Lemma rev_string_nonempty (w acc : string) :
  w <> "" -> is_empty (rev_string acc w) = false.
Proof.
  intros H. rewrite rev_string_app.
  rewrite is_empty_app.
  destruct w as [|c w]; [congruence|].
  cbn [rev_string]. rewrite (rev_string_app w). rewrite is_empty_app.
  cbn. now rewrite andb_false_r.
Qed.

Lemma rev_rev (w : string) : rev_string "" (rev_string "" w) = w.
Proof.
  rewrite rev_string_twice. cbn [rev_string]. apply append_empty_r.
Qed.

(** Words joined by single spaces are split into the same words. *)
Lemma split_join (ws : list string) :
  Forall token ws -> split_words "" (join_space ws) = ws.
Proof.
  induction ws as [|w ws IH]; intros H; [reflexivity|].
  inversion H as [|? ? [Hne Hw] Hws]; subst.
  destruct ws as [|w' ws].
  - cbn [join_space]. rewrite <- (append_empty_r w) at 1.
    rewrite split_words_token by exact Hw.
    cbn [split_words]. rewrite rev_string_nonempty by exact Hne.
    now rewrite rev_rev.
  - change (join_space (w :: w' :: ws))
      with (w ++ " " ++ join_space (w' :: ws)).
    rewrite split_words_token by exact Hw.
    cbn [append split_words]. change (is_space " ") with true. cbv iota.
    rewrite rev_string_nonempty by exact Hne.
    rewrite rev_rev. f_equal. now apply IH.
Qed.

(** [process_items] never raises, so that the decorator never runs it a
    second time. *)
Lemma process_items_returns (items : list string) :
  exists rows, process_items items = Ret rows.
Proof.
  induction items as [|item items [rows IH]]; [now eexists|].
  cbn [process_items]. unfold process_item. cbv zeta.
  destruct (3 <=? _)%nat.
  - destruct (normalize_currency_returns
                (nth (List.length (split_words "" item) - 1)
                   (split_words "" item) "")) as [p ->].
    cbn [bind]. rewrite IH. now eexists.
  - cbn [bind]. rewrite IH. now eexists.
Qed.

(** X25: a line made of the words of a name, a quantity and a price,
    separated by single spaces, is read back as that name (its words joined
    by spaces), that quantity and the price that [normalize_currency] reads
    in the last word. *)
Theorem process_items_reads_line (name : list string) (q p : string) :
  name <> [] -> Forall token name -> token q -> token p ->
  exists price,
    normalize_currency p = Ret price
    /\ process_items [join_space (name ++ [q; p])]
       = Ret [ {| item_name := join_space name; item_quantity := q;
                  item_price := price |} ].
Proof.
  intros Hne Hname Hq Hp.
  destruct (normalize_currency_returns p) as [price Hprice].
  exists price. split; [exact Hprice|].
  cbn [process_items]. unfold process_item. cbv zeta.
  rewrite split_join
    by (apply Forall_app; split;
        [exact Hname|repeat (constructor; try assumption)]).
  rewrite length_app. cbn [List.length].
  assert (Hlen : (3 <=? List.length name + 2)%nat = true).
  { apply Nat.leb_le. destruct name; [congruence|cbn; lia]. }
  rewrite Hlen.
  replace (List.length name + 2 - 1)%nat with (List.length name + 1)%nat by lia.
  replace (List.length name + 2 - 2)%nat with (List.length name + 0)%nat by lia.
  rewrite !app_nth2_plus. cbn [nth].
  rewrite Nat.add_0_r, firstn_app, firstn_all, Nat.sub_diag. cbn [firstn].
  rewrite app_nil_r, Hprice. reflexivity.
Qed.

Lemma process_items_witness :
  exists price,
    normalize_currency "$4.99" = Ret price
    /\ process_items ["Whole Milk 2% 2 $4.99"]
       = Ret [ {| item_name := "Whole Milk 2%"; item_quantity := "2";
                  item_price := price |} ].
Proof.
  apply (process_items_reads_line ["Whole"; "Milk"; "2%"] "2" "$4.99");
    [discriminate| |split; [discriminate|reflexivity] ..].
  repeat constructor; discriminate.
Defined.

(** * Reading back what [str] prints

    [str] of a float prints the shortest decimal numeral that reads back as
    the float.  That it does read back is proved here for the numerals in
    plain notation: the division and the conversion of integers of
    [SpecFloat] round to nearest, ties to even; the digits found by the
    search, and the seventeen digits it falls back on, are near enough to
    the float to round to it; and the numeral printed has the value of
    these digits. *)

(** ** Rounding to nearest *)

Section NearestProperties.

Local Open Scope Q_scope.

Lemma bpow_pos (e : Z) : 0 < bpow e.
Proof. apply Qpower_0_lt. reflexivity. Qed.

Lemma bpow_add (a b : Z) : bpow (a + b) == bpow a * bpow b.
Proof. apply Qpower_plus. discriminate. Qed.

Lemma bpow_lt (a b : Z) : (a < b)%Z -> bpow a < bpow b.
Proof. intros H. apply Qpower_lt_compat_l; [exact H|reflexivity]. Qed.

Lemma bpow_le (a b : Z) : (a <= b)%Z -> bpow a <= bpow b.
Proof. intros H. apply Qpower_le_compat_l; [exact H|discriminate]. Qed.

Lemma bpow_Z (k : Z) : (0 <= k)%Z -> bpow k == inject_Z (2 ^ k).
Proof. intros H. unfold bpow. now rewrite Zpower_Qpower. Qed.

Lemma bpow_succ (a : Z) : bpow (a + 1) == 2 * bpow a.
Proof. rewrite bpow_add. change (bpow 1) with 2. ring. Qed.

Lemma bpow_pred (a : Z) : bpow (a - 1) == (1 # 2) * bpow a.
Proof.
  replace a with ((a - 1) + 1)%Z at 2 by lia. rewrite bpow_succ. ring.
Qed.

Lemma inject_Z_succ (k : Z) : inject_Z (k + 1) == inject_Z k + 1.
Proof. now rewrite inject_Z_plus. Qed.

Lemma inject_Z_pred (k : Z) : inject_Z (k - 1) == inject_Z k - 1.
Proof. unfold Z.sub. now rewrite inject_Z_plus. Qed.

Lemma Qfloor_unique (y : Q) (k : Z) :
  inject_Z k <= y -> y < inject_Z (k + 1) -> Qfloor y = k.
Proof.
  intros H1 H2.
  pose proof (Qfloor_le y) as F1. pose proof (Qlt_floor y) as F2.
  assert (A : (Qfloor y < k + 1)%Z).
  { rewrite Zlt_Qlt. lra. }
  assert (B : (k < Qfloor y + 1)%Z).
  { rewrite Zlt_Qlt. lra. }
  lia.
Qed.

Lemma rhe_comp (y y' : Q) : y == y' -> rhe y = rhe y'.
Proof.
  intros H. unfold rhe. rewrite (Qfloor_comp _ _ H).
  now rewrite H.
Qed.

Lemma rhe_near (y : Q) (M : Z) :
  inject_Z M - (1 # 2) < y -> y < inject_Z M + (1 # 2) -> rhe y = M.
Proof.
  intros H1 H2. unfold rhe.
  destruct (Qlt_le_dec y (inject_Z M)) as [Hlt|Hge].
  - assert (Hf : Qfloor y = (M - 1)%Z).
    { apply Qfloor_unique.
      - rewrite inject_Z_pred. lra.
      - replace (M - 1 + 1)%Z with M by lia. exact Hlt. }
    rewrite Hf.
    assert (Hc : Qcompare (y - inject_Z (M - 1)) (1 # 2) = Gt).
    { apply (proj1 (Qgt_alt _ _)). rewrite inject_Z_pred. lra. }
    rewrite Hc. lia.
  - assert (Hf : Qfloor y = M).
    { apply Qfloor_unique; [exact Hge|].
      rewrite inject_Z_succ. lra. }
    rewrite Hf.
    assert (Hc : Qcompare (y - inject_Z M) (1 # 2) = Lt).
    { apply (proj1 (Qlt_alt _ _)). lra. }
    now rewrite Hc.
Qed.

Lemma rhe_Z (M : Z) : rhe (inject_Z M) = M.
Proof. apply rhe_near; lra. Qed.

Lemma rhe_err (y : Q) :
  inject_Z (rhe y) - (1 # 2) <= y /\ y <= inject_Z (rhe y) + (1 # 2).
Proof.
  unfold rhe.
  pose proof (Qfloor_le y) as F1. pose proof (Qlt_floor y) as F2.
  rewrite inject_Z_succ in F2.
  destruct (Qcompare (y - inject_Z (Qfloor y)) (1 # 2)) eqn:E.
  - apply (proj2 (Qeq_alt _ _)) in E.
    destruct (Z.even (Qfloor y)); rewrite ?inject_Z_succ; lra.
  - apply (proj2 (Qlt_alt _ _)) in E. lra.
  - apply (proj2 (Qgt_alt _ _)) in E. rewrite inject_Z_succ. lra.
Qed.

(** [round_half_even] on a fraction *)
Lemma round_half_even_rhe (a : Z) (b : positive) :
  round_half_even a (Zpos b) = rhe (a # b).
Proof.
  unfold round_half_even, rhe. cbv zeta.
  change (Qfloor (a # b)) with (a / Zpos b)%Z.
  assert (Hc : Qcompare ((a # b) - inject_Z (a / Zpos b)) (1 # 2)
               = (2 * (a mod Zpos b) ?= Zpos b)%Z).
  { unfold Qcompare, Qminus, Qplus, Qopp, inject_Z. cbn [Qnum Qden].
    rewrite Z.mod_eq by discriminate.
    rewrite Pos.mul_1_r. rewrite !Z.mul_1_r.
    replace ((a + - (a / Z.pos b) * Z.pos b) * 2)%Z
      with (2 * (a - Z.pos b * (a / Z.pos b)))%Z by ring.
    reflexivity. }
  rewrite Hc. reflexivity.
Qed.

Lemma represents_floor (y : Q) (rec : shr_record) :
  represents y rec -> Qfloor y = shr_m rec.
Proof.
  intros (fr & Hy & H0 & H1 & _). apply Qfloor_unique.
  - lra.
  - rewrite inject_Z_succ. lra.
Qed.

Lemma represents_comp (y y' : Q) (rec : shr_record) :
  y == y' -> represents y rec -> represents y' rec.
Proof.
  intros E (fr & Hy & H). exists fr. split; [|exact H]. now rewrite <- E.
Qed.

Lemma inject_Z_xO (p : positive) : inject_Z (Zpos p~0) == 2 * inject_Z (Zpos p).
Proof. rewrite Pos2Z.inj_xO, inject_Z_mult. reflexivity. Qed.

Lemma inject_Z_xI (p : positive) :
  inject_Z (Zpos p~1) == 2 * inject_Z (Zpos p) + 1.
Proof. rewrite Pos2Z.inj_xI, inject_Z_plus, inject_Z_mult. reflexivity. Qed.

Ltac bits_step :=
  unfold frac_bits in *; cbn [shr_r shr_s shr_m] in *;
  repeat match goal with
         | H : _ /\ _ |- _ => destruct H
         | |- _ /\ _ => split
         | |- _ <-> _ => split; intros
         | H : ?b = true <-> _ |- _ =>
             destruct b;
             [pose proof (proj1 H eq_refl); clear H
             |let N := fresh "N" in
              assert (N : ~ _) by
                (let K := fresh in intros K; apply (proj2 H) in K;
                 discriminate K);
              clear H]
         end.

Lemma shr_1_represents (y : Q) (rec : shr_record) :
  represents y rec -> represents ((1 # 2) * y) (shr_1 rec).
Proof.
  intros (fr & Hy & H0 & H1 & Hm & Hb).
  destruct rec as [m r s]. cbn [shr_m shr_r shr_s] in *.
  destruct m as [|[p|p|]|p]; try lia; cbn [shr_1 shr_m shr_r shr_s].
  - exists ((1 # 2) * fr). cbn [shr_m shr_r shr_s].
    change (inject_Z 0) with 0 in *.
    split; [lra|]. split; [lra|]. split; [lra|].
    split; [lia|]. bits_step; try lra.

  - exists ((1 # 2) * (1 + fr)). rewrite inject_Z_xI in Hy.
    cbn [shr_m shr_r shr_s].
    split; [lra|]. split; [lra|]. split; [lra|].
    split; [lia|]. bits_step; try lra.
  - exists ((1 # 2) * fr). rewrite inject_Z_xO in Hy.
    cbn [shr_m shr_r shr_s].
    split; [lra|]. split; [lra|]. split; [lra|].
    split; [lia|]. bits_step; try lra.
  - exists ((1 # 2) * (1 + fr)). cbn [shr_m shr_r shr_s].
    change (inject_Z 1) with 1 in *. change (inject_Z 0) with 0 in *.
    split; [lra|]. split; [lra|]. split; [lra|].
    split; [lia|]. bits_step; try lra.
Qed.

Lemma bpow_neg_succ (n : nat) :
  bpow (- Z.of_nat (S n)) == (1 # 2) * bpow (- Z.of_nat n).
Proof.
  replace (- Z.of_nat (S n))%Z with (- Z.of_nat n + -1)%Z by lia.
  rewrite bpow_add. change (bpow (-1)) with (1 # 2). ring.
Qed.

Lemma shr_iter_represents (n : nat) (y : Q) (rec : shr_record) :
  represents y rec ->
  represents (y * bpow (- Z.of_nat n)) (Nat.iter n shr_1 rec).
Proof.
  intros H. induction n as [|n IH].
  - cbn [Nat.iter]. apply (represents_comp y); [|exact H].
    change (bpow (- Z.of_nat 0)) with 1. ring.
  - cbn [Nat.iter]. apply shr_1_represents in IH.
    apply (represents_comp _ (y * bpow (- Z.of_nat (S n)))) in IH;
      [exact IH|].
    rewrite bpow_neg_succ. ring.
Qed.

(** Shifting right by [k] bits, [k] not negative *)
Lemma shr_represents (y : Q) (rec : shr_record) (e k : Z) :
  (0 <= k)%Z -> represents y rec ->
  snd (shr rec e k) = (e + k)%Z
  /\ represents (y * bpow (- k)) (fst (shr rec e k)).
Proof.
  intros Hk H. destruct k as [|p|p]; [| |lia].
  - cbn [shr fst snd]. split; [lia|].
    apply (represents_comp y); [|exact H].
    change (bpow (- 0)) with 1. ring.
  - cbn [shr fst snd]. split; [reflexivity|].
    rewrite iter_pos_nat.
    replace (Z.pos p) with (Z.of_nat (Pos.to_nat p)) by apply positive_nat_Z.
    now apply shr_iter_represents.
Qed.

Lemma exact_represents (M : Z) :
  (0 <= M)%Z -> represents (inject_Z M) (shr_record_of_loc M loc_Exact).
Proof.
  intros H. exists 0. cbn [shr_record_of_loc shr_m shr_r shr_s].
  split; [ring|]. split; [lra|]. split; [lra|]. split; [exact H|].
  split; split; intros K; try discriminate K; lra.
Qed.

Lemma new_location_spec (d r : Z) :
  (0 <= r < d)%Z ->
  new_location d r
  = if (r =? 0)%Z then loc_Exact else loc_Inexact (2 * r ?= d)%Z.
Proof.
  intros H. unfold new_location, new_location_even, new_location_odd.
  destruct (Z.even d) eqn:Ev; [reflexivity|].
  destruct (r =? 0)%Z; [reflexivity|]. f_equal.
  assert (Ho : Z.odd d = true) by (rewrite <- Z.negb_even, Ev; reflexivity).
  apply Z.odd_spec in Ho. destruct Ho as [c Hc].
  destruct (Z.compare_spec (2 * r + 1) d), (Z.compare_spec (2 * r) d);
    try reflexivity; lia.
Qed.

Lemma div_represents (A : Z) (B : positive) :
  (0 <= A)%Z ->
  represents (A # B)
    (shr_record_of_loc (A / Zpos B) (new_location (Zpos B) (A mod Zpos B))).
Proof.
  intros HA.
  pose proof (Z.mod_pos_bound A (Zpos B) eq_refl) as Hr.
  pose proof (Z.div_mod A (Zpos B) ltac:(discriminate)) as Hd.
  rewrite (new_location_spec _ _ Hr).
  exists ((A mod Zpos B) # B).
  assert (Hq : (0 <= A / Zpos B)%Z) by (apply Z.div_pos; lia).
  assert (E : A # B == inject_Z (A / Zpos B) + ((A mod Zpos B) # B)).
  { unfold Qeq, Qplus, inject_Z. cbn [Qnum Qden].
    rewrite Pos.mul_1_l. nia. }
  assert (F0 : 0 <= (A mod Zpos B) # B) by (unfold Qle; cbn; lia).
  assert (F1 : (A mod Zpos B) # B < 1) by (unfold Qlt; cbn; lia).
  assert (Hhalf : forall c, (2 * (A mod Zpos B) ?= Zpos B)%Z = c ->
                  Qcompare ((A mod Zpos B) # B) (1 # 2) = c).
  { intros c <-. unfold Qcompare. cbn [Qnum Qden].
    now rewrite Z.mul_comm, Z.mul_1_l. }
  destruct (Z.eqb_spec (A mod Zpos B) 0) as [Ez|Ez].
  - cbn [shr_record_of_loc shr_m shr_r shr_s].
    split; [exact E|]. split; [exact F0|]. split; [exact F1|].
    split; [exact Hq|]. rewrite Ez.
    split; split; intros K; try discriminate K;
      unfold Qle, Qlt in K; cbn in K; lia.
  - destruct (2 * (A mod Zpos B) ?= Zpos B)%Z eqn:C;
      pose proof (Hhalf _ eq_refl) as Hc;
      [apply (proj2 (Qeq_alt _ _)) in Hc
      |apply (proj2 (Qlt_alt _ _)) in Hc
      |apply (proj2 (Qgt_alt _ _)) in Hc];
      cbn [shr_record_of_loc shr_m shr_r shr_s];
      (split; [exact E|]); (split; [exact F0|]); (split; [exact F1|]);
      (split; [exact Hq|]);
      assert (Fp : 0 < (A mod Zpos B) # B) by (unfold Qlt; cbn; lia);
      split; split; intros K; try discriminate K; try reflexivity; lra.
Qed.

Lemma round_nearest_even_rhe (y : Q) (rec : shr_record) :
  represents y rec ->
  round_nearest_even (shr_m rec) (loc_of_shr_record rec) = rhe y.
Proof.
  intros H. pose proof (represents_floor y rec H) as Hf.
  destruct H as (fr & Hy & H0 & H1 & Hm & Hb).
  unfold rhe. rewrite Hf.
  assert (E : y - inject_Z (shr_m rec) == fr) by lra.
  rewrite E. destruct rec as [m r s]. cbn [shr_m shr_r shr_s] in *.
  destruct Hb as [Hr Hs].
  destruct (Qcompare fr (1 # 2)) eqn:C;
    [apply (proj2 (Qeq_alt _ _)) in C
    |apply (proj2 (Qlt_alt _ _)) in C
    |apply (proj2 (Qgt_alt _ _)) in C].
  - assert (r = true) by (apply Hr; lra).
    assert (s = false).
    { destruct s; [|reflexivity]. destruct (proj1 Hs eq_refl); lra. }
    subst. reflexivity.
  - assert (r = false).
    { destruct r; [|reflexivity]. pose proof (proj1 Hr eq_refl). lra. }
    subst. destruct s; reflexivity.
  - assert (r = true) by (apply Hr; lra).
    assert (s = true) by (apply Hs; right; lra).
    subst. reflexivity.
Qed.

Lemma digits2_bounds (p : positive) :
  (2 ^ (Zpos (digits2_pos p) - 1) <= Zpos p < 2 ^ Zpos (digits2_pos p))%Z.
Proof.
  induction p as [p IH|p IH|]; cbn [digits2_pos].
  - rewrite Pos2Z.inj_succ, Z.pow_succ_r by lia.
    replace (Z.succ (Z.pos (digits2_pos p)) - 1)%Z
      with (Z.succ (Z.pos (digits2_pos p) - 1)) by lia.
    rewrite Z.pow_succ_r by lia. lia.
  - rewrite Pos2Z.inj_succ, Z.pow_succ_r by lia.
    replace (Z.succ (Z.pos (digits2_pos p)) - 1)%Z
      with (Z.succ (Z.pos (digits2_pos p) - 1)) by lia.
    rewrite Z.pow_succ_r by lia. lia.
  - cbn. lia.
Qed.

Lemma digits2_binade (p : positive) :
  binade (inject_Z (Zpos p)) (Zpos (digits2_pos p)).
Proof.
  destruct (digits2_bounds p) as [H1 H2]. split.
  - rewrite bpow_Z by lia. now rewrite <- Zle_Qle.
  - rewrite bpow_Z by lia. now rewrite <- Zlt_Qlt.
Qed.

Lemma bpow_lt_inv (a b : Z) : bpow a < bpow b -> (a < b)%Z.
Proof.
  intros H. destruct (Z_lt_le_dec a b) as [L|L]; [exact L|].
  apply bpow_le in L. lra.
Qed.

Lemma binade_unique (x : Q) (a b : Z) : binade x a -> binade x b -> a = b.
Proof.
  intros [A1 A2] [B1 B2].
  assert (H1 : bpow (a - 1) < bpow b) by lra.
  assert (H2 : bpow (b - 1) < bpow a) by lra.
  apply bpow_lt_inv in H1, H2. lia.
Qed.

Lemma binade_comp (x y : Q) (a : Z) : x == y -> binade x a -> binade y a.
Proof. intros E [H1 H2]. split; rewrite <- E; assumption. Qed.

Lemma binade_scale (x : Q) (a k : Z) :
  binade (x * bpow (- k)) a -> binade x (a + k).
Proof.
  intros [H1 H2].
  pose proof (bpow_pos k) as Hk. pose proof (bpow_pos (- k)) as Hk'.
  assert (E : bpow (- k) * bpow k == 1).
  { rewrite <- bpow_add. replace (- k + k)%Z with 0%Z by lia. reflexivity. }
  split.
  - replace (a + k - 1)%Z with ((a - 1) + k)%Z by lia. rewrite bpow_add.
    set (u := bpow (a - 1)) in *. set (v := bpow k) in *.
    set (w := bpow (- k)) in *.
    assert (u * v <= x * w * v) by (apply Qmult_le_compat_r; lra).
    assert (x * w * v == x) by (rewrite <- Qmult_assoc, E; ring).
    lra.
  - rewrite bpow_add.
    set (u := bpow a) in *. set (v := bpow k) in *.
    set (w := bpow (- k)) in *.
    assert (x * w * v < u * v) by (apply Qmult_lt_compat_r; lra).
    assert (x * w * v == x) by (rewrite <- Qmult_assoc, E; ring).
    lra.
Qed.

(** The position of a number from its floor at a given exponent *)
Lemma floor_binade (x : Q) (e : Z) (p : positive) :
  Qfloor (x * bpow (- e)) = Zpos p -> binade x (Zpos (digits2_pos p) + e).
Proof.
  intros Hf. apply binade_scale.
  pose proof (Qfloor_le (x * bpow (- e))) as F1.
  pose proof (Qlt_floor (x * bpow (- e))) as F2.
  rewrite Hf in F1, F2.
  destruct (digits2_binade p) as [B1 B2].
  split; [lra|].
  assert (H : inject_Z (Zpos p + 1) <= bpow (Zpos (digits2_pos p))).
  { rewrite bpow_Z by lia. rewrite <- Zle_Qle.
    destruct (digits2_bounds p). lia. }
  lra.
Qed.

Lemma fexp_mono (a b : Z) : (a <= b)%Z -> (fexp64 a <= fexp64 b)%Z.
Proof. unfold fexp64, fexp. lia. Qed.

Lemma fexp_spec (a : Z) : fexp64 a = Z.max (a - 53) (-1074).
Proof. reflexivity. Qed.

Lemma is_rne_unique (x : Q) (g1 g2 : spec_float) :
  is_rne x g1 -> is_rne x g2 -> g1 = g2.
Proof.
  intros (a & Ha & ->) (b & Hb & ->).
  now rewrite (binade_unique x a b Ha Hb).
Qed.

Lemma is_rne_comp (x y : Q) (g : spec_float) :
  x == y -> is_rne x g -> is_rne y g.
Proof.
  intros E (a & Ha & ->). exists a. split; [now apply (binade_comp x)|].
  f_equal. apply rhe_comp. now rewrite E.
Qed.

(** A fraction against the powers of two, from the lengths in bits of its
    numerator and denominator *)
Lemma ratio_bounds (n d : positive) :
  let L := (Zpos (digits2_pos n) - Zpos (digits2_pos d))%Z in
  bpow (L - 1) < Zpos n # d /\ Zpos n # d < bpow (L + 1).
Proof.
  intros L.
  destruct (digits2_binade n) as [N1 N2].
  destruct (digits2_binade d) as [D1 D2].
  set (x := Zpos n # d).
  assert (Ex : x * inject_Z (Zpos d) == inject_Z (Zpos n)).
  { unfold x, Qeq, Qmult, inject_Z. cbn [Qnum Qden]. nia. }
  assert (Hd : 0 < inject_Z (Zpos d)) by (unfold Qlt; cbn; lia).
  assert (Hx : 0 < x) by (unfold x, Qlt; cbn; lia).
  pose proof (bpow_pos (L - 1)) as P1. pose proof (bpow_pos (L + 1)) as P2.
  split.
  - assert (E : bpow (L - 1) * bpow (Zpos (digits2_pos d))
                == bpow (Zpos (digits2_pos n) - 1)).
    { rewrite <- bpow_add. unfold L.
      replace (Z.pos (digits2_pos n) - Z.pos (digits2_pos d) - 1
               + Z.pos (digits2_pos d))%Z
        with (Z.pos (digits2_pos n) - 1)%Z by lia. reflexivity. }
    set (u := bpow (L - 1)) in *. set (b := bpow (Zpos (digits2_pos d))) in *.
    set (dd := inject_Z (Zpos d)) in *.
    assert (u * dd < u * b) by (apply Qmult_lt_l; lra).
    assert (K : u * dd < x * dd) by lra.
    destruct (Qlt_le_dec u x) as [|G]; [assumption|].
    assert (x * dd <= u * dd) by (apply Qmult_le_compat_r; lra). lra.
  - assert (E : bpow (L + 1) * bpow (Zpos (digits2_pos d) - 1)
                == bpow (Zpos (digits2_pos n))).
    { rewrite <- bpow_add. unfold L.
      replace (Z.pos (digits2_pos n) - Z.pos (digits2_pos d) + 1
               + (Z.pos (digits2_pos d) - 1))%Z
        with (Z.pos (digits2_pos n)) by lia. reflexivity. }
    set (u := bpow (L + 1)) in *.
    set (b := bpow (Zpos (digits2_pos d) - 1)) in *.
    set (dd := inject_Z (Zpos d)) in *.
    assert (u * b <= u * dd) by (apply Qmult_le_l; lra).
    assert (K : x * dd < u * dd) by lra.
    destruct (Qlt_le_dec x u) as [|G]; [assumption|].
    assert (u * dd <= x * dd) by (apply Qmult_le_compat_r; lra). lra.
Qed.

(** Every positive fraction lies between two consecutive powers of two. *)
Lemma binade_exists (n d : positive) : exists ex, binade (Zpos n # d) ex.
Proof.
  destruct (ratio_bounds n d) as [Lo Hi].
  set (L := (Zpos (digits2_pos n) - Zpos (digits2_pos d))%Z) in *.
  destruct (Qlt_le_dec (Zpos n # d) (bpow L)) as [C|C].
  - exists L. split; [lra|exact C].
  - exists (L + 1)%Z. split; [|exact Hi].
    replace (L + 1 - 1)%Z with L by lia. exact C.
Qed.

Lemma bpow_opp (e : Z) : bpow (- e) == / bpow e.
Proof. apply Qpower_opp. Qed.

Lemma bpow_cancel (e : Z) : bpow (- e) * bpow e == 1.
Proof.
  rewrite <- bpow_add. replace (- e + e)%Z with 0%Z by lia. reflexivity.
Qed.

Lemma shr_m_of_loc (m : Z) (l : location) : shr_m (shr_record_of_loc m l) = m.
Proof. destruct l as [|[]]; reflexivity. Qed.

(** [binary_round_aux] rounds to nearest even the number whose floor and
    location it is given, when the exponent given is not above the
    exponent of the result. *)
Lemma round_aux_rne (x : Q) (m0 e0 : Z) (l0 : location) :
  (exists ex, binade x ex) ->
  represents (x * bpow (- e0)) (shr_record_of_loc m0 l0) ->
  (e0 <= fexp64 (Zdigits2 m0 + e0))%Z ->
  is_rne x (binary_round_aux prec emax false m0 e0 l0).
Proof.
  intros [ex0 Hex0] Hrep Hle.
  set (t := fexp64 (Zdigits2 m0 + e0)) in *.
  pose proof (represents_floor _ _ Hrep) as Hfl. rewrite shr_m_of_loc in Hfl.
  assert (Hm0 : (0 <= m0)%Z).
  { destruct Hrep as (fr & _ & _ & _ & H & _).
    now rewrite shr_m_of_loc in H. }
  destruct (shr_represents _ (shr_record_of_loc m0 l0) e0 (t - e0)
              ltac:(lia) Hrep) as [Hs Hr].
  unfold binary_round_aux, shr_fexp. fold fexp64. fold t.
  destruct (shr (shr_record_of_loc m0 l0) e0 (t - e0)) as [mrs' e'].
  cbn [fst snd] in Hs, Hr.
  assert (He' : e' = t) by lia. clear Hs. subst e'.
  assert (E : x * bpow (- e0) * bpow (- (t - e0)) == x * bpow (- t)).
  { rewrite <- Qmult_assoc, <- bpow_add.
    now replace (- e0 + - (t - e0))%Z with (- t)%Z by lia. }
  apply (represents_comp _ _ _ E) in Hr.
  rewrite (round_nearest_even_rhe _ _ Hr).
  change (is_rne x (finish (rhe (x * bpow (- t))) t)).
  assert (Ht : exists ex, binade x ex /\ fexp64 ex = t).
  { destruct m0 as [|p|p]; [| |lia].
    - exists ex0. split; [exact Hex0|].
      pose proof (Qlt_floor (x * bpow (- e0))) as F. rewrite Hfl in F.
      change (inject_Z (0 + 1)) with 1 in F.
      pose proof (bpow_pos e0) as P. pose proof (bpow_cancel e0) as C.
      assert (Hx : x < bpow e0).
      { set (u := bpow e0) in *. set (w := bpow (- e0)) in *.
        assert (x * w * u < 1 * u) by (apply Qmult_lt_compat_r; lra).
        assert (x * w * u == x) by (rewrite <- Qmult_assoc, C; ring).
        lra. }
      destruct Hex0 as [B1 _].
      assert (L : bpow (ex0 - 1) < bpow e0) by lra.
      apply bpow_lt_inv in L.
      unfold t in *. cbn [Zdigits2] in *. rewrite !fexp_spec in *. lia.
    - exists (Zpos (digits2_pos p) + e0)%Z. split; [|reflexivity].
      now apply floor_binade. }
  destruct Ht as (ex & Hb & Hf). exists ex. split; [exact Hb|].
  rewrite Hf. f_equal. apply rhe_comp.
  unfold Qdiv. now rewrite bpow_opp.
Qed.

Lemma mul_bpow_lt (x : Q) (e : Z) (c : Q) :
  x * bpow (- e) < c -> x < c * bpow e.
Proof.
  intros H. pose proof (bpow_pos e) as P. pose proof (bpow_cancel e) as C.
  set (u := bpow e) in *. set (w := bpow (- e)) in *.
  assert (x * w * u < c * u) by (apply Qmult_lt_compat_r; lra).
  assert (x * w * u == x) by (rewrite <- Qmult_assoc, C; ring).
  lra.
Qed.

(** The division of two positive integers, as [SFdiv] computes it, is
    their quotient rounded to nearest even. *)
Lemma div_rne (n d : positive) :
  is_rne (Zpos n # d)
    (SFdiv prec emax (S754_finite false n 0) (S754_finite false d 0)).
Proof.
  cbn [SFdiv xorb]. unfold SFdiv_core_binary. cbn [Zdigits2].
  set (L := (Zpos (digits2_pos n) - Zpos (digits2_pos d))%Z).
  replace (Z.pos (digits2_pos n) + 0 - (Z.pos (digits2_pos d) + 0))%Z
    with L by (unfold L; lia).
  change (0 - 0)%Z with 0%Z. fold fexp64.
  set (e' := Z.min (fexp64 L) 0).
  assert (He : (e' <= 0 /\ e' <= fexp64 L)%Z) by (unfold e'; lia).
  set (m' := match (0 - e')%Z with
             | 0%Z => Z.pos n
             | Z.pos _ => Z.shiftl (Z.pos n) (0 - e')
             | Z.neg _ => 0%Z
             end).
  assert (Hm : m' = (Zpos n * 2 ^ (- e'))%Z).
  { unfold m'. replace (0 - e')%Z with (- e')%Z by lia.
    destruct (- e')%Z as [|k|k] eqn:E; [cbn; lia| |lia].
    now rewrite Z.shiftl_mul_pow2 by lia. }
  assert (Hmp : (0 <= m')%Z) by (rewrite Hm; apply Z.mul_nonneg_nonneg; lia).
  pose proof (div_represents m' d Hmp) as Hrep.
  unfold Z.div, Z.modulo in Hrep.
  destruct (Z.div_eucl m' (Z.pos d)) as [q r].
  assert (Ex : m' # d == (Zpos n # d) * bpow (- e')).
  { rewrite bpow_Z by lia. rewrite Hm.
    unfold Qeq, Qmult, inject_Z. cbn [Qnum Qden]. nia. }
  apply (represents_comp _ _ _ Ex) in Hrep.
  apply round_aux_rne; [apply binade_exists|exact Hrep|].
  pose proof (represents_floor _ _ Hrep) as Hfl. rewrite shr_m_of_loc in Hfl.
  destruct (ratio_bounds n d) as [Lo Hi]. fold L in Lo, Hi.
  destruct q as [|p|p].
  - pose proof (Qlt_floor ((Zpos n # d) * bpow (- e'))) as F.
    rewrite Hfl in F. change (inject_Z (0 + 1)) with 1 in F.
    apply mul_bpow_lt in F.
    assert (K : bpow (L - 1) < bpow e') by lra.
    apply bpow_lt_inv in K. cbn [Zdigits2].
    rewrite !fexp_spec in *. lia.
  - apply floor_binade in Hfl. destruct Hfl as [_ B2].
    assert (K : bpow (L - 1) < bpow (Zpos (digits2_pos p) + e')) by lra.
    apply bpow_lt_inv in K. cbn [Zdigits2].
    rewrite !fexp_spec in *. lia.
  - destruct Hrep as (fr & _ & _ & _ & H & _).
    rewrite shr_m_of_loc in H. lia.
Qed.

(** A positive integer, as [binary_normalize] converts it, is rounded to
    nearest even. *)
Lemma normalize_rne (p : positive) :
  is_rne (inject_Z (Zpos p)) (binary_normalize prec emax (Zpos p) 0 false).
Proof.
  cbn [binary_normalize]. unfold binary_round, shl_align. fold fexp64.
  set (t := fexp64 (Zpos (digits2_pos p) + 0)).
  assert (Ht : t = fexp64 (Zpos (digits2_pos p))) by (unfold t; f_equal; lia).
  assert (Hex : exists ex, binade (inject_Z (Zpos p)) ex)
    by (eexists; apply digits2_binade).
  destruct (t - 0)%Z as [|k|k] eqn:E.
  - apply round_aux_rne; [exact Hex| |cbn [Zdigits2]; fold t; lia].
    apply (represents_comp (inject_Z (Zpos p))); [|apply exact_represents; lia].
    change (bpow (- 0)) with 1. ring.
  - apply round_aux_rne; [exact Hex| |cbn [Zdigits2]; fold t; lia].
    apply (represents_comp (inject_Z (Zpos p))); [|apply exact_represents; lia].
    change (bpow (- 0)) with 1. ring.
  - assert (Hk : t = Zneg k) by lia.
    apply round_aux_rne; [exact Hex| |].
    + apply (represents_comp (inject_Z (Zpos (Pos.iter xO p k))));
        [|apply exact_represents; lia].
      rewrite pos_iter_nat, Zpos_shift, positive_nat_Z, Hk.
      change (- Zneg k)%Z with (Zpos k). rewrite bpow_Z by lia.
      now rewrite inject_Z_mult.
    + cbn [Zdigits2]. rewrite pos_iter_nat, digits2_shift, positive_nat_Z.
      replace (Z.pos (digits2_pos p) + Z.pos k + t)%Z
        with (Z.pos (digits2_pos p)) by lia.
      rewrite <- Ht. lia.
Qed.

Lemma ten_pow_Z (k : Z) : (0 <= k)%Z -> ten_pow k == inject_Z (10 ^ k).
Proof. intros H. unfold ten_pow. now rewrite Zpower_Qpower. Qed.

Lemma ten_pow_pos (e : Z) : 0 < ten_pow e.
Proof. apply Qpower_0_lt. reflexivity. Qed.

Lemma ten_pow_add (a b : Z) : ten_pow (a + b) == ten_pow a * ten_pow b.
Proof. apply Qpower_plus. discriminate. Qed.

Lemma ten_pow_opp (e : Z) : ten_pow (- e) == / ten_pow e.
Proof. apply Qpower_opp. Qed.

(** What reading a decimal numeral gives: the nearest binary64 number. *)
Lemma float_of_decimal_rne (p : positive) (e10 : Z) :
  exists g, float_of_decimal false (Npos p) e10 = SF2Prim g
            /\ is_rne (inject_Z (Zpos p) * ten_pow e10) g.
Proof.
  unfold float_of_decimal. destruct e10 as [|k|k].
  - eexists. split; [reflexivity|].
    rewrite Z.pow_0_r, Z.mul_1_r.
    apply (is_rne_comp (inject_Z (Zpos p))); [|apply normalize_rne].
    change (ten_pow 0) with 1. ring.
  - eexists. split; [reflexivity|].
    assert (H : (0 < 10 ^ Zpos k)%Z) by (apply Z.pow_pos_nonneg; lia).
    destruct (Zpos p * 10 ^ Zpos k)%Z as [|q|q] eqn:E; try lia.
    apply (is_rne_comp (inject_Z (Zpos q))); [|apply normalize_rne].
    rewrite <- E, inject_Z_mult, ten_pow_Z by lia. reflexivity.
  - unfold float_of_ratio. eexists. split; [reflexivity|].
    apply (is_rne_comp (Zpos p # (10 ^ k)%positive)); [|apply div_rne].
    change (Zneg k) with (- Zpos k)%Z. rewrite ten_pow_opp, ten_pow_Z by lia.
    rewrite <- Pos2Z.inj_pow.
    unfold Qeq, Qmult, Qinv, inject_Z. cbn [Qnum Qden]. lia.
Qed.

Lemma bounded_facts (m : positive) (e : Z) :
  bounded prec emax m e = true ->
  fexp64 (Zpos (digits2_pos m) + e) = e /\ (e <= 971)%Z
  /\ (Zpos (digits2_pos m) <= 53)%Z /\ (-1074 <= e)%Z
  /\ ((-1074 < e)%Z -> Zpos (digits2_pos m) = 53%Z).
Proof.
  unfold bounded, canonical_mantissa. intros H.
  apply andb_true_iff in H as [Hc He].
  apply Z.eqb_eq in Hc. apply Z.leb_le in He.
  change (fexp prec emax) with fexp64 in Hc.
  change (emax - prec)%Z with 971%Z in He.
  pose proof Hc as Hc'. rewrite fexp_spec in Hc'.
  repeat split; try assumption; lia.
Qed.

Lemma finish_bounded (m : positive) (e : Z) :
  bounded prec emax m e = true ->
  finish (Zpos m) e = S754_finite false m e.
Proof.
  intros Hb. pose proof Hb as Hb'. unfold bounded in Hb'.
  apply andb_true_iff in Hb' as [Hc He].
  unfold finish. rewrite (shr_fexp_canonical m e Hc).
  cbn [shr_m exact_record]. now rewrite He.
Qed.

Lemma float_value_pos (m : positive) (e : Z) : 0 < float_value m e.
Proof.
  unfold float_value. pose proof (bpow_pos e).
  assert (0 < inject_Z (Zpos m)) by (unfold Qlt; cbn; lia).
  now apply Qmult_lt_0_compat.
Qed.

Lemma float_value_scaled (m : positive) (e : Z) :
  float_value m e * bpow (- e) == inject_Z (Zpos m).
Proof.
  unfold float_value. rewrite <- Qmult_assoc.
  assert (E : bpow e * bpow (- e) == 1).
  { rewrite Qmult_comm. apply bpow_cancel. }
  rewrite E. ring.
Qed.

Lemma float_binade (m : positive) (e : Z) :
  binade (float_value m e) (Zpos (digits2_pos m) + e).
Proof.
  apply binade_scale.
  apply (binade_comp (inject_Z (Zpos m))); [|apply digits2_binade].
  symmetry. apply float_value_scaled.
Qed.

Lemma div_bpow (x : Q) (e : Z) : x / bpow e == x * bpow (- e).
Proof. unfold Qdiv. now rewrite bpow_opp. Qed.

(** A number that a float represents exactly rounds to that float. *)
Lemma exact_rne (m : positive) (e : Z) (x : Q) :
  bounded prec emax m e = true -> x == float_value m e ->
  is_rne x (S754_finite false m e).
Proof.
  intros Hb Hx. destruct (bounded_facts m e Hb) as (Hc & _).
  exists (Zpos (digits2_pos m) + e)%Z. split.
  - apply (binade_comp (float_value m e)); [now symmetry|apply float_binade].
  - rewrite Hc.
    assert (E : x / bpow e == inject_Z (Zpos m)).
    { rewrite div_bpow, Hx. apply float_value_scaled. }
    rewrite (rhe_comp _ _ E), rhe_Z. symmetry. now apply finish_bounded.
Qed.

Lemma finish_carry (e : Z) :
  (-1074 < e)%Z -> (e <= 971)%Z ->
  finish 9007199254740992 (e - 1) = S754_finite false 4503599627370496 e.
Proof.
  intros H1 H2. unfold finish, shr_fexp.
  change (Zdigits2 9007199254740992) with 54%Z.
  change (fexp prec emax) with fexp64. rewrite fexp_spec.
  replace (Z.max (54 + (e - 1) - 53) (-1074) - (e - 1))%Z with 1%Z by lia.
  cbn [shr_record_of_loc shr iter_pos shr_1 shr_m].
  replace (e - 1 + 1)%Z with e by lia.
  change (emax - prec)%Z with 971%Z.
  now apply Z.leb_le in H2 as ->.
Qed.

Lemma near_rne (m : positive) (e : Z) (x : Q) :
  bounded prec emax m e = true ->
  float_value m e * (1 - near17) <= x ->
  x <= float_value m e * (1 + near17) ->
  is_rne x (S754_finite false m e).
Proof.
  intros Hb Hlo Hhi.
  destruct (bounded_facts m e Hb) as (Hc & He & Hd & Hemin & Hnorm).
  destruct (digits2_bounds m) as [D1 D2].
  set (dm := Zpos (digits2_pos m)) in *.
  pose proof (float_value_scaled m e) as Fs.
  set (v := float_value m e) in *.
  set (y := x * bpow (- e)).
  set (M := inject_Z (Zpos m)) in *.
  pose proof (bpow_pos (- e)) as Pe.
  assert (Hy1 : M * (1 - near17) <= y).
  { assert (A : v * (1 - near17) * bpow (- e) <= x * bpow (- e))
      by (apply Qmult_le_compat_r; lra).
    assert (E : v * (1 - near17) * bpow (- e) == M * (1 - near17))
      by (rewrite <- Fs; ring).
    rewrite E in A. exact A. }
  assert (Hy2 : y <= M * (1 + near17)).
  { assert (A : x * bpow (- e) <= v * (1 + near17) * bpow (- e))
      by (apply Qmult_le_compat_r; lra).
    assert (E : v * (1 + near17) * bpow (- e) == M * (1 + near17))
      by (rewrite <- Fs; ring).
    rewrite E in A. exact A. }
  assert (HM : M < 9007199254740992).
  { unfold M. change 9007199254740992 with (inject_Z (2 ^ 53)).
    rewrite <- Zlt_Qlt.
    apply Z.lt_le_trans with (1 := D2). apply Z.pow_le_mono_r; lia. }
  assert (HM0 : 1 <= M).
  { unfold M. change 1 with (inject_Z 1). rewrite <- Zle_Qle. lia. }
  unfold near17 in *.
  assert (Hnear : M - (1 # 2) < y /\ y < M + (1 # 2)) by (split; lra).
  assert (Hsame : forall ex, binade x ex -> fexp64 ex = e ->
                  is_rne x (S754_finite false m e)).
  { intros ex Hbx Hfx. exists ex. split; [exact Hbx|]. rewrite Hfx.
    rewrite (rhe_comp _ y) by apply div_bpow.
    rewrite (rhe_near y (Zpos m)) by (fold M; tauto).
    symmetry. now apply finish_bounded. }
  assert (Htop : y < bpow dm).
  { assert (K : inject_Z (Zpos m + 1) <= bpow dm).
    { rewrite bpow_Z by (unfold dm; lia). rewrite <- Zle_Qle. lia. }
    rewrite inject_Z_succ in K. fold M in K. lra. }
  destruct (Qlt_le_dec y (bpow (dm - 1))) as [Hlow|Hin].
  - (* below the binade of the float: the float is a power of two *)
    assert (Hpow : Zpos m = (2 ^ (dm - 1))%Z).
    { assert (K : inject_Z (Zpos m) < inject_Z (2 ^ (dm - 1) + 1)).
      { rewrite inject_Z_succ. rewrite <- bpow_Z by (unfold dm; lia).
        fold M. lra. }
      rewrite <- Zlt_Qlt in K. lia. }
    assert (HMp : M == bpow (dm - 1)).
    { unfold M. rewrite Hpow. symmetry. apply bpow_Z. unfold dm. lia. }
    assert (Hb2 : binade y (dm - 1)).
    { split; [|exact Hlow]. rewrite bpow_pred. rewrite <- HMp. lra. }
    assert (Hbx : binade x (dm - 1 + e)) by (apply binade_scale; exact Hb2).
    destruct (Z.eq_dec e (-1074)) as [Ee|Ne].
    + apply (Hsame (dm - 1 + e)%Z Hbx). rewrite fexp_spec. lia.
    + assert (Hdm : dm = 53%Z) by (apply Hnorm; lia).
      assert (Hm : m = 4503599627370496%positive).
      { apply Pos2Z.inj. rewrite Hpow, Hdm. reflexivity. }
      exists (dm - 1 + e)%Z. split; [exact Hbx|].
      assert (Hf : fexp64 (dm - 1 + e) = (e - 1)%Z)
        by (rewrite fexp_spec; lia).
      rewrite Hf.
      assert (E2 : x / bpow (e - 1) == 2 * y).
      { rewrite div_bpow. unfold y.
        replace (- (e - 1))%Z with (- e + 1)%Z by lia.
        rewrite bpow_succ. ring. }
      rewrite (rhe_comp _ _ E2).
      assert (HM52 : M == 4503599627370496).
      { rewrite HMp, Hdm. reflexivity. }
      rewrite (rhe_near (2 * y) 9007199254740992).
      * rewrite Hm. symmetry. apply finish_carry; lia.
      * change (inject_Z 9007199254740992) with 9007199254740992. lra.
      * rewrite HMp in HM52.
        change (inject_Z 9007199254740992) with 9007199254740992. lra.
  - apply (Hsame (dm + e)%Z); [|exact Hc].
    apply binade_scale. split; assumption.
Qed.

(** A float that compares equal to a positive finite one is that float. *)
Lemma eqb_finite (a f : float) (m : positive) (e : Z) :
  Prim2SF f = S754_finite false m e ->
  PrimFloat.eqb a f = true -> a = f.
Proof.
  intros Hf H. rewrite FloatAxioms.eqb_spec, Hf in H.
  apply Prim2SF_inj. rewrite Hf.
  unfold SFeqb, SFcompare in H.
  destruct (Prim2SF a) as [s|s| |s m1 e1]; try destruct s; try discriminate H.
  destruct (Z.compare_spec e1 e) as [E|E|E]; try discriminate H.
  change (Pos.compare_cont Eq m1 m) with (Pos.compare m1 m) in H.
  destruct (Pos.compare_spec m1 m) as [C|C|C]; try discriminate H.
  now subst.
Qed.

Lemma frac_of_pos (v : Q) (num den : Z) : frac_of v num den -> 0 < v.
Proof.
  intros (Hn & Hd & E).
  assert (0 < inject_Z den) by (now rewrite <- (Zlt_Qlt 0)).
  assert (0 < inject_Z num) by (now rewrite <- (Zlt_Qlt 0)).
  destruct (Qlt_le_dec 0 v) as [|G]; [assumption|].
  assert (v * inject_Z den <= 0 * inject_Z den)
    by (apply Qmult_le_compat_r; lra).
  lra.
Qed.

Lemma frac_of_eq (v : Q) (num : Z) (b : positive) :
  frac_of v num (Zpos b) -> v == num # b.
Proof.
  intros (_ & _ & E). unfold Qeq, Qmult, inject_Z in *. cbn [Qnum Qden] in *.
  nia.
Qed.

Lemma ten_pow_cancel (e : Z) : ten_pow (- e) * ten_pow e == 1.
Proof.
  rewrite <- ten_pow_add. replace (- e + e)%Z with 0%Z by lia. reflexivity.
Qed.

Lemma repr_frac (m : positive) (e : Z) :
  let (num, den) := match e with
                    | Zneg j => (Zpos m, (2 ^ Zpos j)%Z)
                    | _ => ((Zpos m * 2 ^ e)%Z, 1%Z)
                    end in
  frac_of (float_value m e) num den.
Proof.
  unfold float_value. destruct e as [|k|k].
  - repeat split; try lia. change (bpow 0) with 1.
    rewrite Z.pow_0_r, Z.mul_1_r. change (inject_Z 1) with 1. ring.
  - assert (0 < 2 ^ Zpos k)%Z by (apply Z.pow_pos_nonneg; lia).
    repeat split; try lia. rewrite inject_Z_mult, bpow_Z by lia.
    change (inject_Z 1) with 1. ring.
  - assert (0 < 2 ^ Zpos k)%Z by (apply Z.pow_pos_nonneg; lia).
    repeat split; try lia. rewrite <- bpow_Z by lia.
    rewrite <- Qmult_assoc. change (Zneg k) with (- Zpos k)%Z.
    rewrite bpow_cancel. ring.
Qed.

Lemma scale10_frac (v : Q) (num den s : Z) :
  frac_of v num den ->
  let (yn, yd) := scale10 num den s in frac_of (v * ten_pow s) yn yd.
Proof.
  intros (Hn & Hd & E). unfold scale10. destruct s as [|k|k].
  - repeat split; try lia. change (ten_pow 0) with 1.
    rewrite Z.pow_0_r, Z.mul_1_r, <- E. ring.
  - assert (0 < 10 ^ Zpos k)%Z by (apply Z.pow_pos_nonneg; lia).
    repeat split; try lia. rewrite inject_Z_mult, <- E, ten_pow_Z by lia.
    ring.
  - assert (0 < 10 ^ Zpos k)%Z by (apply Z.pow_pos_nonneg; lia).
    repeat split; try lia. rewrite inject_Z_mult, <- ten_pow_Z by lia.
    change (Zneg k) with (- Zpos k)%Z.
    transitivity (v * inject_Z den * (ten_pow (- Zpos k) * ten_pow (Zpos k)));
      [ring|].
    rewrite ten_pow_cancel, E. ring.
Qed.

Lemma frac_floor (v : Q) (num den : Z) :
  frac_of v num den ->
  Qfloor v = (num / den)%Z
  /\ round_half_even num den = rhe v
  /\ ((num mod den)%Z = 0%Z -> v == inject_Z (num / den)).
Proof.
  intros H. pose proof H as (Hn & Hd & E).
  destruct den as [|b|b]; try lia.
  pose proof (frac_of_eq _ _ _ H) as Ev.
  split; [|split].
  - now rewrite (Qfloor_comp _ _ Ev).
  - now rewrite (rhe_comp _ _ Ev), round_half_even_rhe.
  - intros Hr. rewrite Ev.
    pose proof (Z.div_mod num (Zpos b) ltac:(discriminate)) as Hdm.
    unfold Qeq, inject_Z. cbn [Qnum Qden]. nia.
Qed.

Lemma pow10_le_spec (v : Q) (num den k : Z) :
  frac_of v num den -> pow10_le k num den = true -> ten_pow k <= v.
Proof.
  intros (Hn & Hd & E) H. unfold pow10_le in H.
  assert (Pd : 0 < inject_Z den) by (now rewrite <- (Zlt_Qlt 0)).
  assert (K : ten_pow k * inject_Z den <= v * inject_Z den).
  { rewrite E. destruct k as [|j|j]; apply Z.leb_le in H.
    - change (ten_pow 0) with 1. rewrite Zle_Qle in H.
      rewrite Z.pow_0_r, Z.mul_1_l in H. lra.
    - rewrite ten_pow_Z by lia. rewrite <- inject_Z_mult, <- Zle_Qle. exact H.
    - rewrite Zle_Qle, inject_Z_mult in H.
      rewrite <- ten_pow_Z in H by lia.
      pose proof (ten_pow_pos (Zneg j)) as P.
      pose proof (ten_pow_cancel (Zpos j)) as C.
      change (- Zpos j)%Z with (Zneg j) in C.
      set (t := ten_pow (Zneg j)) in *. set (u := ten_pow (Zpos j)) in *.
      assert (t * inject_Z den <= t * (inject_Z num * u))
        by (apply Qmult_le_l; lra).
      assert (t * (inject_Z num * u) == inject_Z num).
      { transitivity (inject_Z num * (t * u)); [ring|]. rewrite C. ring. }
      lra. }
  destruct (Qlt_le_dec v (ten_pow k)) as [G|]; [|assumption].
  assert (v * inject_Z den < ten_pow k * inject_Z den)
    by (apply Qmult_lt_compat_r; lra).
  lra.
Qed.

Lemma floor_log10_spec (fuel : nat) (k0 num den : Z) :
  pow10_le (floor_log10 fuel k0 num den) num den = true
  \/ floor_log10 fuel k0 num den = (k0 - Z.of_nat fuel)%Z.
Proof.
  revert k0. induction fuel as [|fuel IH]; intros k0.
  - right. cbn. lia.
  - cbn [floor_log10]. destruct (pow10_le k0 num den) eqn:E; [now left|].
    destruct (IH (k0 - 1)%Z) as [H|H]; [now left|right]. rewrite H. lia.
Qed.

Lemma log10_check_all :
  forallb log10_check (map (fun i => (Z.of_nat i - 1074)%Z) (seq 0 2098))
  = true.
Proof. vm_compute. reflexivity. Qed.

Lemma log10_estimate (L : Z) :
  (-1074 <= L <= 1023)%Z -> ten_pow (L * 1233 / 4096 - 4) <= bpow L.
Proof.
  intros HL.
  assert (Hc : log10_check L = true).
  { pose proof log10_check_all as H. rewrite forallb_forall in H.
    apply H. apply in_map_iff. exists (Z.to_nat (L + 1074)).
    split; [lia|]. apply in_seq. lia. }
  unfold log10_check in Hc. cbv zeta in Hc. apply Z.leb_le in Hc.
  set (k := (L * 1233 / 4096 - 4)%Z) in *.
  set (a := Z.max k 0) in *. set (b := Z.max (- k) 0) in *.
  set (c := Z.max L 0) in *. set (d := Z.max (- L) 0) in *.
  rewrite Zle_Qle, !inject_Z_mult in Hc.
  rewrite <- !ten_pow_Z, <- !bpow_Z in Hc by (unfold a, b, c, d; lia).
  replace (ten_pow k) with (ten_pow (a + - b))
    by (f_equal; unfold a, b; lia).
  replace (bpow L) with (bpow (c + - d)) by (f_equal; unfold c, d; lia).
  rewrite ten_pow_add, bpow_add.
  pose proof (ten_pow_pos (- b)) as P1. pose proof (bpow_pos (- d)) as P2.
  pose proof (ten_pow_cancel b) as C1. pose proof (bpow_cancel d) as C2.
  set (ta := ten_pow a) in *. set (tb := ten_pow b) in *.
  set (tnb := ten_pow (- b)) in *. set (pc := bpow c) in *.
  set (pd := bpow d) in *. set (pnd := bpow (- d)) in *.
  assert (P : 0 < tnb * pnd) by (apply Qmult_lt_0_compat; assumption).
  assert (K : ta * pd * (tnb * pnd) <= pc * tb * (tnb * pnd))
    by (apply Qmult_le_compat_r; lra).
  assert (E1 : ta * pd * (tnb * pnd) == ta * tnb * (pnd * pd)) by ring.
  assert (E2 : pc * tb * (tnb * pnd) == pc * pnd * (tnb * tb)) by ring.
  rewrite E1, E2, C1, C2 in K. lra.
Qed.

Lemma log2_bounds (m : positive) (e : Z) :
  bounded prec emax m e = true ->
  (-1074 <= Z.log2 (Zpos m) + e <= 1023)%Z
  /\ bpow (Z.log2 (Zpos m) + e) <= float_value m e.
Proof.
  intros Hb. destruct (bounded_facts m e Hb) as (_ & He & Hd & Hemin & _).
  destruct (digits2_bounds m) as [_ D2].
  pose proof (Z.log2_spec (Zpos m) ltac:(lia)) as [L1 _].
  pose proof (Z.log2_nonneg (Zpos m)) as L0.
  assert (L2 : (Z.log2 (Zpos m) < 53)%Z).
  { apply Z.log2_lt_pow2; [lia|].
    apply Z.lt_le_trans with (1 := D2). apply Z.pow_le_mono_r; lia. }
  split; [lia|].
  unfold float_value. rewrite bpow_add, bpow_Z by lia.
  apply Qmult_le_compat_r; [now rewrite <- Zle_Qle|].
  apply Qlt_le_weak, bpow_pos.
Qed.

(** The decimal exponent that [repr_digits] starts from is not above the
    number. *)
Lemma floor_log10_below (m : positive) (e num den : Z) :
  bounded prec emax m e = true ->
  frac_of (float_value m e) num den ->
  ten_pow (floor_log10 6 ((Z.log2 (Zpos m) + e) * 1233 / 4096 + 2) num den)
  <= float_value m e.
Proof.
  intros Hb Hf.
  destruct (floor_log10_spec 6 ((Z.log2 (Zpos m) + e) * 1233 / 4096 + 2)
              num den) as [H|H].
  - now apply (pow10_le_spec _ num den).
  - rewrite H. destruct (log2_bounds m e Hb) as [HL Hv].
    apply Qle_trans with (2 := Hv).
    replace ((Z.log2 (Z.pos m) + e) * 1233 / 4096 + 2 - Z.of_nat 6)%Z
      with ((Z.log2 (Z.pos m) + e) * 1233 / 4096 - 4)%Z by lia.
    now apply log10_estimate.
Qed.

Lemma back_reads (f : float) (m : positive) (e c s : Z) :
  Prim2SF f = S754_finite false m e -> (0 <= c)%Z ->
  PrimFloat.eqb (float_of_decimal false (Z.to_N c) (- s)) f = true ->
  reads_as f c s.
Proof.
  intros Hf Hc H. apply (eqb_finite _ _ m e Hf) in H.
  destruct c as [|p|p]; [| |lia].
  - cbn in H. rewrite <- H in Hf. discriminate Hf.
  - split; [lia|]. cbn [Z.to_N] in H.
    destruct (float_of_decimal_rne p (- s)) as (g & Hg & Hr).
    exists g. split; [exact Hr|]. now rewrite <- Hg.
Qed.

Lemma exact_reads (f : float) (m : positive) (e d s : Z) :
  Prim2SF f = S754_finite false m e ->
  inject_Z d == float_value m e * ten_pow s ->
  reads_as f d s.
Proof.
  intros Hf E.
  pose proof (Prim2SF_valid f) as Hv. rewrite Hf in Hv. cbn in Hv.
  pose proof (float_value_pos m e) as Pv. pose proof (ten_pow_pos s) as Ps.
  split.
  - rewrite (Zlt_Qlt 0). rewrite E. now apply Qmult_lt_0_compat.
  - exists (S754_finite false m e). split.
    + apply exact_rne; [exact Hv|]. rewrite E, <- Qmult_assoc.
      rewrite (Qmult_comm (ten_pow s)), ten_pow_cancel. ring.
    + rewrite <- Hf. apply SF2Prim_Prim2SF.
Qed.

Lemma digits_at_reads (f : float) (m : positive) (e num den k n c s : Z) :
  Prim2SF f = S754_finite false m e ->
  frac_of (float_value m e) num den ->
  digits_at f num den k n = Some (c, s) -> reads_as f c s.
Proof.
  intros Hf Hfr. unfold digits_at.
  pose proof (scale10_frac _ num den (n - (k + 1)) Hfr) as Hy.
  destruct (scale10 num den (n - (k + 1))) as [ynum yden].
  destruct (frac_floor _ _ _ Hy) as (_ & _ & Hex).
  pose proof Hy as (Hyn & Hyd & _).
  assert (Hlo : (0 <= ynum / yden)%Z) by (apply Z.div_pos; lia).
  destruct (Z.eqb_spec (ynum mod yden) 0) as [Hr|Hr].
  - intros H. injection H as <- <-.
    apply (exact_reads f m e); [exact Hf|]. symmetry. now apply Hex.
  - destruct (PrimFloat.eqb (float_of_decimal false (Z.to_N (ynum / yden)) _) f)
      eqn:B1;
      destruct (PrimFloat.eqb
                  (float_of_decimal false (Z.to_N (ynum / yden + 1)) _) f)
        eqn:B2;
      try discriminate.
    + destruct (2 * (ynum mod yden) ?= yden)%Z;
        [destruct (Z.even (ynum / yden))| |];
        intros H; injection H as <- <-;
        first [now apply (back_reads f m e)
              |apply (back_reads f m e); [assumption|lia|assumption]].
    + intros H; injection H as <- <-. now apply (back_reads f m e).
    + intros H; injection H as <- <-.
      apply (back_reads f m e); [assumption|lia|assumption].
Qed.

Lemma shortest_digits_reads (f : float) (m : positive) (e num den k : Z)
    (fuel : nat) (n : Z) :
  Prim2SF f = S754_finite false m e ->
  frac_of (float_value m e) num den ->
  ten_pow k <= float_value m e ->
  (n + Z.of_nat fuel = 17)%Z ->
  reads_as f (fst (shortest_digits fuel f num den k n))
             (snd (shortest_digits fuel f num den k n)).
Proof.
  intros Hf Hfr Hk. revert n. induction fuel as [|fuel IH]; intros n Hn.
  - cbn [shortest_digits].
    assert (En : n = 17%Z) by lia. subst n.
    pose proof (scale10_frac _ num den (17 - (k + 1)) Hfr) as Hy.
    destruct (scale10 num den (17 - (k + 1))) as [ynum yden].
    cbn [fst snd].
    destruct (frac_floor _ _ _ Hy) as (_ & Hrhe & _). rewrite Hrhe.
    pose proof (Prim2SF_valid f) as Hv. rewrite Hf in Hv. cbn in Hv.
    set (v := float_value m e) in *.
    set (s := (17 - (k + 1))%Z) in *.
    set (y := v * ten_pow s) in *.
    pose proof (rhe_err y) as [R1 R2].
    pose proof (ten_pow_pos s) as Ps. pose proof (ten_pow_pos (- s)) as Pns.
    assert (Hy16 : 10000000000000000 <= y).
    { change 10000000000000000 with (ten_pow 16).
      replace 16%Z with (k + s)%Z by (unfold s; lia).
      rewrite ten_pow_add. unfold y.
      apply Qmult_le_compat_r; [exact Hk|lra]. }
    set (D := inject_Z (rhe y)) in *.
    assert (Ev : y * ten_pow (- s) == v).
    { unfold y. rewrite <- Qmult_assoc, (Qmult_comm (ten_pow s)).
      rewrite ten_pow_cancel. ring. }
    split.
    + rewrite (Zlt_Qlt 0). fold D. change (inject_Z 0) with 0. lra.
    + exists (S754_finite false m e). split.
      * apply near_rne; [exact Hv| |]; fold v; unfold near17.
        -- assert (A : y * (1 - (1 # 20000000000000000)) * ten_pow (- s)
                       <= D * ten_pow (- s))
             by (apply Qmult_le_compat_r; lra).
           assert (E1 : y * (1 - (1 # 20000000000000000)) * ten_pow (- s)
                        == y * ten_pow (- s) * (1 - (1 # 20000000000000000)))
             by ring.
           rewrite E1, Ev in A. exact A.
        -- assert (A : D * ten_pow (- s)
                       <= y * (1 + (1 # 20000000000000000)) * ten_pow (- s))
             by (apply Qmult_le_compat_r; lra).
           assert (E1 : y * (1 + (1 # 20000000000000000)) * ten_pow (- s)
                        == y * ten_pow (- s) * (1 + (1 # 20000000000000000)))
             by ring.
           rewrite E1, Ev in A. exact A.
      * rewrite <- Hf. apply SF2Prim_Prim2SF.
  - cbn [shortest_digits].
    destruct (digits_at f num den k n) as [[c s]|] eqn:E.
    + cbn [fst snd]. now apply (digits_at_reads f m e num den k n).
    + apply IH. lia.
Qed.

Lemma strip_zeros_reads (f : float) (fuel : nat) (d s : Z) :
  reads_as f d s ->
  reads_as f (fst (strip_zeros fuel d s)) (snd (strip_zeros fuel d s)).
Proof.
  revert d s. induction fuel as [|fuel IH]; intros d s H; [exact H|].
  cbn [strip_zeros].
  destruct ((d mod 10 =? 0)%Z && negb (d =? 0)%Z) eqn:E; [|exact H].
  apply andb_true_iff in E as [E1 _]. apply Z.eqb_eq in E1.
  apply IH. destruct H as (Hd & g & Hr & Hg).
  pose proof (Z.div_mod d 10 ltac:(lia)) as Hdm.
  split; [lia|]. exists g. split; [|exact Hg].
  apply (is_rne_comp (inject_Z d * ten_pow (- s))); [|exact Hr].
  replace (- (s - 1))%Z with (- s + 1)%Z by lia.
  rewrite ten_pow_add. change (ten_pow 1) with 10.
  assert (Ed : inject_Z d == 10 * inject_Z (d / 10)).
  { change 10 with (inject_Z 10). rewrite <- inject_Z_mult.
    apply inject_Z_injective. lia. }
  rewrite Ed. ring.
Qed.

(** The digits that [repr_digits] gives for a float read back as it. *)
Lemma repr_digits_reads (m : positive) (e : Z) :
  bounded prec emax m e = true ->
  exists d : positive,
    fst (repr_digits m e) = str_of_N (Npos d)
    /\ reads_as (SF2Prim (S754_finite false m e)) (Zpos d)
         (Z.of_nat (String.length (fst (repr_digits m e)))
          - snd (repr_digits m e)).
Proof.
  intros Hb. unfold repr_digits.
  set (f := SF2Prim (S754_finite false m e)).
  assert (Hf : Prim2SF f = S754_finite false m e)
    by (apply Prim2SF_SF2Prim; exact Hb).
  pose proof (repr_frac m e) as Hfr.
  destruct (match e with
            | Zneg j => (Zpos m, (2 ^ Zpos j)%Z)
            | _ => ((Zpos m * 2 ^ e)%Z, 1%Z)
            end) as [num den].
  set (k := floor_log10 6 ((Z.log2 (Zpos m) + e) * 1233 / 4096 + 2) num den).
  pose proof (floor_log10_below m e num den Hb Hfr) as Hk. fold k in Hk.
  pose proof (shortest_digits_reads f m e num den k 16 1 Hf Hfr Hk eq_refl)
    as Hs.
  destruct (shortest_digits 16 f num den k 1) as [d0 s0]. cbn [fst snd] in Hs.
  apply (strip_zeros_reads f 20) in Hs.
  destruct (strip_zeros 20 d0 s0) as [d s]. cbn [fst snd] in Hs |- *.
  destruct Hs as (Hd & Hg). destruct d as [|p|p]; try lia.
  exists p. split; [reflexivity|]. split; [lia|].
  replace (Z.of_nat (String.length (str_of_N (Z.to_N (Z.pos p))))
           - (Z.of_nat (String.length (str_of_N (Z.to_N (Z.pos p)))) - s))%Z
    with s by lia.
  exact Hg.
Qed.

End NearestProperties.

(** ** The numeral printed, read back *)

Lemma length_app_string (a b : string) :
  String.length (a ++ b) = (String.length a + String.length b)%nat.
Proof. induction a as [|c a IH]; [reflexivity|]. cbn. now rewrite IH. Qed.

Lemma length_repeat_char (c : ascii) (n : nat) :
  String.length (repeat_char c n) = n.
Proof. induction n as [|n IH]; [reflexivity|]. cbn. now rewrite IH. Qed.

Lemma zeros_digits (n : nat) :
  all_chars is_ascii_digit (repeat_char "0" n) = true.
Proof. induction n as [|n IH]; [reflexivity|]. cbn [repeat_char all_chars]. now rewrite IH. Qed.

Lemma digits_value_zeros (a : N) (n : nat) :
  digits_value a (repeat_char "0" n) = (a * 10 ^ N.of_nat n)%N.
Proof.
  revert a. induction n as [|n IH]; intros a.
  - cbn. lia.
  - cbn [repeat_char digits_value]. rewrite IH.
    change (digit_value "0") with 0%N.
    rewrite Nat2N.inj_succ, N.pow_succ_r'. lia.
Qed.

(** A text cut in two at a position inside it *)
Lemma substring_split (s : string) (k : nat) :
  (k <= String.length s)%nat ->
  substring 0 k s ++ substring k (String.length s - k) s = s
  /\ String.length (substring 0 k s) = k.
Proof.
  revert k. induction s as [|c s IH]; intros k Hk.
  - cbn in Hk. assert (k = 0%nat) by lia. subst k. split; reflexivity.
  - destruct k as [|k].
    + cbn [substring String.length Nat.sub append]. split; [|reflexivity].
      f_equal.
      clear. induction s as [|d s IH]; [reflexivity|].
      cbn [String.length substring]. now rewrite IH.
    + cbn [String.length] in Hk. destruct (IH k ltac:(lia)) as [E1 E2].
      cbn [substring String.length Nat.sub append]. split.
      * f_equal. exact E1.
      * f_equal. exact E2.
Qed.

Lemma is_digit_or_dot_e : is_digit_or_dot "e" = false.
Proof. reflexivity. Qed.

(** The rendering with an exponent has a letter. *)
Lemma exponent_form_has_letter (c : ascii) (rest x : string) :
  all_chars is_digit_or_dot (String c (rest ++ "e" ++ x)) = false.
Proof.
  cbn [all_chars]. rewrite all_chars_app. cbn [append all_chars].
  rewrite is_digit_or_dot_e. cbn. now rewrite !andb_false_r.
Qed.

(** A numeral in plain notation whose value is that of [d * 10 ^ (- s)],
    which reads as [f], reads as [f]. *)
Lemma numeral_reads (f : float) (d : positive) (s : Z) (ip fp : string) :
  reads_as f (Zpos d) s ->
  well_formed {| negative := false; int_part := ip; frac_part := fp |} ->
  (inject_Z (Z.of_N (digits_value 0 (ip ++ fp)))
   * ten_pow (- Z.of_nat (String.length fp))
   == inject_Z (Zpos d) * ten_pow (- s))%Q ->
  float_of_str (ip ++ with_point fp) = Ret f.
Proof.
  intros (_ & g & Hr & Hg) Hw E.
  pose proof (float_of_str_plain _ Hw) as H.
  unfold plain, sign_text, fraction_text, float_of_numeral in H.
  cbn [negative int_part frac_part append] in H. rewrite H. f_equal.
  destruct (digits_value 0 (ip ++ fp)) as [|p].
  - exfalso. cbn [Z.of_N] in E.
    pose proof (ten_pow_pos (- s)) as P.
    assert (0 < inject_Z (Zpos d) * ten_pow (- s))%Q.
    { apply Qmult_lt_0_compat; [reflexivity|exact P]. }
    rewrite <- E in H0. change (inject_Z 0) with 0%Q in H0.
    rewrite Qmult_0_l in H0. discriminate H0.
  - destruct (float_of_decimal_rne p (- Z.of_nat (String.length fp)))
      as (g' & Hg' & Hr').
    rewrite Hg', <- Hg. f_equal.
    apply (is_rne_unique (inject_Z (Zpos d) * ten_pow (- s))); [|exact Hr].
    now apply (is_rne_comp _ _ _ E).
Qed.

Lemma str_of_N_facts (d : positive) :
  all_chars is_ascii_digit (str_of_N (Npos d)) = true
  /\ str_of_N (Npos d) <> ""
  /\ digits_value 0 (str_of_N (Npos d)) = Npos d.
Proof.
  split; [apply str_of_N_digits|]. split; [|apply str_of_N_value].
  intros E. pose proof (str_of_N_nonempty (Npos d)) as H.
  now rewrite E in H.
Qed.

(** The rendering of digits that read as [f], when it has neither a sign
    nor an exponent, reads as [f]. *)
Lemma format_reads (f : float) (d : positive) (ds : string) (decpt : Z) :
  all_chars is_ascii_digit ds = true -> ds <> "" ->
  digits_value 0 ds = Npos d ->
  reads_as f (Zpos d) (Z.of_nat (String.length ds) - decpt) ->
  all_chars is_digit_or_dot (format_repr ds decpt) = true ->
  float_of_str (format_repr ds decpt) = Ret f.
Proof.
  intros Hdig Hne Hval.
  set (nd := Z.of_nat (String.length ds)).
  intros Hr. unfold format_repr. cbv zeta. fold nd.
  destruct ((decpt <=? -4) || (16 <? decpt)) eqn:Ex.
  - destruct ds as [|c [|c' rest]]; [congruence| |].
    + intros H. exfalso.
      change (String c ("e" ++ exponent_str (decpt - 1)))
        with (String c ("" ++ "e" ++ exponent_str (decpt - 1))) in H.
      now rewrite exponent_form_has_letter in H.
    + intros H. exfalso.
      change (String c ("." ++ String c' rest ++ "e"
                        ++ exponent_str (decpt - 1)))
        with (String c (("." ++ String c' rest) ++ "e"
                        ++ exponent_str (decpt - 1))) in H.
      now rewrite exponent_form_has_letter in H.
  - intros _.
    assert (Hnd : (0 < nd)%Z).
    { unfold nd. destruct ds; [congruence|]. cbn. lia. }
    destruct (Z.leb_spec decpt 0) as [H0|H0].
    + (* 0.000ddd *)
      set (z := Z.to_nat (- decpt)).
      assert (Hfp : exists c t, repeat_char "0" z ++ ds = String c t).
      { destruct (repeat_char "0" z); cbn; [|eauto].
        destruct ds; [congruence|eauto]. }
      destruct Hfp as (c & t & Hfp).
      change ("0." ++ repeat_char "0" z ++ ds)
        with ("0" ++ "." ++ (repeat_char "0" z ++ ds)).
      replace ("." ++ (repeat_char "0" z ++ ds))
        with (with_point (repeat_char "0" z ++ ds))
        by (rewrite Hfp; reflexivity).
      apply (numeral_reads f d (nd - decpt)); [exact Hr| |].
      * repeat split; cbn [int_part frac_part]; try reflexivity;
          try discriminate.
        rewrite all_chars_app, zeros_digits, Hdig. reflexivity.
      * cbn [append digits_value]. change (0 * 10 + digit_value "0")%N with 0%N.
        rewrite digits_value_app, digits_value_zeros, N.mul_0_l, Hval.
        rewrite length_app_string, length_repeat_char.
        replace (- Z.of_nat (z + String.length ds))%Z with (- (nd - decpt))%Z
          by (unfold nd, z; lia).
        reflexivity.
    + destruct (Z.leb_spec nd decpt) as [H1|H1].
      * (* ddd000.0 *)
        set (z := Z.to_nat (decpt - nd)).
        rewrite <- append_assoc.
        change ".0" with (with_point "0").
        apply (numeral_reads f d (nd - decpt)); [exact Hr| |].
        -- repeat split; cbn [int_part frac_part]; try reflexivity.
           ++ rewrite all_chars_app, zeros_digits, Hdig. reflexivity.
           ++ destruct ds; [congruence|discriminate].
        -- rewrite !digits_value_app, Hval, digits_value_zeros.
           cbn [digits_value String.length].
           change (digit_value "0") with 0%N.
           replace (- (nd - decpt))%Z with (Z.of_nat z + 1 + -1)%Z
             by (unfold z; lia).
           rewrite (ten_pow_add (Z.of_nat z + 1)).
           change (- Z.of_nat 1)%Z with (-1)%Z.
           rewrite (ten_pow_Z (Z.of_nat z + 1)) by lia.
           rewrite Qmult_assoc. apply Qmult_comp; [|reflexivity].
           rewrite <- inject_Z_mult. apply inject_Z_injective.
           rewrite Z.pow_add_r by lia.
           rewrite N2Z.inj_add, !N2Z.inj_mul, N2Z.inj_pow, nat_N_Z.
           change (Z.of_N 10) with 10%Z. change (Z.of_N 0) with 0%Z.
           change (Z.of_N (N.pos d)) with (Z.pos d).
           change (10 ^ 1)%Z with 10%Z. ring.
      * (* ddd.ddd *)
        set (k := Z.to_nat decpt).
        assert (Hk : (k <= String.length ds)%nat) by (unfold k, nd in *; lia).
        destruct (substring_split ds k Hk) as [Es El].
        replace (Z.to_nat (nd - decpt)) with (String.length ds - k)%nat
          by (unfold k, nd; lia).
        set (pre := substring 0 k ds) in *.
        set (suf := substring k (String.length ds - k) ds) in *.
        pose proof (f_equal String.length Es) as Hlen.
        rewrite length_app_string in Hlen.
        assert (Hsuf : exists c t, suf = String c t).
        { destruct suf; [|eauto]. cbn in Hlen. unfold k, nd in *. lia. }
        destruct Hsuf as (c & t & Hsuf).
        replace ("." ++ suf) with (with_point suf)
          by (rewrite Hsuf; reflexivity).
        rewrite <- Es in Hdig. rewrite all_chars_app in Hdig.
        apply andb_true_iff in Hdig as [Hp Hs].
        apply (numeral_reads f d (nd - decpt)); [exact Hr| |].
        -- repeat split; cbn [int_part frac_part]; try assumption.
           intros E. rewrite E in El. cbn in El. unfold k in *. lia.
        -- rewrite Es, Hval.
           replace (- Z.of_nat (String.length suf))%Z with (- (nd - decpt))%Z
             by (unfold nd, k in *; lia).
           reflexivity.
Qed.

(** [str] of a float, when it has neither a sign nor an exponent, reads
    back as the float. *)
Lemma str_of_float_reads_back (f : float) :
  all_chars is_digit_or_dot (str_of_float f) = true ->
  float_of_str (str_of_float f) = Ret f.
Proof.
  unfold str_of_float. pose proof (Prim2SF_valid f) as Hv.
  pose proof (SF2Prim_Prim2SF f) as Hf.
  destruct (Prim2SF f) as [s|s| |s m e].
  - destruct s; [discriminate|]. intros _. rewrite <- Hf. reflexivity.
  - destruct s; discriminate.
  - discriminate.
  - cbn [valid_binary] in Hv.
    destruct (repr_digits_reads m e Hv) as (d & Hd & Hr).
    destruct (repr_digits m e) as [ds decpt]. cbn [fst snd] in Hd, Hr.
    destruct s; [discriminate|]. cbn [append]. rewrite Hf in Hr.
    destruct (str_of_N_facts d) as (H1 & H2 & H3). rewrite <- Hd in H1, H2, H3.
    now apply (format_reads f d).
Qed.
(** What the normalizer returns: the default, the rendering of a whole
    quantity, or the rendering of a quantity that is not whole. *)
Lemma clean_quantity_result (x : option pyval) (q : string) :
  _clean_quantity x = Ret q ->
  q = "1"
  \/ exists qty i,
       int_of_float qty = Ret i
       /\ ((float_eq_int qty i = true /\ q = str_of_int i)
           \/ (float_eq_int qty i = false /\ q = str_of_float qty)).
Proof.
  intros H.
  assert (Hgen : forall m : outcome float,
            catch_value_type
              (qty <- m ;;
               i <- int_of_float qty ;;
               if float_eq_int qty i then Ret (str_of_int i)
               else Ret (str_of_float qty)) "1" = Ret q ->
            q = "1"
            \/ exists qty i,
                 int_of_float qty = Ret i
                 /\ ((float_eq_int qty i = true /\ q = str_of_int i)
                     \/ (float_eq_int qty i = false /\ q = str_of_float qty))).
  { intros [qty|e] Hm; cbn [bind] in Hm.
    - destruct (int_of_float qty) as [i|e] eqn:Ei; cbn [bind] in Hm.
      + right. exists qty, i. split; [exact Ei|].
        destruct (float_eq_int qty i) eqn:Ee; cbn in Hm; injection Hm as <-;
          auto.
      + destruct e; cbn in Hm; try discriminate; injection Hm as <-; auto.
    - destruct e; cbn in Hm; try discriminate; injection Hm as <-; auto. }
  destruct x as [[s0|z|f]|].
  - rewrite clean_quantity_text in H. exact (Hgen _ H).
  - exact (Hgen _ H).
  - exact (Hgen _ H).
  - injection H as <-. now left.
Qed.

Lemma digit_or_dot_isdigit (s : string) :
  all_chars is_digit_or_dot s = true ->
  all_chars (fun c => isdigit c || Ascii.eqb c ".") s = true.
Proof.
  apply all_chars_impl. intros c H. unfold is_digit_or_dot in H.
  unfold isdigit. destruct (is_ascii_digit c); [reflexivity|].
  cbn in H |- *. rewrite H. apply orb_true_r.
Qed.

(** The text of a quantity that is not whole, when it has neither a sign
    nor an exponent and reads back as the quantity, is normalized to
    itself. *)
Lemma clean_quantity_fraction (qty : float) (i : Z) :
  int_of_float qty = Ret i -> float_eq_int qty i = false ->
  all_chars is_digit_or_dot (str_of_float qty) = true ->
  float_of_str (str_of_float qty) = Ret qty ->
  _clean_quantity (Some (PStr (str_of_float qty))) = Ret (str_of_float qty).
Proof.
  intros Hi He Hd Hrt. rewrite clean_quantity_text. cbv zeta.
  rewrite (filter_chars_all _ _ (digit_or_dot_isdigit _ Hd)).
  pose proof (str_of_float_nonempty qty) as Hn. unfold nonempty in Hn.
  apply negb_true_iff in Hn. rewrite Hn, Hrt. cbn [bind].
  rewrite Hi. cbn [bind]. rewrite He. reflexivity.
Qed.

Lemma unsigned_whole (i : Z) :
  all_chars is_digit_or_dot (str_of_int i) = true ->
  all_chars is_ascii_digit (str_of_int i) = true.
Proof.
  destruct i as [|p|p]; cbn [str_of_int]; intros H.
  - reflexivity.
  - apply str_of_N_digits.
  - discriminate H.
Qed.

(** C8, as the code has it: applying the quantity normalizer to its own
    result gives that result again whenever the result is written with
    digits and points only, that is when it has neither a sign nor an
    exponent: a whole quantity that is not negative (the default ["1"]
    included), or a quantity with a fraction in plain notation.  And the
    normalizer gives ["1"] for an absent or empty quantity, ["3"] for 3.0
    and ["2.5"] for 2.5, which it also returns for the text ["2.5"]. *)
Theorem clean_quantity_idempotent_unsigned :
  (forall x q,
     _clean_quantity x = Ret q -> all_chars is_digit_or_dot q = true ->
     _clean_quantity (Some (PStr q)) = Ret q)
  /\ _clean_quantity None = Ret "1"
  /\ _clean_quantity (Some (PStr "")) = Ret "1"
  /\ _clean_quantity (Some (PFloat 3)) = Ret "3"
  /\ _clean_quantity (Some (PFloat 2.5)) = Ret "2.5"
  /\ _clean_quantity (Some (PStr "2.5")) = Ret "2.5".
Proof.
  split; [|repeat split; vm_compute; reflexivity].
  intros x q H Hd.
  destruct (clean_quantity_result x q H)
    as [-> | (qty & i & Hi & [[He ->] | [He ->]])].
  - vm_compute. reflexivity.
  - apply (clean_quantity_whole qty i Hi He). now apply unsigned_whole.
  - apply (clean_quantity_fraction qty i Hi He Hd).
    now apply str_of_float_reads_back.
Qed.

Lemma clean_quantity_idempotent_witness :
  _clean_quantity (Some (PFloat 0.75)) = Ret "0.75"
  /\ _clean_quantity (Some (PStr "0.75")) = Ret "0.75".
Proof.
  split; [reflexivity|].
  refine (proj1 clean_quantity_idempotent_unsigned (Some (PFloat 0.75)) "0.75"
            _ _); reflexivity.
Defined.
